(** * LP Template build script: the HTML transformation pipeline

    A shallow embedding of [scripts/build.mjs]: the tag generators, the
    image tag rewriter ([processImages]) and the part of [build] that
    assembles [index.html].

    A JavaScript string is modelled by the [string] of its UTF-8 text, one
    element per byte (the files are read as UTF-8).  Every pattern and
    every literal of the script is ASCII, and a byte of a character beyond
    ASCII is never an ASCII byte, so searching, splitting and replacing
    work on the bytes as they do on the code units; the white space of
    [trim] and [\s] is the one place where characters beyond ASCII count,
    and it is listed with its encodings.  Regular expressions are kept as
    syntax trees and run by a backtracking matcher with the priorities of
    the JavaScript engine (greedy and lazy quantifiers, alternatives tried
    left to right, capture groups). *)

From Stdlib Require Import Strings.String Strings.Ascii Lists.List Bool.Bool.
From Stdlib Require Import Arith.PeanoNat Arith.Arith micromega.Lia.
From Stdlib Require Import NArith.BinNat Numbers.DecimalString.
Import ListNotations.

Local Open Scope list_scope.
Local Open Scope string_scope.

(** ** JavaScript strings *)

Module JsString.

(** The double quote and the line feed, which cannot be written inside a
    literal here. *)
Definition DQ : string := String (ascii_of_nat 34) EmptyString.
Definition LF : string := String (ascii_of_nat 10) EmptyString.
Definition dqChar : ascii := ascii_of_nat 34.

(** [q s] is [s] between double quotes. *)
Definition q (s : string) : string := DQ ++ s ++ DQ.

(** A value read from an object: [undefined] is [None]. *)
Definition truthy (v : option string) : bool :=
  match v with
  | Some (String _ _) => true
  | _ => false
  end.

Definition nonEmpty (s : string) : bool :=
  match s with
  | EmptyString => false
  | String _ _ => true
  end.

(** [a || b] on values that are strings or [undefined]. *)
Definition orElse (a b : option string) : option string :=
  if truthy a then a else b.

(** [`${v}`]: the text a template literal gives for a value. *)
Definition show (v : option string) : string :=
  match v with
  | Some s => s
  | None => "undefined"
  end.

(** [a || 'dflt'] inside a template literal. *)
Definition orDefault (a : option string) (dflt : string) : string :=
  if truthy a then show a else dflt.

Fixpoint startsWith (s p : string) {struct p} : bool :=
  match p with
  | EmptyString => true
  | String c p' =>
      match s with
      | EmptyString => false
      | String d s' => Ascii.eqb c d && startsWith s' p'
      end
  end.

(** [s.includes(p)] *)
Fixpoint includes (s p : string) : bool :=
  startsWith s p ||
  match s with
  | EmptyString => false
  | String _ s' => includes s' p
  end.

Fixpoint drop (n : nat) (s : string) : string :=
  match n with
  | 0 => s
  | S n' => match s with
            | EmptyString => EmptyString
            | String _ s' => drop n' s'
            end
  end.

Fixpoint take (n : nat) (s : string) : string :=
  match n with
  | 0 => EmptyString
  | S n' => match s with
            | EmptyString => EmptyString
            | String c s' => String c (take n' s')
            end
  end.

(** [s.endsWith(p)] *)
Definition endsWith (s p : string) : bool :=
  Nat.leb (String.length p) (String.length s) &&
  String.eqb (drop (String.length s - String.length p) s) p.

(** [s.slice(1)] *)
Definition slice1 (s : string) : string := drop 1 s.

Definition lowerChar (c : ascii) : ascii :=
  let n := nat_of_ascii c in
  if Nat.leb 65 n && Nat.leb n 90 then ascii_of_nat (n + 32) else c.

(** [s.toLowerCase()].  The letters [A] to [Z] are mapped: the script
    compares lower-cased text with ASCII words only ([event], [.png], ...),
    and a text that holds a character beyond ASCII never has one of these
    words as its lower case (the Kelvin sign gives [k], which none of them
    holds). *)
Fixpoint toLowerCase (s : string) : string :=
  match s with
  | EmptyString => EmptyString
  | String c s' => String (lowerChar c) (toLowerCase s')
  end.

(** White space.  The white space of ECMA-262 ([WhiteSpace] and
    [LineTerminator]: what [trim] removes and [\s] matches) by code point:
    U+0009 to U+000D, U+0020, U+00A0, U+1680, U+2000 to U+200A, U+2028,
    U+2029, U+202F, U+205F, U+3000 and U+FEFF. *)
Definition spaceCodes : list N :=
  [ 9; 10; 11; 12; 13; 32; 160; 5760;
    8192; 8193; 8194; 8195; 8196; 8197; 8198; 8199; 8200; 8201; 8202;
    8232; 8233; 8239; 8287; 12288; 65279 ]%N.

(** The UTF-8 form of a code point below U+10000. *)
Definition utf8 (n : N) : string :=
  if N.ltb n 128 then String (ascii_of_N n) EmptyString
  else if N.ltb n 2048 then
    String (ascii_of_N (192 + n / 64))
      (String (ascii_of_N (128 + n mod 64)) EmptyString)
  else
    String (ascii_of_N (224 + n / 4096))
      (String (ascii_of_N (128 + (n / 64) mod 64))
         (String (ascii_of_N (128 + n mod 64)) EmptyString)).

Definition spaces : list string := Eval vm_compute in List.map utf8 spaceCodes.

(** The text after the white space character at the head of [s], [None]
    when [s] starts with none. *)
Definition stripSpace (s : string) : option string :=
  match List.find (startsWith s) spaces with
  | Some w => Some (drop (String.length w) s)
  | None => None
  end.

(** [trimStart] removes the white space characters at the head one by
    one; the length of the text bounds their number. *)
Fixpoint trimStartN (n : nat) (s : string) : string :=
  match n with
  | 0 => s
  | S n' =>
      match stripSpace s with
      | Some r => trimStartN n' r
      | None => s
      end
  end.

Definition trimStart (s : string) : string := trimStartN (String.length s) s.

(** A text of white space only. *)
Definition isBlank (s : string) : bool := negb (nonEmpty (trimStart s)).

(** [trimEnd] cuts the text where white space only is left. *)
Fixpoint trimEnd (s : string) : string :=
  match s with
  | EmptyString => EmptyString
  | String c s' => if isBlank s then EmptyString else String c (trimEnd s')
  end.

Definition trim (s : string) : string := trimEnd (trimStart s).

(** [s.split(sep)] for a one-character separator: the current field is
    accumulated in [cur]. *)
Fixpoint splitOn (sep : ascii) (cur : string) (s : string) : list string :=
  match s with
  | EmptyString => [cur]
  | String c s' =>
      if Ascii.eqb c sep then cur :: splitOn sep EmptyString s'
      else splitOn sep (cur ++ String c EmptyString) s'
  end.

Definition split (sep : ascii) (s : string) : list string :=
  splitOn sep EmptyString s.

(** [xs.join(sep)] *)
Definition join (sep : string) (xs : list string) : string :=
  String.concat sep xs.

(** The text before and after the first occurrence of [pat] in [s]
    ([s.indexOf(pat)]), [None] when there is none. *)
Fixpoint splitFirst (pat s : string) : option (string * string) :=
  if startsWith s pat then Some (EmptyString, drop (String.length pat) s)
  else
    match s with
    | EmptyString => None
    | String c s' =>
        match splitFirst pat s' with
        | Some (a, b) => Some (String c a, b)
        | None => None
        end
    end.

(** [GetSubstitution] of ECMA-262 for a match without capture groups:
    in a replacement string [$$] stands for a dollar, [$&] for the
    matched text, [$`] for the text before the match and [$'] for the
    text after it; a dollar before anything else stands for itself. *)
Fixpoint getSubstitution (matched before after repl : string) : string :=
  match repl with
  | EmptyString => EmptyString
  | String c r =>
      if Ascii.eqb c "$" then
        match r with
        | EmptyString => String c EmptyString
        | String d r' =>
            if Ascii.eqb d "$" then String "$" (getSubstitution matched before after r')
            else if Ascii.eqb d "&" then matched ++ getSubstitution matched before after r'
            else if Ascii.eqb d "`" then before ++ getSubstitution matched before after r'
            else if Ascii.eqb d "'" then after ++ getSubstitution matched before after r'
            else String c (getSubstitution matched before after r)
        end
      else String c (getSubstitution matched before after r)
  end.

(** [s.replace(pat, repl)] with a string pattern: the first occurrence
    only, the replacement read by [getSubstitution]. *)
Definition replace (s pat repl : string) : string :=
  match splitFirst pat s with
  | Some (a, b) => a ++ getSubstitution pat a b repl ++ b
  | None => s
  end.

End JsString.

(** ** Regular expressions *)

Module Regex.
Import JsString.

(** The constructs the script's patterns use.  A character class is a
    predicate; [Star greedy a] is [a*] or [a*?]; [Grp a] is a capture
    group; [Eoi] is [$] (no [m] flag: the end of the input). *)
Inductive regex : Type :=
| Eps
| Cls (p : ascii -> bool)
| Seq (a b : regex)
| Alt (a b : regex)
| Star (greedy : bool) (a : regex)
| Grp (a : regex)
| Eoi.

(** What was read between [s] and its suffix [rest]. *)
Definition consumed (s rest : string) : string :=
  take (String.length s - String.length rest) s.

Definition firstOf {R : Type} (x y : option R) : option R :=
  match x with
  | Some _ => x
  | None => y
  end.

(** The iterations of a star, as [RepeatMatcher] of ECMA-262: [step] is
    the matcher of the body, [k] what follows the star.  A greedy star
    tries one more iteration first, a lazy one tries [k] first; an
    iteration that reads nothing is refused, so the length of the input
    bounds the number of iterations and [n] starts from it. *)
Fixpoint starLoop {R : Type}
         (step : string -> list string ->
                 (string -> list string -> option R) -> option R)
         (greedy : bool) (k : string -> list string -> option R)
         (n : nat) (s : string) (caps : list string) {struct n} : option R :=
  match n with
  | 0 => k s caps
  | S n' =>
      let again :=
        step s caps
             (fun s' caps' =>
                if Nat.ltb (String.length s') (String.length s)
                then starLoop step greedy k n' s' caps' else None) in
      if greedy then firstOf again (k s caps)
      else firstOf (k s caps) again
  end.

(** The backtracking matcher, in continuation-passing style as in
    ECMA-262: [run r s caps k] matches [r] at the start of [s] and hands
    the rest of the input and the captures to [k]; when [k] fails the
    next choice of [r] is tried. *)
Fixpoint run {R : Type} (r : regex) (s : string) (caps : list string)
         (k : string -> list string -> option R) {struct r} : option R :=
  match r with
  | Eps => k s caps
  | Cls p =>
      match s with
      | EmptyString => None
      | String c s' => if p c then k s' caps else None
      end
  | Seq a b => run a s caps (fun s' caps' => run b s' caps' k)
  | Alt a b => firstOf (run a s caps k) (run b s caps k)
  | Star greedy a => starLoop (run a) greedy k (String.length s) s caps
  | Grp a => run a s caps (fun s' caps' => k s' (caps' ++ [consumed s s'])%list)
  | Eoi =>
      match s with
      | EmptyString => k s caps
      | String _ _ => None
      end
  end.

(** A match at the start of [s]: the captures and the unread input. *)
Definition exec (r : regex) (s : string) : option (list string * string) :=
  run r s [] (fun rest caps => Some (caps, rest)).

(** [r.test(s)]: a match at some position. *)
Fixpoint test (r : regex) (s : string) : bool :=
  match exec r s with
  | Some _ => true
  | None =>
      match s with
      | EmptyString => false
      | String _ s' => test r s'
      end
  end.

(** A document cut by the matches of a global pattern: the characters no
    match covers and, in their place, the matches. *)
Inductive piece : Type :=
| Lit (c : ascii)
| Hit (matched : string) (caps : list string).

(** The matches are searched from left to right, each search starting
    where the previous match ended (one character further after an empty
    match); [skip] counts the characters of the current match still to
    pass. *)
Fixpoint scanFrom (r : regex) (skip : nat) (s : string) {struct s} : list piece :=
  match s with
  | EmptyString =>
      match skip with
      | 0 =>
          match exec r EmptyString with
          | Some (caps, _) => [Hit EmptyString caps]
          | None => []
          end
      | S _ => []
      end
  | String c s' =>
      match skip with
      | S n => scanFrom r n s'
      | 0 =>
          match exec r s with
          | Some (caps, rest) =>
              match String.length s - String.length rest with
              | 0 => Hit EmptyString caps :: Lit c :: scanFrom r 0 s'
              | S n => Hit (consumed s rest) caps :: scanFrom r n s'
              end
          | None => Lit c :: scanFrom r 0 s'
          end
      end
  end.

Definition scan (r : regex) (s : string) : list piece := scanFrom r 0 s.

(** [s.replace(r, f)] for a global [r] and a function [f] of the match
    and its captures that keeps a state (a counter, a list) between
    calls. *)
Fixpoint render {St : Type} (f : St -> string -> list string -> St * string)
         (st : St) (ps : list piece) : St * string :=
  match ps with
  | [] => (st, EmptyString)
  | Lit c :: ps' =>
      let '(st', out) := render f st ps' in (st', String c out)
  | Hit m caps :: ps' =>
      let '(st1, x) := f st m caps in
      let '(st2, out) := render f st1 ps' in (st2, x ++ out)
  end.

Definition replaceAllWith {St : Type}
           (f : St -> string -> list string -> St * string)
           (st : St) (r : regex) (s : string) : St * string :=
  render f st (scan r s).

(** [s.replace(r, repl)] for a global [r] and a replacement string that
    names no capture group. *)
Fixpoint substAll (repl : string) (before : string) (ps : list piece)
         (s : string) {struct ps} : string :=
  match ps with
  | [] => EmptyString
  | Lit c :: ps' =>
      String c (substAll repl (before ++ String c EmptyString) ps' (drop 1 s))
  | Hit m _ :: ps' =>
      let after := drop (String.length m) s in
      getSubstitution m before after repl
        ++ substAll repl (before ++ m) ps' after
  end.

Definition replaceAll (r : regex) (repl : string) (s : string) : string :=
  substAll repl EmptyString (scan r s) s.

(** [s.replace(r, repl)] for an [r] without the [g] flag: the leftmost
    match only. *)
Fixpoint replaceFrom (r : regex) (repl : string) (before s : string)
         {struct s} : option string :=
  match exec r s with
  | Some (_, rest) =>
      Some (getSubstitution (consumed s rest) before rest repl ++ rest)
  | None =>
      match s with
      | EmptyString => None
      | String c s' =>
          match replaceFrom r repl (before ++ String c EmptyString) s' with
          | Some out => Some (String c out)
          | None => None
          end
      end
  end.

Definition replace (r : regex) (repl : string) (s : string) : string :=
  match replaceFrom r repl EmptyString s with
  | Some out => out
  | None => s
  end.

(** *** Building patterns *)

Definition chr (c : ascii) : regex := Cls (Ascii.eqb c).

(** A letter under the [i] flag. *)
Definition chrI (c : ascii) : regex :=
  Cls (fun d => Ascii.eqb (lowerChar d) (lowerChar c)).

Fixpoint lit (s : string) : regex :=
  match s with
  | EmptyString => Eps
  | String c s' => Seq (chr c) (lit s')
  end.

Fixpoint litI (s : string) : regex :=
  match s with
  | EmptyString => Eps
  | String c s' => Seq (chrI c) (litI s')
  end.

(** [[\s\S]] *)
Definition anyChar : regex := Cls (fun _ => true).

(** One of the texts of a list. *)
Fixpoint oneOf (ws : list string) : regex :=
  match ws with
  | [] => Cls (fun _ => false)
  | w :: ws' => Alt (lit w) (oneOf ws')
  end.

(** [\s]: one white space character. *)
Definition whiteSpace : regex := oneOf spaces.

(** [[^c]] *)
Definition notChr (c : ascii) : regex := Cls (fun d => negb (Ascii.eqb d c)).

Definition isQuote (c : ascii) : bool := Ascii.eqb c dqChar || Ascii.eqb c "'".

(** The classes of the two quote characters and of everything else. *)
Definition quote : regex := Cls isQuote.
Definition notQuote : regex := Cls (fun c => negb (isQuote c)).

Definition plus (greedy : bool) (a : regex) : regex := Seq a (Star greedy a).
Definition opt (a : regex) : regex := Alt a Eps.

Fixpoint seqs (rs : list regex) : regex :=
  match rs with
  | [] => Eps
  | r :: rs' => Seq r (seqs rs')
  end.

End Regex.

(** ** Tag generators *)

Module Generators.
Import JsString.
Import Regex.

(** The object that [loadEnv] builds from [.env]: a value per key, or
    [undefined]. *)
Definition Env : Type := string -> option string.

Definition emptyEnv : Env := fun _ => None.

Definition lines (xs : list string) : string := join LF xs.

(** [cond ? [x] : []]: a conditional [push]. *)
Definition pushIf (cond : bool) (x : string) : list string :=
  if cond then [x] else [].

(** [escapeHtml] *)
Definition escapeHtml (str : string) : string :=
  if nonEmpty str then
    replaceAll (chr "'") "&#039;"
      (replaceAll (chr dqChar) "&quot;"
        (replaceAll (chr ">") "&gt;"
          (replaceAll (chr "<") "&lt;"
            (replaceAll (chr "&") "&amp;" str))))
  else EmptyString.

Definition metaProperty (name content : string) : string :=
  "<meta property=" ++ q name ++ " content=" ++ q content ++ ">".

Definition metaName (name content : string) : string :=
  "<meta name=" ++ q name ++ " content=" ++ q content ++ ">".

(** [generateMetaTags] *)
Definition generateMetaTags (env : Env) : string :=
  let description := env "SITE_DESCRIPTION" in
  let title := env "SITE_TITLE" in
  let image := env "OG_IMAGE_URL" in
  let tags :=
    (pushIf (truthy description)
            (metaName "description" (escapeHtml (show description)))
     ++ [metaProperty "og:type"
           (escapeHtml (orDefault (env "OG_TYPE") "website"))]
     ++ pushIf (truthy title)
            (metaProperty "og:title" (escapeHtml (show title)))
     ++ pushIf (truthy description)
            (metaProperty "og:description" (escapeHtml (show description)))
     ++ pushIf (truthy (env "OG_URL"))
            (metaProperty "og:url" (escapeHtml (show (env "OG_URL"))))
     ++ (if truthy image then
           [metaProperty "og:image" (escapeHtml (show image));
            metaProperty "og:image:width"
              (orDefault (env "OG_IMAGE_WIDTH") "1200");
            metaProperty "og:image:height"
              (orDefault (env "OG_IMAGE_HEIGHT") "630")]
         else [])
     ++ pushIf (truthy (env "OG_SITE_NAME"))
            (metaProperty "og:site_name"
               (escapeHtml (show (env "OG_SITE_NAME"))))
     ++ [metaProperty "og:locale" (orDefault (env "OG_LOCALE") "ja_JP")]
     ++ [metaName "twitter:card"
           (orDefault (env "TWITTER_CARD") "summary_large_image")]
     ++ pushIf (truthy (env "TWITTER_SITE"))
            (metaName "twitter:site" (escapeHtml (show (env "TWITTER_SITE"))))
     ++ pushIf (truthy title)
            (metaName "twitter:title" (escapeHtml (show title)))
     ++ pushIf (truthy description)
            (metaName "twitter:description" (escapeHtml (show description)))
     ++ pushIf (truthy image)
            (metaName "twitter:image" (escapeHtml (show image))))%list in
  if Nat.ltb 0 (List.length tags)
  then "<!-- OGP -->" ++ LF ++ join LF tags
  else EmptyString.

(** [generateAnalyticsTags]: each snippet is a template literal that
    starts with a line break. *)
Definition googleAnalyticsTag (id : string) (adsId : option string) : string :=
  lines
    [ EmptyString;
      "<!-- Google Analytics -->";
      "<script async src=" ++ q ("https://www.googletagmanager.com/gtag/js?id=" ++ id) ++ "></script>";
      "<script>";
      "  window.dataLayer = window.dataLayer || [];";
      "  function gtag(){dataLayer.push(arguments);}";
      "  gtag('js', new Date());";
      "  gtag('config', '" ++ id ++ "');";
      "  " ++ (if truthy adsId then "gtag('config', '" ++ show adsId ++ "');"
               else EmptyString);
      "</script>" ].

Definition metaPixelTag (id : string) : string :=
  lines
    [ EmptyString;
      "<!-- Meta Pixel -->";
      "<script>";
      "  !function(f,b,e,v,n,t,s){if(f.fbq)return;n=f.fbq=function(){n.callMethod?";
      "  n.callMethod.apply(n,arguments):n.queue.push(arguments)};if(!f._fbq)f._fbq=n;";
      "  n.push=n;n.loaded=!0;n.version='2.0';n.queue=[];t=b.createElement(e);t.async=!0;";
      "  t.src=v;s=b.getElementsByTagName(e)[0];s.parentNode.insertBefore(t,s)}(window,";
      "  document,'script','https://connect.facebook.net/en_US/fbevents.js');";
      "  fbq('init', '" ++ id ++ "');";
      "  fbq('track', 'PageView');";
      "</script>";
      "<noscript><img height=" ++ q "1" ++ " width=" ++ q "1" ++ " style="
        ++ q "display:none" ++ " src="
        ++ q ("https://www.facebook.com/tr?id=" ++ id ++ "&ev=PageView&noscript=1")
        ++ "/></noscript>" ].

Definition lineTag (id : string) : string :=
  lines
    [ EmptyString;
      "<!-- LINE Tag -->";
      "<script>";
      "  (function(g,d,o){g._ltq=g._ltq||[];g._lt=g._lt||function(){g._ltq.push(arguments)};";
      "  var h=d.getElementsByTagName(o)[0];var s=d.createElement(o);s.async=1;";
      "  s.src='https://d.line-scdn.net/n/line_tag/public/release/v1/lt.js';";
      "  h.parentNode.insertBefore(s,h)})(window,document,'script');";
      "  _lt('init',{customerType:'account',tagId:'" ++ id ++ "'});";
      "  _lt('send','pv',['" ++ id ++ "']);";
      "</script>";
      "<noscript><img height=" ++ q "1" ++ " width=" ++ q "1" ++ " style="
        ++ q "display:none" ++ " src="
        ++ q ("https://tr.line.me/tag.gif?c_t=lap&t_id=" ++ id ++ "&e=pv&noscript=1")
        ++ "/></noscript>" ].

Definition yahooTag (id : string) : string :=
  lines
    [ EmptyString;
      "<!-- Yahoo Tag -->";
      "<script async src=" ++ q "https://s.yimg.jp/images/listing/tool/cv/ytag.js" ++ "></script>";
      "<script>";
      "  window.yjDataLayer = window.yjDataLayer || [];";
      "  function ytag(){yjDataLayer.push(arguments);}";
      "  ytag('config', { yahoo_ss_retargeting_id: '" ++ id ++ "' });";
      "</script>" ].

Definition clarityTag (id : string) : string :=
  lines
    [ EmptyString;
      "<!-- Microsoft Clarity -->";
      "<script>";
      "  (function(c,l,a,r,i,t,y){c[a]=c[a]||function(){(c[a].q=c[a].q||[]).push(arguments)};";
      "  t=l.createElement(r);t.async=1;t.src=" ++ q "https://www.clarity.ms/tag/" ++ "+i;";
      "  y=l.getElementsByTagName(r)[0];y.parentNode.insertBefore(t,y);";
      "  })(window,document," ++ q "clarity" ++ "," ++ q "script" ++ "," ++ q id ++ ");";
      "</script>" ].

Definition generateAnalyticsTags (env : Env) : string :=
  let tags :=
    (pushIf (truthy (env "GA_MEASUREMENT_ID"))
            (googleAnalyticsTag (show (env "GA_MEASUREMENT_ID")) (env "GA_ADS_ID"))
     ++ pushIf (truthy (env "META_PIXEL_ID"))
            (metaPixelTag (show (env "META_PIXEL_ID")))
     ++ pushIf (truthy (env "LINE_TAG_ID"))
            (lineTag (show (env "LINE_TAG_ID")))
     ++ pushIf (truthy (env "YAHOO_RETARGETING_ID"))
            (yahooTag (show (env "YAHOO_RETARGETING_ID")))
     ++ pushIf (truthy (env "CLARITY_PROJECT_ID"))
            (clarityTag (show (env "CLARITY_PROJECT_ID"))))%list in
  join LF tags.

(** [escapeJsonLd] works on the text [JSON.stringify] returns.  The
    objects built below hold strings, objects and arrays only. *)
#[warnings="-register-all"]
Inductive json : Type :=
| JStr (s : string)
| JObj (fields : list (string * json))
| JArr (items : list json).

Definition hexDigit (n : nat) : ascii :=
  if Nat.ltb n 10 then ascii_of_nat (48 + n) else ascii_of_nat (87 + n).

(** [QuoteJSONString], element by element: the quote, the backslash and
    the control characters are escaped; every other element goes through,
    the bytes of a character beyond ASCII among them. *)
Definition quoteJsonChar (c : ascii) : string :=
  let n := nat_of_ascii c in
  if Nat.eqb n 8 then "\b"
  else if Nat.eqb n 9 then "\t"
  else if Nat.eqb n 10 then "\n"
  else if Nat.eqb n 12 then "\f"
  else if Nat.eqb n 13 then "\r"
  else if Nat.eqb n 34 then "\" ++ DQ
  else if Nat.eqb n 92 then "\\"
  else if Nat.ltb n 32 then
    "\u00" ++ String (hexDigit (n / 16)) (String (hexDigit (n mod 16)) EmptyString)
  else String c EmptyString.

Fixpoint quoteJsonBody (s : string) : string :=
  match s with
  | EmptyString => EmptyString
  | String c s' => quoteJsonChar c ++ quoteJsonBody s'
  end.

Definition quoteJson (s : string) : string := q (quoteJsonBody s).

(** [JSON.stringify] *)
Fixpoint stringify (j : json) : string :=
  match j with
  | JStr s => quoteJson s
  | JObj fields =>
      "{" ++ join ","
               (List.map (fun kv => match kv with
                                    | (k, v) => quoteJson k ++ ":" ++ stringify v
                                    end) fields)
          ++ "}"
  | JArr items => "[" ++ join "," (List.map stringify items) ++ "]"
  end.

(** [escapeJsonLd]: [json.replace(/<\//g, "<\\/")] *)
Definition escapeJsonLd (obj : json) : string :=
  replaceAll (lit "</") "<\/" (stringify obj).

(** [...(c && { k: v })] and [...(c ? { k: v } : {})] *)
Definition fieldIf (cond : bool) (k : string) (v : json) : list (string * json) :=
  if cond then [(k, v)] else [].

Definition strField (k : string) (v : option string) : string * json :=
  (k, JStr (show v)).

(** [...(v && { k: v })] *)
Definition optField (k : string) (v : option string) : list (string * json) :=
  fieldIf (truthy v) k (JStr (show v)).

(** [/<summary[^>]*>([\s\S]*?)<\/summary>[\s\S]*?<p[^>]*>([\s\S]*?)<\/p>/gi] *)
Definition faqRegex : regex :=
  seqs [ litI "<summary"; Star true (notChr ">"); chr ">";
         Grp (Star false anyChar); litI "</summary>";
         Star false anyChar;
         litI "<p"; Star true (notChr ">"); chr ">";
         Grp (Star false anyChar); litI "</p>" ].

(** The body of the [while] loop over [faqRegex.exec(html)]. *)
Definition faqItem (p : piece) : list json :=
  match p with
  | Hit _ (g1 :: g2 :: _) =>
      let question := trim g1 in
      let answer := trim g2 in
      if nonEmpty question && nonEmpty answer then
        [JObj [ ("@type", JStr "Question");
                ("name", JStr question);
                ("acceptedAnswer",
                 JObj [ ("@type", JStr "Answer"); ("text", JStr answer) ]) ]]
      else []
  | _ => []
  end.

Definition schemaOrg : string * json := ("@context", JStr "https://schema.org").

(** [generateSingleStructuredData]; [null] is [None]. *)
Definition generateSingleStructuredData (type : string) (env : Env) (html : string)
  : option json :=
  let ty := trim (toLowerCase type) in
  if String.eqb ty "event" then
    let name := orElse (env "EVENT_NAME") (env "SITE_TITLE") in
    if negb (truthy name) then None
    else
      let description := orElse (env "EVENT_DESCRIPTION") (env "SITE_DESCRIPTION") in
      let image := orElse (env "EVENT_IMAGE_URL") (env "OG_IMAGE_URL") in
      let offerUrl := orElse (env "EVENT_OFFER_URL") (env "OG_URL") in
      Some (JObj
        ([ schemaOrg; ("@type", JStr "Event"); strField "name" name ]
         ++ optField "description" description
         ++ optField "image" image
         ++ optField "startDate" (env "EVENT_START_DATE")
         ++ optField "endDate" (env "EVENT_END_DATE")
         ++ fieldIf (truthy (orElse (env "EVENT_LOCATION_NAME")
                                    (env "EVENT_LOCATION_ADDRESS")))
              "location"
              (JObj ([ ("@type", JStr "Place") ]
                     ++ optField "name" (env "EVENT_LOCATION_NAME")
                     ++ optField "address" (env "EVENT_LOCATION_ADDRESS")))
         ++ fieldIf (truthy (env "EVENT_OFFER_PRICE"))
              "offers"
              (JObj ([ ("@type", JStr "Offer");
                       strField "price" (env "EVENT_OFFER_PRICE");
                       ("priceCurrency",
                        JStr (orDefault (env "EVENT_OFFER_CURRENCY") "JPY"));
                       ("availability", JStr "https://schema.org/InStock") ]
                     ++ optField "url" offerUrl))
         ++ fieldIf (truthy (env "EVENT_PERFORMER"))
              "performer"
              (JObj [ ("@type", JStr "Person");
                      strField "name" (env "EVENT_PERFORMER") ])
         ++ fieldIf (truthy (env "OG_SITE_NAME"))
              "organizer"
              (JObj [ ("@type", JStr "Organization");
                      strField "name" (env "OG_SITE_NAME") ]))%list)
  else if String.eqb ty "product" then
    let name := orElse (env "PRODUCT_NAME") (env "SITE_TITLE") in
    if negb (truthy name) then None
    else
      Some (JObj
        ([ schemaOrg; ("@type", JStr "Product"); strField "name" name ]
         ++ optField "description" (env "SITE_DESCRIPTION")
         ++ optField "image" (env "OG_IMAGE_URL")
         ++ optField "brand" (env "PRODUCT_BRAND")
         ++ fieldIf (truthy (env "PRODUCT_PRICE"))
              "offers"
              (JObj [ ("@type", JStr "Offer");
                      strField "price" (env "PRODUCT_PRICE");
                      ("priceCurrency",
                       JStr (orDefault (env "PRODUCT_CURRENCY") "JPY"));
                      ("availability",
                       JStr (orDefault (env "PRODUCT_AVAILABILITY")
                                       "https://schema.org/InStock")) ]))%list)
  else if String.eqb ty "localbusiness" then
    let name := orElse (env "BUSINESS_NAME") (env "OG_SITE_NAME") in
    if negb (truthy name) then None
    else
      let address := env "BUSINESS_ADDRESS" in
      let city := env "BUSINESS_CITY" in
      Some (JObj
        ([ schemaOrg;
           ("@type", JStr (orDefault (env "BUSINESS_TYPE") "LocalBusiness"));
           strField "name" name ]
         ++ optField "description" (env "SITE_DESCRIPTION")
         ++ optField "image" (orElse (env "BUSINESS_IMAGE_URL") (env "OG_IMAGE_URL"))
         ++ optField "telephone" (env "BUSINESS_PHONE")
         ++ optField "url" (orElse (env "BUSINESS_URL") (env "OG_URL"))
         ++ optField "priceRange" (env "BUSINESS_PRICE_RANGE")
         ++ fieldIf (truthy address && truthy city)
              "address"
              (JObj ([ ("@type", JStr "PostalAddress");
                       strField "streetAddress" address;
                       strField "addressLocality" city ]
                     ++ optField "addressRegion" (env "BUSINESS_REGION")
                     ++ optField "postalCode" (env "BUSINESS_POSTAL_CODE")
                     ++ [ ("addressCountry",
                           JStr (orDefault (env "BUSINESS_COUNTRY") "JP")) ])))%list)
  else if String.eqb ty "organization" then
    let name := orElse (env "ORG_NAME") (env "OG_SITE_NAME") in
    let url := orElse (env "ORG_URL") (env "OG_URL") in
    if negb (truthy name) || negb (truthy url) then None
    else
      Some (JObj
        ([ schemaOrg; ("@type", JStr "Organization");
           strField "name" name; strField "url" url ]
         ++ optField "logo" (orElse (env "ORG_LOGO_URL") (env "OG_IMAGE_URL"))
         ++ optField "description"
              (orElse (env "ORG_DESCRIPTION") (env "SITE_DESCRIPTION"))
         ++ optField "email" (env "ORG_EMAIL")
         ++ optField "telephone" (env "ORG_PHONE"))%list)
  else if String.eqb ty "faqpage" then
    let faqItems := List.flat_map faqItem (scan faqRegex html) in
    if Nat.ltb 0 (List.length faqItems) then
      Some (JObj [ schemaOrg; ("@type", JStr "FAQPage");
                   ("mainEntity", JArr faqItems) ])
    else None
  else None.

Definition ldJsonScript (payload : string) : string :=
  "<script type=" ++ q "application/ld+json" ++ ">" ++ payload ++ "</script>".

(** The types named by [STRUCTURED_DATA_TYPE], split at the commas,
    trimmed, the empty ones dropped. *)
Definition structuredDataTypes (typeString : string) : list string :=
  List.filter nonEmpty (List.map trim (split "," typeString)).

(** The escaped payloads, one per type that yields data. *)
Definition structuredDataPayloads (env : Env) (html : string) : list string :=
  List.flat_map
    (fun type =>
       match generateSingleStructuredData type env html with
       | Some data => [escapeJsonLd data]
       | None => []
       end)
    (structuredDataTypes (show (env "STRUCTURED_DATA_TYPE"))).

(** [generateStructuredData] *)
Definition generateStructuredData (env : Env) (html : string) : string :=
  if negb (truthy (env "STRUCTURED_DATA_TYPE")) then EmptyString
  else if Nat.eqb (List.length (structuredDataTypes (show (env "STRUCTURED_DATA_TYPE")))) 0
  then EmptyString
  else join LF (List.map ldJsonScript (structuredDataPayloads env html)).

(** [generateConversionCode].  The time-on-page branch prints
    [JSON.stringify] of numbers read by [parseInt]; how JavaScript reads
    and prints a double is left to [timePointsJson], which stands for
    [JSON.stringify(s.split(",").map((t) => parseInt(t.trim(), 10)))]. *)
Section ConversionCode.

Variable timePointsJson : string -> string.

Definition conversionHead : string :=
  lines
    [ EmptyString;
      "(function() {";
      "  document.querySelectorAll('[data-cv]').forEach(function(el) {";
      "    el.addEventListener('click', function() {";
      "      var cvType = this.dataset.cv;";
      "      var label = this.textContent || this.innerText;";
      EmptyString ].

Definition conversionGa : string :=
  lines
    [ EmptyString;
      "      if (typeof gtag === 'function') {";
      "        gtag('event', cvType, { event_category: 'conversion', event_label: label });";
      "      }" ].

Definition conversionAds (adsId label : string) : string :=
  lines
    [ EmptyString;
      "      if (typeof gtag === 'function') {";
      "        gtag('event', 'conversion', { send_to: '" ++ adsId ++ "/" ++ label ++ "' });";
      "      }" ].

Definition conversionPixel : string :=
  lines
    [ EmptyString;
      "      if (typeof fbq === 'function') {";
      "        fbq('track', cvType === 'tel' ? 'Contact' : 'Lead');";
      "      }" ].

Definition conversionLine : string :=
  lines
    [ EmptyString;
      "      if (typeof _lt === 'function') {";
      "        _lt('send', 'cv', { type: cvType });";
      "      }" ].

Definition conversionYahoo (id label : string) : string :=
  lines
    [ EmptyString;
      "      if (typeof ytag === 'function') {";
      "        ytag('conversion', { yahoo_conversion_id: '" ++ id
        ++ "', yahoo_conversion_label: '" ++ label ++ "' });";
      "      }" ].

Definition conversionClose : string :=
  lines [ EmptyString; "    });"; "  });"; EmptyString ].

Definition scrollDepthCode : string :=
  lines
    [ EmptyString;
      "  var scrollTracked = {};";
      "  window.addEventListener('scroll', function() {";
      "    var scrollPercent = Math.floor((window.scrollY + window.innerHeight) / document.body.scrollHeight * 100);";
      "    [25, 50, 75, 90].forEach(function(point) {";
      "      if (scrollPercent >= point && !scrollTracked[point]) {";
      "        scrollTracked[point] = true;";
      "        if (typeof gtag === 'function') { gtag('event', 'scroll_depth', { depth: point }); }";
      "      }";
      "    });";
      "  });";
      EmptyString ].

Definition timeOnPageCode (times : string) : string :=
  lines
    [ EmptyString;
      "  var timeTracked = {};";
      "  var timePoints = " ++ times ++ ";";
      "  var startTime = Date.now();";
      "  setInterval(function() {";
      "    var elapsed = Math.floor((Date.now() - startTime) / 1000);";
      "    timePoints.forEach(function(seconds) {";
      "      if (elapsed >= seconds && !timeTracked[seconds]) {";
      "        timeTracked[seconds] = true;";
      "        if (typeof gtag === 'function') { gtag('event', 'time_on_page', { seconds: seconds }); }";
      "      }";
      "    });";
      "  }, 1000);";
      EmptyString ].

Definition isTrue (v : option string) : bool :=
  match v with
  | Some s => String.eqb s "true"
  | None => false
  end.

Definition generateConversionCode (env : Env) : string :=
  let ga := truthy (env "GA_MEASUREMENT_ID") in
  let code :=
    ([conversionHead]
     ++ pushIf ga conversionGa
     ++ pushIf (truthy (env "GA_ADS_ID") && truthy (env "GA_ADS_CONVERSION_LABEL"))
          (conversionAds (show (env "GA_ADS_ID"))
                         (show (env "GA_ADS_CONVERSION_LABEL")))
     ++ pushIf (truthy (env "META_PIXEL_ID")) conversionPixel
     ++ pushIf (truthy (env "LINE_TAG_ID")) conversionLine
     ++ pushIf (truthy (env "YAHOO_CONVERSION_ID")
                && truthy (env "YAHOO_CONVERSION_LABEL"))
          (conversionYahoo (show (env "YAHOO_CONVERSION_ID"))
                           (show (env "YAHOO_CONVERSION_LABEL")))
     ++ [conversionClose]
     ++ pushIf (isTrue (env "TRACK_SCROLL_DEPTH") && ga) scrollDepthCode
     ++ pushIf (truthy (env "TRACK_TIME_ON_PAGE") && ga)
          (timeOnPageCode (timePointsJson (show (env "TRACK_TIME_ON_PAGE"))))
     ++ ["})();"])%list in
  join EmptyString code.

End ConversionCode.

(** [/\/$/] *)
Definition trailingSlash : regex := seqs [chr "/"; Eoi].

(** [basePath ? basePath.replace(/\/$/, "") : ""], here and in
    [processImages] and [build]. *)
Definition normalizePrefix (basePath : string) : string :=
  if nonEmpty basePath then Regex.replace trailingSlash EmptyString basePath
  else EmptyString.

(** [generateFavicons].  The files are written by the image library;
    [available] says that [images/favicon.png] exists and that every
    resize succeeded (otherwise the function returns the empty string, or
    throws and [build] keeps the empty string). *)
Definition generateFavicons (available : bool) (basePath : string) : string :=
  if negb available then EmptyString
  else
    let prefix := normalizePrefix basePath in
    "<!-- Favicon -->" ++ LF ++
    lines
      [ "<link rel=" ++ q "icon" ++ " type=" ++ q "image/x-icon" ++ " href="
          ++ q (prefix ++ "/favicon.ico") ++ ">";
        "<link rel=" ++ q "icon" ++ " type=" ++ q "image/png" ++ " sizes="
          ++ q "16x16" ++ " href=" ++ q (prefix ++ "/favicon-16x16.png") ++ ">";
        "<link rel=" ++ q "icon" ++ " type=" ++ q "image/png" ++ " sizes="
          ++ q "32x32" ++ " href=" ++ q (prefix ++ "/favicon-32x32.png") ++ ">";
        "<link rel=" ++ q "apple-touch-icon" ++ " sizes=" ++ q "180x180"
          ++ " href=" ++ q (prefix ++ "/apple-touch-icon.png") ++ ">" ].

End Generators.


(** ** [path.extname] (Node, POSIX) *)

Module NodePath.
Import JsString.

(** The variables of the loop of [extname]; [-1] is [None];
    [preDotState] is 0, 1 or -1 (here 0, 1, 2). *)
Record ExtState : Type := mkExtState {
  startDot : option nat;
  startPart : nat;
  endIdx : option nat;
  matchedSlash : bool;
  preDotState : nat
}.

Definition isNone {A : Type} (o : option A) : bool :=
  match o with
  | None => true
  | Some _ => false
  end.

(** The body of the loop at index [i]: the new state and whether the loop
    goes on. *)
Definition extnameStep (i : nat) (code : ascii) (st : ExtState) : ExtState * bool :=
  if Ascii.eqb code "/" then
    if negb (matchedSlash st)
    then (mkExtState (startDot st) (i + 1) (endIdx st) (matchedSlash st)
                     (preDotState st), false)
    else (st, true)
  else
    let st1 :=
      if isNone (endIdx st)
      then mkExtState (startDot st) (startPart st) (Some (i + 1)) false
                      (preDotState st)
      else st in
    if Ascii.eqb code "." then
      if isNone (startDot st1)
      then (mkExtState (Some i) (startPart st1) (endIdx st1) (matchedSlash st1)
                       (preDotState st1), true)
      else if negb (Nat.eqb (preDotState st1) 1)
      then (mkExtState (startDot st1) (startPart st1) (endIdx st1)
                       (matchedSlash st1) 1, true)
      else (st1, true)
    else if negb (isNone (startDot st1))
    then (mkExtState (startDot st1) (startPart st1) (endIdx st1)
                     (matchedSlash st1) 2, true)
    else (st1, true).

(** [for (let i = n - 1; i >= 0; --i)] *)
Fixpoint extnameLoop (n : nat) (path : string) (st : ExtState) : ExtState :=
  match n with
  | 0 => st
  | S i =>
      match String.get i path with
      | None => st
      | Some code =>
          let '(st', continue) := extnameStep i code st in
          if continue then extnameLoop i path st' else st'
      end
  end.

Definition extname (path : string) : string :=
  let st := extnameLoop (String.length path) path
                        (mkExtState None 0 None true 0) in
  match startDot st, endIdx st with
  | Some sd, Some e =>
      if Nat.eqb (preDotState st) 0
         || (Nat.eqb (preDotState st) 1
             && Nat.eqb sd (e - 1) && Nat.eqb sd (startPart st + 1))
      then EmptyString
      else take (e - sd) (drop sd path)
  | _, _ => EmptyString
  end.

End NodePath.

(** ** The image tag rewriter *)

Module ImageRewriter.
Import JsString.
Import Regex.
Import Generators.

(** An entry of [.image-dimensions.json]. *)
Record Dimension : Type := mkDimension { width : N; height : N }.

(** The table in the order of [Object.keys]. *)
Definition Dimensions : Type := list (string * Dimension).

(** [`${n}`] for a whole number. *)
Definition showN (n : N) : string := NilEmpty.string_of_uint (N.to_uint n).
Definition showNat (n : nat) : string := NilEmpty.string_of_uint (Nat.to_uint n).

(** [/<picture[\s\S]*?<\/picture>/gi] *)
Definition pictureRegex : regex :=
  seqs [ litI "<picture"; Star false anyChar; litI "</picture>" ].

(** The pattern [imgRegex] of the source, flags [gi]: [<img], a group of
    [[^>]] repeated (greedy star), [src=], one of the two quote characters
    (double or single), a group of one or more characters that are not
    quotes, a quote again, a group of [[^>]] repeated, and [>]. *)
Definition imgRegex : regex :=
  seqs [ litI "<img"; Grp (Star true (notChr ">")); litI "src="; quote;
         Grp (plus true notQuote); quote; Grp (Star true (notChr ">"));
         chr ">" ].

(** [/\.(png|jpe?g)$/i] and [/(\.(png|jpe?g))$/i] *)
Definition imageFormat : regex :=
  Grp (Alt (litI "png") (seqs [chrI "j"; chrI "p"; opt (chrI "e"); chrI "g"])).
Definition extRegex : regex := seqs [ chr "."; imageFormat; Eoi ].
Definition extGroupRegex : regex := seqs [ Grp (Seq (chr ".") imageFormat); Eoi ].

Definition placeholder (i : nat) : string :=
  "__PICTURE_PLACEHOLDER_" ++ showNat i ++ "__".

(** Step 1: the callback pushes the block and returns its placeholder. *)
Definition protectPicture (blocks : list string) (matched : string)
           (caps : list string) : list string * string :=
  let blocks' := (blocks ++ [matched])%list in
  (blocks', placeholder (List.length blocks' - 1)).

Definition protectPictures (html : string) : list string * string :=
  replaceAllWith protectPicture [] pictureRegex html.

Definition hasAttr (name : string) (attrs : string) : bool :=
  test (litI name) attrs.

(** [src.startsWith("/") || src.startsWith("http")] *)
Definition isAbsolute (src : string) : bool :=
  startsWith src "/" || startsWith src "http".

(** [src.startsWith("/") ? src.slice(1) : src] *)
Definition stripSlash (src : string) : string :=
  if startsWith src "/" then slice1 src else src.

(** The attributes appended for the sizes: nothing when both are there or
    when the table has no usable entry. *)
Definition sizeAttrs (dimensions : Dimensions) (src before after : string) : string :=
  let hasWidth := hasAttr "width=" (before ++ after) in
  let hasHeight := hasAttr "height=" (before ++ after) in
  if negb hasWidth || negb hasHeight then
    let relativePath := stripSlash src in
    match List.find (fun kv => endsWith (fst kv) relativePath) dimensions with
    | Some (dimKey, d) =>
        if nonEmpty dimKey then
          (if negb hasWidth then " width=" ++ q (showN (width d)) else EmptyString)
          ++ (if negb hasHeight then " height=" ++ q (showN (height d))
              else EmptyString)
        else EmptyString
    | None => EmptyString
    end
  else EmptyString.

Definition lazyAttr (imageIndex : nat) (before after : string) : string :=
  let isFirst := Nat.eqb imageIndex 1 in
  let hasLazy := hasAttr "loading=" (before ++ after) in
  if negb isFirst && negb hasLazy then " loading=" ++ q "lazy" else EmptyString.

(** [newAfter] when the callback returns. *)
Definition newAfter (dimensions : Dimensions) (imageIndex : nat)
           (before src after : string) : string :=
  after ++ sizeAttrs dimensions src before after ++ lazyAttr imageIndex before after.

Definition isPictureExt (ext : string) : bool :=
  List.existsb (String.eqb ext) [".png"; ".jpg"; ".jpeg"].

Definition imgTag (before src after : string) : string :=
  "<img" ++ before ++ "src=" ++ q src ++ after ++ ">".

Definition sourceTag (media srcset type : string) : string :=
  "<source "
    ++ (if nonEmpty media then "media=" ++ q media ++ " " else EmptyString)
    ++ "srcset=" ++ q srcset
    ++ (if nonEmpty type then " type=" ++ q type else EmptyString)
    ++ ">".

(** The [<picture>] template literals: each element on a line of its own,
    indented by two spaces. *)
Definition pictureBlock (elements : list string) : string :=
  "<picture>" ++ LF
    ++ join EmptyString (List.map (fun e => "  " ++ e ++ LF) elements)
    ++ "</picture>".

Definition spMedia : string := "(max-width: 767px)".

(** The callback of the [<img>] pass, after [imageIndex++]. *)
Definition rewriteImg (dimensions : Dimensions) (prefix : string)
           (spImages : list string) (imageIndex : nat)
           (before src after : string) : string :=
  let after' := newAfter dimensions imageIndex before src after in
  let ext := toLowerCase (NodePath.extname src) in
  if isPictureExt ext then
    let baseName := Regex.replace extRegex EmptyString src in
    let imgPrefix :=
      if isAbsolute src then EmptyString
      else if nonEmpty prefix then prefix ++ "/" else EmptyString in
    let srcWithPrefix := if isAbsolute src then src else imgPrefix ++ src in
    let baseNameWithPrefix :=
      if isAbsolute src then baseName else imgPrefix ++ baseName in
    let relativeSrc := stripSlash src in
    let hasSpImage := List.existsb (String.eqb relativeSrc) spImages in
    if hasSpImage then
      let spBaseName := Regex.replace extGroupRegex EmptyString baseName ++ "-sp" in
      let spBaseNameWithPrefix :=
        if isAbsolute src then spBaseName else imgPrefix ++ spBaseName in
      let spSrcWithPrefix :=
        if isAbsolute src then spBaseName ++ ext
        else imgPrefix ++ spBaseName ++ ext in
      pictureBlock
        [ sourceTag spMedia (spBaseNameWithPrefix ++ ".avif") "image/avif";
          sourceTag spMedia (spBaseNameWithPrefix ++ ".webp") "image/webp";
          sourceTag spMedia spSrcWithPrefix EmptyString;
          sourceTag EmptyString (baseNameWithPrefix ++ ".avif") "image/avif";
          sourceTag EmptyString (baseNameWithPrefix ++ ".webp") "image/webp";
          imgTag before srcWithPrefix after' ]
    else
      pictureBlock
        [ sourceTag EmptyString (baseNameWithPrefix ++ ".avif") "image/avif";
          sourceTag EmptyString (baseNameWithPrefix ++ ".webp") "image/webp";
          imgTag before srcWithPrefix after' ]
  else if negb (startsWith src "/") && negb (startsWith src "http")
          && nonEmpty prefix
  then imgTag before (prefix ++ "/" ++ src) after'
  else imgTag before src after'.

(** The callback as [replace] calls it: the three groups of [imgRegex]. *)
Definition imgCallback (dimensions : Dimensions) (prefix : string)
           (spImages : list string) (imageIndex : nat) (matched : string)
           (caps : list string) : nat * string :=
  match caps with
  | [before; src; after] =>
      (S imageIndex,
       rewriteImg dimensions prefix spImages (S imageIndex) before src after)
  | _ => (S imageIndex, matched)
  end.

(** Step 3: [pictureBlocks.forEach((block, i) => ...)] *)
Fixpoint restorePictures (i : nat) (blocks : list string) (html : string) : string :=
  match blocks with
  | [] => html
  | block :: rest =>
      restorePictures (S i) rest (JsString.replace html (placeholder i) block)
  end.

(** [processImages]: the rewritten document and the warnings. *)
Definition processImages (html : string) (dimensions : Dimensions)
           (basePath : string) (spImages : list string) : string * list string :=
  let prefix := normalizePrefix basePath in
  let '(pictureBlocks, html1) := protectPictures html in
  let '(_, html2) :=
    replaceAllWith (imgCallback dimensions prefix spImages) 0 imgRegex html1 in
  (restorePictures 0 pictureBlocks html2, []).

End ImageRewriter.


(** ** The HTML stage of [build] *)

Module Build.
Import JsString.
Import Regex.
Import Generators.
Import ImageRewriter.

(** [/<title>[^<]*<\/title>/i] *)
Definition titleRegex : regex :=
  seqs [ litI "<title>"; Star true (notChr "<"); litI "</title>" ].

Definition headClose : string := "</head>".

(** [html.replace("</head>", `${fragment}\n</head>`)] *)
Definition injectBeforeHead (fragment html : string) : string :=
  JsString.replace html headClose (fragment ++ LF ++ headClose).

Definition updateTitle (env : Env) (html : string) : string :=
  if truthy (env "SITE_TITLE")
  then Regex.replace titleRegex
         ("<title>" ++ escapeHtml (show (env "SITE_TITLE")) ++ "</title>") html
  else html.

(** The document after the OGP tags, the analytics tags and the favicon
    tags went in: what [generateStructuredData] reads. *)
Definition injectHeadTags (env : Env) (faviconTags html : string) : string :=
  let html1 := injectBeforeHead (generateMetaTags env) html in
  let html2 := injectBeforeHead (generateAnalyticsTags env) html1 in
  if nonEmpty faviconTags then injectBeforeHead faviconTags html2 else html2.

(** The document handed to [processImages]. *)
Definition injectFragments (env : Env) (faviconTags html : string) : string :=
  let html3 := injectHeadTags env faviconTags html in
  let structuredData := generateStructuredData env html3 in
  if nonEmpty structuredData then injectBeforeHead structuredData html3
  else html3.

(** [html.replace('href="style.css"', ...)] and
    [html.replace('src="script.js"', ...)] *)
Definition updateAssetLinks (basePath html : string) : string :=
  let cssHref :=
    if nonEmpty basePath then basePath ++ "/style.min.css" else "style.min.css" in
  let jsHref :=
    if nonEmpty basePath then basePath ++ "/script.min.js" else "script.min.js" in
  let html1 := JsString.replace html ("href=" ++ q "style.css") ("href=" ++ q cssHref) in
  JsString.replace html1 ("src=" ++ q "script.js") ("src=" ++ q jsHref).

(** [env.BASE_PATH ? env.BASE_PATH.replace(/\/$/, "") : ""] *)
Definition basePathOf (env : Env) : string :=
  match env "BASE_PATH" with
  | Some s => normalizePrefix s
  | None => EmptyString
  end.

(** The body of the [try] block of [build] that processes [index.html],
    up to the call of the minifier: [html] is the file as read,
    [faviconTags] what [generateFavicons] returned. *)
Definition buildHtml (env : Env) (dimensions : Dimensions) (faviconTags : string)
           (spImages : list string) (html : string) : string :=
  let basePath := basePathOf env in
  let html1 := updateTitle env html in
  let html2 := injectFragments env faviconTags html1 in
  let html3 := fst (processImages html2 dimensions basePath spImages) in
  updateAssetLinks basePath html3.

End Build.


(** ** The configuration file *)

Module EnvFile.
Import JsString.
Import Generators.

(** [env[key] = value] on the object literal [{}].  The key [__proto__]
    reaches the setter of [Object.prototype], which ignores a string: no
    property is created.  (The generators read none of the names that
    [Object.prototype] defines.) *)
Definition lfChar : ascii := ascii_of_nat 10.

Definition setKey (env : Env) (key value : string) : Env :=
  if String.eqb key "__proto__" then env
  else fun k => if String.eqb k key then Some value else env k.

(** The callback of [forEach] in [loadEnv]: a line that is empty once
    trimmed or starts with [#] is skipped; otherwise the text in front of
    the first [=] is the key, what follows it the value, both trimmed. *)
Definition envLine (env : Env) (line : string) : Env :=
  let trimmed := trim line in
  if nonEmpty trimmed && negb (startsWith trimmed "#") then
    match split "=" trimmed with
    | key :: valueParts => setKey env (trim key) (trim (join "=" valueParts))
    | [] => env
    end
  else env.

(** [loadEnv]: [file] is the content of [.env], [None] when it cannot be
    read (the [catch] branch keeps the empty object). *)
Definition loadEnv (file : option string) : Env :=
  match file with
  | Some content => List.fold_left envLine (split lfChar content) emptyEnv
  | None => emptyEnv
  end.

End EnvFile.

(** ** The SP images *)

Module SpImages.
Import JsString.
Import Regex.
Import ImageRewriter.

(** What [readdir] lists: a regular file, a directory with its own
    entries (none when it cannot be read: the [catch] of [scan]), or
    something else. *)
#[warnings="-register-all"]
Inductive entry : Type :=
| File (name : string)
| Dir (name : string) (children : list entry)
| Other (name : string).

(** [/-sp\.(png|jpe?g)$/i] and [/-sp(\.(png|jpe?g))$/i] *)
Definition spRegex : regex := seqs [ litI "-sp"; chr "."; imageFormat; Eoi ].
Definition spGroupRegex : regex :=
  seqs [ litI "-sp"; Grp (Seq (chr ".") imageFormat); Eoi ].

(** [name.replace(r, "$1")] for an [r] without the [g] flag whose groups
    are nested: the leftmost match gives way to the text of the group that
    opens first.  [run] lists the groups in the order they close, so the
    outer group is the last of the list. *)
Fixpoint replaceByOuterGroup (r : regex) (s : string) {struct s} : option string :=
  match exec r s with
  | Some (caps, rest) => Some (List.last caps EmptyString ++ rest)
  | None =>
      match s with
      | EmptyString => None
      | String c s' =>
          match replaceByOuterGroup r s' with
          | Some out => Some (String c out)
          | None => None
          end
      end
  end.

(** The name of the PC image of an SP file, [None] for any other name. *)
Definition pcName (name : string) : option string :=
  if test spRegex name then
    Some (match replaceByOuterGroup spGroupRegex name with
          | Some out => out
          | None => name
          end)
  else None.

(** [scan(currentDir)]: [rel] holds the names of the directories between
    [dir] and [currentDir], so that [path.relative(dir,
    path.join(currentDir, pcName))] is these names and [pcName] joined by
    slashes. *)
Fixpoint scanEntry (rel : list string) (e : entry) {struct e} : list string :=
  match e with
  | File name =>
      match pcName name with
      | Some pc => [join "/" (rel ++ [pc])]
      | None => []
      end
  | Dir name children => List.flat_map (scanEntry (rel ++ [name])) children
  | Other _ => []
  end.

(** [findSpImages(dir)]: the elements of the set in the order they are
    added; [entries] is what [readdir(dir)] lists. *)
Definition findSpImages (entries : list entry) : list string :=
  List.flat_map (scanEntry []) entries.

End SpImages.

(** ** The script *)

Module Script.
Import JsString.
Import Regex.
Import Generators.

(** [/\/\/\s*__CONVERSION_CODE_PLACEHOLDER__/g] *)
Definition placeholderRegex : regex :=
  seqs [ lit "//"; Star true whiteSpace;
         lit "__CONVERSION_CODE_PLACEHOLDER__" ].

(** [optimizeJs] up to the call of the transpiler: the text handed to
    Babel. *)
Definition conversionSource (timePointsJson : string -> string) (js : string)
           (env : Env) : string :=
  let js1 := replaceAll placeholderRegex EmptyString js in
  trim js1 ++ LF ++ LF ++ generateConversionCode timePointsJson env.

End Script.


(** ** Notions used to state the properties *)

Module Notions.
Import JsString.
Import Regex.
Import Generators.
Import ImageRewriter.

(** Every character of [s] satisfies [p]. *)
Fixpoint allChars (p : ascii -> bool) (s : string) : bool :=
  match s with
  | EmptyString => true
  | String c s' => p c && allChars p s'
  end.

Definition isNot (c : ascii) : ascii -> bool := fun d => negb (Ascii.eqb d c).

(** [s] with every [</] turned into [<\/], read from left to right. *)
Fixpoint escapeSlashes (s : string) : string :=
  match s with
  | EmptyString => EmptyString
  | String c s' =>
      if Ascii.eqb "<" c then
        match s' with
        | EmptyString => String c EmptyString
        | String d s'' =>
            if Ascii.eqb "/" d then "<\/" ++ escapeSlashes s''
            else String c (escapeSlashes s')
        end
      else String c (escapeSlashes s')
  end.

(** The fragment of the three tags that [generateMetaTags] always
    emits, with their default values. *)
Definition defaultOgp : string :=
  lines [ "<!-- OGP -->";
          "<meta property=" ++ q "og:type" ++ " content=" ++ q "website" ++ ">";
          "<meta property=" ++ q "og:locale" ++ " content=" ++ q "ja_JP" ++ ">";
          "<meta name=" ++ q "twitter:card" ++ " content="
            ++ q "summary_large_image" ++ ">" ].

(** The path an image is served from: an absolute path or a full URL
    ([src] starts with [/] or [http]) as it is, any other path behind the
    prefix and a slash when there is a prefix.  [x] is [src] or a name
    derived from it. *)
Definition withPrefix (prefix src x : string) : string :=
  if isAbsolute src then x
  else if nonEmpty prefix then prefix ++ "/" ++ x
  else x.

Definition servedSrc (prefix src : string) : string := withPrefix prefix src src.

(** The [<source>] elements of the picture block of [src]: three for the
    SP file when the path is in the set, then two for the PC file. *)
Definition pictureSources (prefix : string) (spImages : list string)
           (src : string) : list string :=
  let ext := toLowerCase (NodePath.extname src) in
  let baseName := Regex.replace extRegex EmptyString src in
  let spBaseName := Regex.replace extGroupRegex EmptyString baseName ++ "-sp" in
  let pc := withPrefix prefix src baseName in
  let sp := withPrefix prefix src spBaseName in
  let spSources :=
    if List.existsb (String.eqb (stripSlash src)) spImages then
      [ "<source media=" ++ q "(max-width: 767px)" ++ " srcset=" ++ q (sp ++ ".avif")
          ++ " type=" ++ q "image/avif" ++ ">";
        "<source media=" ++ q "(max-width: 767px)" ++ " srcset=" ++ q (sp ++ ".webp")
          ++ " type=" ++ q "image/webp" ++ ">";
        "<source media=" ++ q "(max-width: 767px)" ++ " srcset=" ++ q (sp ++ ext)
          ++ ">" ]
    else [] in
  let pcSources :=
    [ "<source srcset=" ++ q (pc ++ ".avif") ++ " type=" ++ q "image/avif" ++ ">";
      "<source srcset=" ++ q (pc ++ ".webp") ++ " type=" ++ q "image/webp" ++ ">" ] in
  (spSources ++ pcSources)%list.

(** What stands for an [<img>] in the output: the element alone, or the
    picture block that ends with it. *)
Definition wrapImg (prefix : string) (spImages : list string) (src img : string)
  : string :=
  if isPictureExt (toLowerCase (NodePath.extname src))
  then pictureBlock (pictureSources prefix spImages src ++ [img])%list
  else img.

(** The pieces of a text that no match cuts. *)
Fixpoint lits (s : string) : list piece :=
  match s with
  | EmptyString => []
  | String c s' => Lit c :: lits s'
  end.

(** A pattern that cannot match the empty text nor at a character other
    than [<]. *)
Definition startsAtLt (r : regex) : Prop :=
  exec r EmptyString = None
  /\ forall c s, Ascii.eqb c "<" = false -> exec r (String c s) = None.

(** [src=] directly followed by a quote, in any letter case. *)
Definition quotedSrc : regex := seqs [ litI "src="; quote ].

(** A text without [<]. *)
Definition plainText (s : string) : bool := allChars (isNot "<") s.

(** An [<img>] tag as the pass expects it: the attribute text [before],
    [src=], the value between two quote characters, the attribute text
    [after], and [>]. *)
Definition imgElement (before : string) (q1 : ascii) (src : string)
           (q2 : ascii) (after : string) : string :=
  "<img" ++ before ++ "src=" ++ String q1 (src ++ String q2 (after ++ ">")).

(** The tag is simple: no [<] and no [>] inside it, a value that is not
    empty and holds no quote, and no [src=] followed by a quote after the
    opening quote of the value. *)
Definition simpleImg (before : string) (q1 : ascii) (src : string)
           (q2 : ascii) (after : string) : bool :=
  plainText before && plainText src && plainText after
  && allChars (isNot ">") before && allChars (isNot ">") src
  && allChars (isNot ">") after
  && nonEmpty src && allChars (fun c => negb (isQuote c)) src
  && isQuote q1 && isQuote q2
  && negb (test quotedSrc (src ++ String q2 after)).

(** A configuration and a page used as examples. *)
Definition seminarEnv : Env :=
  fun k =>
    if String.eqb k "SITE_TITLE" then Some "Tax seminar"
    else if String.eqb k "GA_MEASUREMENT_ID" then Some "G-TEST"
    else if String.eqb k "STRUCTURED_DATA_TYPE" then Some "Event,FAQPage"
    else None.

Definition seminarHead : string := "<html><head><title>LP</title>".

Definition seminarBody : string :=
  "<body><details><summary>When?</summary><p>In March.</p></details></body></html>".

(** A picture block written by hand, with prices in its text. *)
Definition pricedPicture : string :=
  "<picture><img src=" ++ q "hero.png" ++ " alt=" ++ q "$$$" ++ "></picture>".

(** A configuration whose description quotes a dollar sign, and a page. *)
Definition dollarEnv : Env :=
  fun k =>
    if String.eqb k "SITE_DESCRIPTION" then Some ("Prices in " ++ q "$")
    else if String.eqb k "GA_MEASUREMENT_ID" then Some "G-TEST"
    else None.

Definition plainPage : string := "<head><title>t</title></head><body></body>".

End Notions.


(** ** Notions used to state the further properties *)

Module TextNotions.
Import JsString.
Import Regex.
Import Generators.
Import ImageRewriter.
Import Notions.

(** The entity that stands for a character in HTML text, the character
    itself when it needs none. *)
Definition escapeChar (c : ascii) : string :=
  if Ascii.eqb c "&" then "&amp;"
  else if Ascii.eqb c "<" then "&lt;"
  else if Ascii.eqb c ">" then "&gt;"
  else if Ascii.eqb c dqChar then "&quot;"
  else if Ascii.eqb c "'" then "&#039;"
  else String c EmptyString.

Fixpoint escapeChars (s : string) : string :=
  match s with
  | EmptyString => EmptyString
  | String c s' => escapeChar c ++ escapeChars s'
  end.

(** Every occurrence of the character [c] gives way to [repl]. *)
Fixpoint substChar (c : ascii) (repl : string) (s : string) : string :=
  match s with
  | EmptyString => EmptyString
  | String d s' =>
      (if Ascii.eqb c d then repl else String d EmptyString)
        ++ substChar c repl s'
  end.

(** A character that cannot end an attribute value or open a tag. *)
Definition isMarkup (c : ascii) : bool :=
  Ascii.eqb c "<" || Ascii.eqb c ">" || Ascii.eqb c dqChar || Ascii.eqb c "'".

Definition markupFree (s : string) : bool := allChars (fun c => negb (isMarkup c)) s.

End TextNotions.

Module GeneratorNotions.
Import JsString.
Import Regex.
Import Generators.
Import Notions.

(** A text without a double quote. *)
Definition quoteFree (s : string) : bool := allChars (isNot dqChar) s.

(** A [<meta>] element whose two attribute values are closed by the
    quotes the template writes. *)
Inductive metaTag : string -> Prop :=
| MetaProperty (name content : string) :
    quoteFree name = true -> quoteFree content = true ->
    metaTag (metaProperty name content)
| MetaName (name content : string) :
    quoteFree name = true -> quoteFree content = true ->
    metaTag (metaName name content).

End GeneratorNotions.

Module MatchNotions.
Import JsString.
Import Regex.

(** A pattern without a star, and the longest text such a pattern can
    read. *)
Fixpoint starFree (r : regex) : bool :=
  match r with
  | Eps | Eoi | Cls _ => true
  | Seq a b | Alt a b => starFree a && starFree b
  | Star _ _ => false
  | Grp a => starFree a
  end.

Fixpoint maxLen (r : regex) : nat :=
  match r with
  | Eps | Eoi => 0
  | Cls _ => 1
  | Seq a b => maxLen a + maxLen b
  | Alt a b => Nat.max (maxLen a) (maxLen b)
  | Star _ _ => 0
  | Grp a => maxLen a
  end.

End MatchNotions.

Module TreeNotions.
Import JsString.
Import SpImages.

(** [fileAt entries ds name]: below [entries], the directories [ds] lead
    to a regular file [name]. *)
Inductive fileAt : list entry -> list string -> string -> Prop :=
| FileHere (entries : list entry) (name : string) :
    In (File name) entries -> fileAt entries [] name
| FileBelow (entries : list entry) (d : string) (children : list entry)
            (ds : list string) (name : string) :
    In (Dir d children) entries -> fileAt children ds name ->
    fileAt entries (d :: ds) name.

End TreeNotions.

Module PathNotions.
Import JsString.
Import ImageRewriter.

(** A character of a name: neither a slash nor a dot. *)
Definition isNameChar (c : ascii) : bool :=
  negb (Ascii.eqb c "/") && negb (Ascii.eqb c ".").

(** The text ends with one of the three image extensions, letter case
    apart. *)
Definition endsWithPictureExt (s : string) : bool :=
  List.existsb (endsWith (toLowerCase s)) [".png"; ".jpg"; ".jpeg"].

End PathNotions.

Module BuildNotions.
Import JsString.

(** No proper suffix of [pat] starts [pat]: two occurrences of [pat]
    cannot overlap. *)
Definition unbordered (pat : string) : bool :=
  List.forallb (fun j => negb (startsWith pat (drop j pat)))
               (List.seq 1 (String.length pat - 1)).

End BuildNotions.

Module FaqNotions.
Import JsString.
Import Generators.

(** The text of a question and its answer: a [summary] element, anything
    without [<p], and an element whose name starts with [p]. *)
Definition faqElement (sattrs question mid pattrs answer : string) : string :=
  "<summary" ++ sattrs ++ ">" ++ question ++ "</summary>" ++ mid
    ++ "<p" ++ pattrs ++ ">" ++ answer ++ "</p>".

(** The entry of [mainEntity] for a question and its answer. *)
Definition faqQuestion (question answer : string) : json :=
  JObj [ ("@type", JStr "Question");
         ("name", JStr question);
         ("acceptedAnswer",
          JObj [ ("@type", JStr "Answer"); ("text", JStr answer) ]) ].

End FaqNotions.

Module DocumentNotions.
Import JsString.
Import Regex.
Import Generators.
Import ImageRewriter.
Import Notions.

(** No occurrence of [pat] can start in a text that ends like [a] and
    end after it; none can start before a text that starts like [b] and
    end in it. *)
Definition noStraddleL (a pat : string) : bool :=
  List.forallb (fun i => negb (endsWith a (take i pat)))
               (List.seq 1 (String.length pat - 1)).

Definition noStraddleR (b pat : string) : bool :=
  List.forallb (fun i => negb (startsWith b (drop i pat)))
               (List.seq 1 (String.length pat - 1)).

(** A text that holds neither [<img] nor [<picture], letter case apart. *)
Definition tagFree (s : string) : bool :=
  negb (includes (toLowerCase s) "<img")
  && negb (includes (toLowerCase s) "<picture").

(** The parts of an [<img>] tag. *)
Record ImgTag : Type := mkImgTag {
  tagBefore : string;
  tagOpen : ascii;
  tagSrc : string;
  tagClose : ascii;
  tagAfter : string
}.

Definition tagText (t : ImgTag) : string :=
  imgElement (tagBefore t) (tagOpen t) (tagSrc t) (tagClose t) (tagAfter t).

Definition simpleTag (t : ImgTag) : bool :=
  simpleImg (tagBefore t) (tagOpen t) (tagSrc t) (tagClose t) (tagAfter t).

(** A document: texts without image tags, each followed by a tag, and a
    last text. *)
Fixpoint document (items : list (string * ImgTag)) (tail : string) : string :=
  match items with
  | [] => tail
  | (text, tag) :: rest => text ++ tagText tag ++ document rest tail
  end.

(** The same document with, in place of each tag, what the callback
    writes for it; [k] is the rank of the first tag. *)
Fixpoint rewritten (dimensions : Dimensions) (prefix : string)
         (spImages : list string) (k : nat) (items : list (string * ImgTag))
         (tail : string) : string :=
  match items with
  | [] => tail
  | (text, tag) :: rest =>
      text
        ++ rewriteImg dimensions prefix spImages k
                      (tagBefore tag) (tagSrc tag) (tagAfter tag)
        ++ rewritten dimensions prefix spImages (S k) rest tail
  end.

(** The pieces of such a document for the [<img>] pattern. *)
Fixpoint tagPieces (items : list (string * ImgTag)) (tail : string) : list piece :=
  match items with
  | [] => lits tail
  | (text, tag) :: rest =>
      (lits text
         ++ Hit (tagText tag) [tagBefore tag; tagSrc tag; tagAfter tag]
         :: tagPieces rest tail)%list
  end.

(** A character of an identifier: a letter, a digit, [-] or [_]. *)
Definition isIdChar (c : ascii) : bool :=
  let n := nat_of_ascii c in
  (Nat.leb 48 n && Nat.leb n 57) || (Nat.leb 65 n && Nat.leb n 90)
  || (Nat.leb 97 n && Nat.leb n 122) || Nat.eqb n 45 || Nat.eqb n 95.

(** The [<img>] element of the Meta Pixel snippet, and the snippet around
    it. *)
Definition pixelTag (id : string) : ImgTag :=
  mkImgTag (" height=" ++ q "1" ++ " width=" ++ q "1" ++ " style="
              ++ q "display:none" ++ " ")
           dqChar
           ("https://www.facebook.com/tr?id=" ++ id ++ "&ev=PageView&noscript=1")
           dqChar "/".

Definition pixelHeadA : string :=
  lines
    [ EmptyString;
      "<!-- Meta Pixel -->";
      "<script>";
      "  !function(f,b,e,v,n,t,s){if(f.fbq)return;n=f.fbq=function(){n.callMethod?";
      "  n.callMethod.apply(n,arguments):n.queue.push(arguments)};if(!f._fbq)f._fbq=n;";
      "  n.push=n;n.loaded=!0;n.version='2.0';n.queue=[];t=b.createElement(e);t.async=!0;";
      "  t.src=v;s=b.getElementsByTagName(e)[0];s.parentNode.insertBefore(t,s)}(window,";
      "  document,'script','https://connect.facebook.net/en_US/fbevents.js');";
      "  fbq('init', '" ].

Definition pixelHeadB : string :=
  lines [ "');"; "  fbq('track', 'PageView');"; "</script>"; "<noscript>" ].

Definition pixelHead (id : string) : string := pixelHeadA ++ id ++ pixelHeadB.

End DocumentNotions.


Module PageNotions.
Import JsString.
Import Regex.
Import Generators.
Import ImageRewriter.
Import Notions.
Import DocumentNotions.

(** An [<img>] tag of a page: [Quoted t] has the value of its [src]
    between quotes; [Bare opener attrs] is the text [opener ++ attrs ++ ">"]
    of a tag that has not. *)
Inductive element : Type :=
| Quoted (t : ImgTag)
| Bare (opener attrs : string).

Definition elementText (e : element) : string :=
  match e with
  | Quoted t => tagText t
  | Bare opener attrs => opener ++ attrs ++ ">"
  end.

(** A bare tag: [<img] in any letter case, then an attribute text without
    [<] and [>] in which no [src=] is directly followed by a quote. *)
Definition bareTag (opener attrs : string) : bool :=
  String.eqb (toLowerCase opener) "<img"
  && plainText attrs && allChars (isNot ">") attrs
  && negb (test quotedSrc attrs).

Definition wellFormed (e : element) : bool :=
  match e with
  | Quoted t => simpleTag t
  | Bare opener attrs => bareTag opener attrs
  end.

(** A page: texts, each followed by a tag, and a last text. *)
Fixpoint page (items : list (string * element)) (tail : string) : string :=
  match items with
  | [] => tail
  | (text, e) :: rest => text ++ elementText e ++ page rest tail
  end.

(** The page once processed: [shown k t] stands in the place of the
    quoted tag [t], the [k]-th of the quoted tags; a bare tag stays as it
    is and is not counted. *)
Fixpoint processed (shown : nat -> ImgTag -> string) (k : nat)
         (items : list (string * element)) (tail : string) : string :=
  match items with
  | [] => tail
  | (text, Quoted t) :: rest =>
      text ++ shown k t ++ processed shown (S k) rest tail
  | (text, Bare opener attrs) :: rest =>
      text ++ opener ++ attrs ++ ">" ++ processed shown k rest tail
  end.

(** What may stand in front of the tags: nothing, or a text and a picture
    block written by hand.  The text holds no image tag and not the text
    that the pass puts in the place of the block while it works; the body
    of the block holds no closing tag and no [$] (it may hold [<img>]
    tags). *)
Inductive front : string -> Prop :=
| NoPicture : front EmptyString
| PictureFirst (pre body : string) :
    tagFree pre = true ->
    includes pre "__PICTURE_PLACEHOLDER_0" = false ->
    includes body "</" = false ->
    includes body "$" = false ->
    front (pre ++ "<picture" ++ body ++ "</picture>").

(** The pieces of a page for the [<img>] pattern. *)
Fixpoint pagePieces (items : list (string * element)) (tail : string)
  : list piece :=
  match items with
  | [] => lits tail
  | (text, Quoted t) :: rest =>
      (lits text
         ++ Hit (tagText t) [tagBefore t; tagSrc t; tagAfter t]
         :: pagePieces rest tail)%list
  | (text, Bare opener attrs) :: rest =>
      (lits text ++ lits (opener ++ attrs ++ ">") ++ pagePieces rest tail)%list
  end.

(** A page with the text [x] in front of it. *)
Definition leadIn (x : string) (items : list (string * element)) (tail : string)
  : list (string * element) * string :=
  match items with
  | [] => ([], x ++ tail)
  | (text, e) :: rest => ((x ++ text, e) :: rest, tail)
  end.




(** A tag for which every element is a bare tag. *)
Definition isBare (e : element) : bool :=
  match e with
  | Quoted _ => false
  | Bare _ _ => true
  end.

End PageNotions.


Module SpaceNotions.
Import JsString.
Import Notions.

(** No text of the list starts another. *)
Fixpoint prefixFree (ws : list string) : bool :=
  match ws with
  | [] => true
  | w :: ws' =>
      List.forallb (fun x => negb (startsWith w x) && negb (startsWith x w)) ws'
      && prefixFree ws'
  end.

(** An element that belongs to no white space character. *)
Definition plainChar (c : ascii) : bool :=
  List.forallb (allChars (isNot c)) spaces.

(** An element that starts no white space character, and the table
    checked: inside a white space character every element is such. *)
Definition startsNoSpace (c : ascii) : bool :=
  List.forallb (fun w => negb (startsWith w (String c EmptyString))) spaces.

Definition innerElements (w : string) : bool :=
  List.forallb (fun i => match drop i w with
                         | String c _ => startsNoSpace c
                         | EmptyString => true
                         end)
               (List.seq 1 (String.length w - 1)).

End SpaceNotions.


(** * Properties *)

#[local] Arguments Ascii.eqb : simpl never.

(** ** Facts on strings *)

Module StringFacts.
Import JsString.
Import Notions.

Lemma append_nil_r (s : string) : s ++ EmptyString = s.
Proof. induction s as [|c s IH]; simpl; [reflexivity | now rewrite IH]. Qed.

Lemma append_assoc (a b c : string) : (a ++ b) ++ c = a ++ (b ++ c).
Proof. induction a as [|x a IH]; simpl; [reflexivity | now rewrite IH]. Qed.

Lemma length_append (a b : string) :
  String.length (a ++ b) = String.length a + String.length b.
Proof. induction a as [|x a IH]; simpl; [reflexivity | now rewrite IH]. Qed.

Lemma allChars_app (p : ascii -> bool) (a b : string) :
  allChars p (a ++ b) = allChars p a && allChars p b.
Proof.
  induction a as [|x a IH]; simpl; [reflexivity|].
  now rewrite IH, andb_assoc.
Qed.

Lemma startsWith_self_app (p s : string) : startsWith (p ++ s) p = true.
Proof.
  induction p as [|c p IH]; simpl; [reflexivity|].
  now rewrite Ascii.eqb_refl, IH.
Qed.

Lemma drop_length_app (p s : string) : drop (String.length p) (p ++ s) = s.
Proof. induction p as [|c p IH]; simpl; [reflexivity | exact IH]. Qed.

Lemma take_length_app (p s : string) : take (String.length p) (p ++ s) = p.
Proof. induction p as [|c p IH]; simpl; [reflexivity | now rewrite IH]. Qed.

Lemma startsWith_app_l (a b p : string) :
  startsWith a p = true -> startsWith (a ++ b) p = true.
Proof.
  revert a; induction p as [|c p IH]; intros a H; simpl; [reflexivity|].
  destruct a as [|x a]; simpl in *; [discriminate|].
  apply andb_true_iff in H as [H1 H2].
  now rewrite H1, (IH _ H2).
Qed.

(** A pattern that starts in [y] and ends after it. *)
Lemma startsWith_straddle (pat y z : string) :
  startsWith (y ++ z) pat = true ->
  startsWith y pat = false ->
  exists v, v <> EmptyString /\ startsWith z v = true /\ pat = y ++ v.
Proof.
  revert y; induction pat as [|c pat IH]; intros y H1 H2.
  - destruct y; discriminate.
  - destruct y as [|x y].
    + exists (String c pat); repeat split; [discriminate | exact H1].
    + simpl in H1, H2. apply andb_true_iff in H1 as [Hc H1].
      rewrite Hc in H2; simpl in H2.
      destruct (IH y H1 H2) as (v & Hv & Hz & ->).
      exists v; repeat split; try assumption.
      apply Ascii.eqb_eq in Hc; now subst.
Qed.

Lemma includes_app_l (a b p : string) :
  includes (a ++ b) p = false -> includes a p = false.
Proof.
  induction a as [|x a IH]; simpl; intro H.
  - destruct p; [destruct b; discriminate | reflexivity].
  - apply orb_false_iff in H as [H1 H2].
    apply orb_false_iff; split; [|now apply IH].
    destruct (startsWith (String x a) p) eqn:E; [|reflexivity].
    pose proof (startsWith_app_l (String x a) b p E) as E'.
    simpl in E'. congruence.
Qed.

Lemma includes_cons (c : ascii) (s p : string) :
  includes (String c s) p = startsWith (String c s) p || includes s p.
Proof. reflexivity. Qed.

(** The first character of [b] does not occur in the tail of the
    pattern: no occurrence can start in [a] and end in [b]. *)
Lemma includes_app_fresh (c0 b0 : ascii) (pt a b : string) :
  allChars (isNot b0) pt = true ->
  includes a (String c0 pt) = false ->
  includes (String b0 b) (String c0 pt) = false ->
  includes (a ++ String b0 b) (String c0 pt) = false.
Proof.
  intros Hfresh Ha Hb.
  induction a as [|x a IH]; [exact Hb|].
  rewrite includes_cons in Ha. apply orb_false_iff in Ha as [Ha1 Ha2].
  change (String x a ++ String b0 b) with (String x (a ++ String b0 b)).
  rewrite includes_cons. apply orb_false_iff; split; [|now apply IH].
  destruct (startsWith (String x (a ++ String b0 b)) (String c0 pt)) eqn:E;
    [|reflexivity].
  exfalso.
  destruct (startsWith_straddle (String c0 pt) (String x a) (String b0 b) E Ha1)
    as (v & Hv & Hz & Heq).
  destruct v as [|v0 v]; [now apply Hv|].
  simpl in Hz. apply andb_true_iff in Hz as [Hz _].
  apply Ascii.eqb_eq in Hz; subst v0.
  simpl in Heq. injection Heq as _ Hpt. subst pt.
  rewrite allChars_app in Hfresh. simpl in Hfresh.
  unfold isNot in Hfresh at 2. rewrite Ascii.eqb_refl in Hfresh.
  simpl in Hfresh. now rewrite andb_false_r in Hfresh.
Qed.

(** The first occurrence of a pattern whose first character does not
    occur again in it. *)
Lemma splitFirst_fresh (c0 : ascii) (pt x post : string) :
  allChars (isNot c0) pt = true ->
  includes x (String c0 pt) = false ->
  splitFirst (String c0 pt) (x ++ String c0 pt ++ post) = Some (x, post).
Proof.
  intros Hfresh Hx.
  induction x as [|y x IH].
  - cbn [append splitFirst].
    change (String c0 (pt ++ post)) with (String c0 pt ++ post).
    now rewrite startsWith_self_app, drop_length_app.
  - rewrite includes_cons in Hx. apply orb_false_iff in Hx as [Hx1 Hx2].
    change (String y x ++ String c0 pt ++ post)
      with (String y (x ++ String c0 pt ++ post)).
    cbn [splitFirst].
    destruct (startsWith (String y (x ++ String c0 pt ++ post)) (String c0 pt))
      eqn:E.
    + exfalso.
      destruct (startsWith_straddle (String c0 pt) (String y x)
                  (String c0 pt ++ post) E Hx1) as (v & Hv & Hz & Heq).
      destruct v as [|v0 v]; [now apply Hv|].
      simpl in Hz. apply andb_true_iff in Hz as [Hz _].
      apply Ascii.eqb_eq in Hz; subst v0.
      simpl in Heq. injection Heq as _ Hpt. subst pt.
      rewrite allChars_app in Hfresh. simpl in Hfresh.
      unfold isNot in Hfresh at 2. rewrite Ascii.eqb_refl in Hfresh.
      simpl in Hfresh. now rewrite andb_false_r in Hfresh.
    + now rewrite (IH Hx2).
Qed.

Lemma splitFirst_none (pat s : string) :
  includes s pat = false -> splitFirst pat s = None.
Proof.
  induction s as [|c s IH]; simpl; intro H.
  - now rewrite orb_false_r in H; rewrite H.
  - apply orb_false_iff in H as [H1 H2].
    change (startsWith (String c s) pat = false) in H1.
    destruct pat as [|p0 pat]; [discriminate|].
    simpl in H1 |- *. rewrite H1. now rewrite (IH H2).
Qed.

Lemma includes_char_app (c : ascii) (a b : string) :
  includes (a ++ b) (String c EmptyString)
  = includes a (String c EmptyString) || includes b (String c EmptyString).
Proof.
  induction a as [|x a IH].
  - simpl. reflexivity.
  - change (String x a ++ b) with (String x (a ++ b)).
    rewrite !includes_cons, IH. simpl.
    now rewrite !andb_true_r, orb_assoc.
Qed.

(** A replacement string without a dollar is taken as it is. *)
Lemma getSubstitution_plain (m b a repl : string) :
  includes repl "$" = false -> getSubstitution m b a repl = repl.
Proof.
  induction repl as [|c r IH]; [reflexivity|].
  rewrite includes_cons. intro H. apply orb_false_iff in H as [H1 H2].
  simpl in H1. rewrite andb_true_r in H1.
  rewrite Ascii.eqb_sym in H1.
  cbn [getSubstitution]. rewrite H1. now rewrite (IH H2).
Qed.

Lemma startsWith_prefix (s p r : string) :
  startsWith s (p ++ r) = true -> startsWith s p = true.
Proof.
  revert s; induction p as [|c p IH]; intros s H; [reflexivity|].
  destruct s as [|d s]; simpl in *; [discriminate|].
  apply andb_true_iff in H as [H1 H2]. now rewrite H1, (IH _ H2).
Qed.

(** A text without [p] has no longer pattern that starts with [p]. *)
Lemma includes_longer (s p r : string) :
  includes s p = false -> includes s (p ++ r) = false.
Proof.
  induction s as [|c s IH]; simpl; intro H.
  - rewrite orb_false_r in H |- *.
    destruct (startsWith EmptyString (p ++ r)) eqn:E; [|reflexivity].
    now rewrite (startsWith_prefix _ _ _ E) in H.
  - apply orb_false_iff in H as [H1 H2].
    apply orb_false_iff; split; [|now apply IH].
    change (startsWith (String c s) p = false) in H1.
    destruct (startsWith (String c s) (p ++ r)) eqn:E; [|reflexivity].
    now rewrite (startsWith_prefix _ _ _ E) in H1.
Qed.

End StringFacts.


(** ** Facts on the matcher *)

Module RegexFacts.
Import JsString.
Import Regex.
Import Notions.
Import StringFacts.

Lemma scanFrom_skip (r : regex) (n : nat) (c : ascii) (s : string) :
  scanFrom r (S n) (String c s) = scanFrom r n s.
Proof. reflexivity. Qed.

Lemma scanFrom_miss (r : regex) (c : ascii) (s : string) :
  exec r (String c s) = None ->
  scanFrom r 0 (String c s) = Lit c :: scanFrom r 0 s.
Proof. intro H. cbn [scanFrom]. now rewrite H. Qed.

Lemma scanFrom_hit (r : regex) (c : ascii) (s rest : string)
      (caps : list string) (n : nat) :
  exec r (String c s) = Some (caps, rest) ->
  String.length (String c s) - String.length rest = S n ->
  scanFrom r 0 (String c s)
  = Hit (consumed (String c s) rest) caps :: scanFrom r n s.
Proof. intros H L. cbn [scanFrom]. now rewrite H, L. Qed.

(** [/<\//] at the start of a text. *)
Lemma exec_closeTag (c d : ascii) (s : string) :
  exec (lit "</") (String c (String d s))
  = if Ascii.eqb "<" c then if Ascii.eqb "/" d then Some ([], s) else None
    else None.
Proof. reflexivity. Qed.

Lemma exec_closeTag_short (c : ascii) :
  exec (lit "</") (String c EmptyString) = None.
Proof. unfold exec; cbn. now destruct (Ascii.eqb "<" c). Qed.

(** The global replacement of [escapeJsonLd] is the left-to-right
    rewriting [escapeSlashes]. *)
Lemma replace_closeTag_bounded (n : nat) :
  forall s before,
    String.length s <= n ->
    substAll "<\/" before (scanFrom (lit "</") 0 s) s = escapeSlashes s.
Proof.
  induction n as [|n IH]; intros s before L.
  - destruct s; [reflexivity | simpl in L; lia].
  - destruct s as [|c s]; [reflexivity|].
    destruct s as [|d s].
    + rewrite scanFrom_miss by apply exec_closeTag_short.
      cbn. now destruct (Ascii.eqb "<" c).
    + simpl in L.
      pose proof (exec_closeTag c d s) as E.
      cbn [escapeSlashes].
      destruct (Ascii.eqb "<" c) eqn:Hc.
      * destruct (Ascii.eqb "/" d) eqn:Hd.
        -- rewrite (scanFrom_hit _ _ _ s [] 1 E) by (cbn [String.length]; lia).
           rewrite scanFrom_skip.
           cbn [substAll].
           assert (Hm : consumed (String c (String d s)) s = String c (String d EmptyString)).
           { unfold consumed.
             replace (String.length (String c (String d s)) - String.length s)
               with 2 by (cbn [String.length]; lia).
             reflexivity. }
           rewrite Hm. cbn [String.length drop].
           rewrite getSubstitution_plain by reflexivity.
           rewrite IH by lia. reflexivity.
        -- rewrite (scanFrom_miss _ _ _ E). cbn [substAll drop].
           rewrite IH by (simpl; lia). reflexivity.
      * rewrite (scanFrom_miss _ _ _ E). cbn [substAll drop].
        rewrite IH by (simpl; lia). reflexivity.
Qed.

Lemma replace_closeTag (s : string) :
  replaceAll (lit "</") "<\/" s = escapeSlashes s.
Proof.
  unfold replaceAll, scan.
  now apply (replace_closeTag_bounded (String.length s)).
Qed.

(** The rewriting keeps the first character. *)
Lemma escapeSlashes_head (c : ascii) (s : string) :
  exists t, escapeSlashes (String c s) = String c t.
Proof.
  cbn [escapeSlashes].
  destruct (Ascii.eqb "<" c) eqn:Hc; [|eauto].
  apply Ascii.eqb_eq in Hc; subst c.
  destruct s as [|d s]; [eauto|].
  destruct (Ascii.eqb "/" d); cbn; eauto.
Qed.

Lemma escapeSlashes_clean_bounded (n : nat) :
  forall s, String.length s <= n -> includes (escapeSlashes s) "</" = false.
Proof.
  induction n as [|n IH]; intros s L.
  - destruct s; [reflexivity | simpl in L; lia].
  - destruct s as [|c s]; [reflexivity|].
    simpl in L.
    cbn [escapeSlashes].
    destruct (Ascii.eqb "<" c) eqn:Hc.
    + apply Ascii.eqb_eq in Hc; subst c.
      destruct s as [|d s]; [reflexivity|].
      simpl in L.
      destruct (Ascii.eqb "/" d) eqn:Hd.
      * cbn [append]. rewrite !includes_cons.
        rewrite (IH s) by lia. reflexivity.
      * rewrite includes_cons. rewrite (IH (String d s)) by (simpl; lia).
        destruct (escapeSlashes_head d s) as [t ->].
        cbn [startsWith]. rewrite Hd. reflexivity.
    + rewrite includes_cons. rewrite (IH s) by lia.
      cbn [startsWith]. rewrite Hc. reflexivity.
Qed.

Lemma escapeSlashes_clean (s : string) :
  includes (escapeSlashes s) "</" = false.
Proof. now apply (escapeSlashes_clean_bounded (String.length s)). Qed.

End RegexFacts.


(** ** The tag generators *)

Module GeneratorFacts.
Import JsString.
Import Regex.
Import Generators.
Import Notions.
Import StringFacts.
Import RegexFacts.

Lemma escapeJsonLd_spec (data : json) :
  escapeJsonLd data = escapeSlashes (stringify data).
Proof. unfold escapeJsonLd. apply replace_closeTag. Qed.

Lemma escapeJsonLd_clean (data : json) :
  includes (escapeJsonLd data) "</" = false.
Proof. rewrite escapeJsonLd_spec. apply escapeSlashes_clean. Qed.

(** A type name that is no schema type gives no data. *)
Lemma undefined_type_skipped (env : Env) (html : string) :
  generateSingleStructuredData "undefined" env html = None.
Proof. reflexivity. Qed.

Lemma generateStructuredData_payloads (env : Env) (html : string) :
  generateStructuredData env html
  = join LF (List.map ldJsonScript (structuredDataPayloads env html)).
Proof.
  unfold generateStructuredData, structuredDataPayloads.
  destruct (env "STRUCTURED_DATA_TYPE") as [[|c s]|] eqn:E; cbn [truthy negb show].
  - reflexivity.
  - destruct (structuredDataTypes (String c s)) as [|ty tys]; reflexivity.
  - reflexivity.
Qed.

Lemma payloads_clean (env : Env) (html : string) (types : list string) :
  Forall (fun payload =>
            (exists data, payload = escapeSlashes (stringify data))
            /\ includes payload "</" = false)
         (List.flat_map
            (fun type =>
               match generateSingleStructuredData type env html with
               | Some data => [escapeJsonLd data]
               | None => []
               end) types).
Proof.
  induction types as [|ty tys IH]; cbn [List.flat_map]; [constructor|].
  apply Forall_app; split; [|exact IH].
  destruct (generateSingleStructuredData ty env html) as [data|];
    [|constructor].
  constructor; [|constructor].
  split; [exists data; apply escapeJsonLd_spec | apply escapeJsonLd_clean].
Qed.

Lemma generateMetaTags_defaults (env : Env) :
  (forall k, truthy (env k) = false) -> generateMetaTags env = defaultOgp.
Proof.
  intro H. unfold generateMetaTags, orDefault.
  rewrite !H. reflexivity.
Qed.

Lemma generateAnalyticsTags_silent (env : Env) :
  (forall k, truthy (env k) = false) -> generateAnalyticsTags env = EmptyString.
Proof.
  intro H. unfold generateAnalyticsTags. rewrite !H. reflexivity.
Qed.

End GeneratorFacts.


(** ** Injection before the closing head tag *)

Module BuildFacts.
Import JsString.
Import Regex.
Import Generators.
Import ImageRewriter.
Import Build.
Import Notions.
Import StringFacts.

Lemma headClose_dollar_free (fragment : string) :
  includes fragment "$" = false ->
  includes (fragment ++ LF ++ headClose) "$" = false.
Proof.
  intro H. rewrite includes_char_app, H. reflexivity.
Qed.

(** The fragment and a line break go in front of the first [</head>]. *)
Lemma injectBeforeHead_first (fragment x post : string) :
  includes x "</head>" = false ->
  includes fragment "$" = false ->
  injectBeforeHead fragment (x ++ "</head>" ++ post)
  = x ++ fragment ++ LF ++ "</head>" ++ post.
Proof.
  intros Hx Hf. unfold injectBeforeHead, JsString.replace, headClose.
  rewrite (splitFirst_fresh "<" "/head>" x post eq_refl Hx).
  rewrite getSubstitution_plain by (apply (headClose_dollar_free _ Hf)).
  now rewrite !append_assoc.
Qed.

Lemma injectBeforeHead_absent (fragment html : string) :
  includes html "</head>" = false -> injectBeforeHead fragment html = html.
Proof.
  intro H. unfold injectBeforeHead, JsString.replace, headClose.
  now rewrite (splitFirst_none _ _ H).
Qed.

Lemma includes_dollar_parts (a b c d : string) :
  includes (a ++ b ++ c ++ d) "$" = false ->
  includes a "$" = false /\ includes b "$" = false
  /\ includes c "$" = false /\ includes d "$" = false.
Proof.
  rewrite !includes_char_app. intro H.
  apply orb_false_iff in H as [Ha H].
  apply orb_false_iff in H as [Hb H].
  apply orb_false_iff in H as [Hc Hd].
  now repeat split.
Qed.

(** The layout of the head after the four injections. *)
Lemma injection_layout (env : Env) (faviconTags pre post : string) :
  let metaTags := generateMetaTags env in
  let analyticsTags := generateAnalyticsTags env in
  let faviconLine :=
    if nonEmpty faviconTags then faviconTags ++ LF else EmptyString in
  let html3 :=
    pre ++ metaTags ++ LF ++ analyticsTags ++ LF ++ faviconLine
        ++ "</head>" ++ post in
  let structuredData := generateStructuredData env html3 in
  let structuredLine :=
    if nonEmpty structuredData then structuredData ++ LF else EmptyString in
  includes (pre ++ metaTags ++ LF ++ analyticsTags ++ LF ++ faviconLine
                ++ structuredLine) "</head>" = false ->
  includes (metaTags ++ analyticsTags ++ faviconTags ++ structuredData) "$"
  = false ->
  injectHeadTags env faviconTags (pre ++ "</head>" ++ post) = html3
  /\ injectFragments env faviconTags (pre ++ "</head>" ++ post)
     = pre ++ metaTags ++ LF ++ analyticsTags ++ LF ++ faviconLine
           ++ structuredLine ++ "</head>" ++ post.
Proof.
  intros metaTags analyticsTags faviconLine html3 structuredData
         structuredLine Hclean Hdollar.
  destruct (includes_dollar_parts _ _ _ _ Hdollar) as (Dm & Da & Df & Ds).
  assert (H1 : includes pre "</head>" = false).
  { exact (includes_app_l _ _ _ Hclean). }
  assert (H2 : includes (pre ++ metaTags ++ LF) "</head>" = false).
  { apply (includes_app_l _ (analyticsTags ++ LF ++ faviconLine ++ structuredLine)).
    now rewrite !append_assoc. }
  assert (H3 : includes (pre ++ metaTags ++ LF ++ analyticsTags ++ LF) "</head>"
               = false).
  { apply (includes_app_l _ (faviconLine ++ structuredLine)).
    now rewrite !append_assoc. }
  assert (H4 : includes (pre ++ metaTags ++ LF ++ analyticsTags ++ LF ++ faviconLine)
                        "</head>" = false).
  { apply (includes_app_l _ structuredLine). now rewrite !append_assoc. }
  assert (E3 : injectHeadTags env faviconTags (pre ++ "</head>" ++ post) = html3).
  { unfold injectHeadTags.
    fold metaTags analyticsTags.
    rewrite (injectBeforeHead_first metaTags pre post H1 Dm).
    replace (pre ++ metaTags ++ LF ++ "</head>" ++ post)
      with ((pre ++ metaTags ++ LF) ++ "</head>" ++ post)
      by (now rewrite !append_assoc).
    rewrite (injectBeforeHead_first analyticsTags _ post H2 Da).
    subst html3 faviconLine.
    destruct (nonEmpty faviconTags) eqn:Ef.
    - replace ((pre ++ metaTags ++ LF) ++ analyticsTags ++ LF ++ "</head>" ++ post)
        with ((pre ++ metaTags ++ LF ++ analyticsTags ++ LF) ++ "</head>" ++ post)
        by (now rewrite !append_assoc).
      rewrite (injectBeforeHead_first faviconTags _ post H3 Df).
      now rewrite !append_assoc.
    - now rewrite !append_assoc. }
  split; [exact E3|].
  unfold injectFragments. rewrite E3. fold structuredData.
  subst structuredLine.
  destruct (nonEmpty structuredData) eqn:Es.
  - subst html3.
    replace (pre ++ metaTags ++ LF ++ analyticsTags ++ LF ++ faviconLine
                 ++ "</head>" ++ post)
      with ((pre ++ metaTags ++ LF ++ analyticsTags ++ LF ++ faviconLine)
              ++ "</head>" ++ post)
      by (now rewrite !append_assoc).
    rewrite (injectBeforeHead_first structuredData _ post H4 Ds).
    now rewrite !append_assoc.
  - reflexivity.
Qed.

End BuildFacts.


(** * The claims on the generators and on the assembly *)

Section GeneratorClaims.
Import JsString.
Import Regex.
Import Generators.
Import ImageRewriter.
Import Build.
Import Notions.
Import StringFacts.
Import RegexFacts.
Import GeneratorFacts.
Import BuildFacts.

(** C9.  For a configuration with no usable value (the empty map is one),
    [generateMetaTags] returns a fragment that is not empty: the comment
    line and exactly three tags, [og:type] with [website], [og:locale]
    with [ja_JP] and [twitter:card] with [summary_large_image]. *)
Theorem meta_defaults_for_empty_config (env : Env) :
  (forall k, truthy (env k) = false) ->
  generateMetaTags env
  = "<!-- OGP -->" ++ LF
    ++ "<meta property=" ++ q "og:type" ++ " content=" ++ q "website" ++ ">" ++ LF
    ++ "<meta property=" ++ q "og:locale" ++ " content=" ++ q "ja_JP" ++ ">" ++ LF
    ++ "<meta name=" ++ q "twitter:card" ++ " content="
    ++ q "summary_large_image" ++ ">"
  /\ nonEmpty (generateMetaTags env) = true.
Proof.
  intro H. rewrite (generateMetaTags_defaults env H). split; reflexivity.
Qed.

Lemma meta_defaults_witness :
  (forall k, truthy (emptyEnv k) = false)
  /\ generateMetaTags emptyEnv
     = "<!-- OGP -->" ++ LF
       ++ "<meta property=" ++ q "og:type" ++ " content=" ++ q "website" ++ ">" ++ LF
       ++ "<meta property=" ++ q "og:locale" ++ " content=" ++ q "ja_JP" ++ ">" ++ LF
       ++ "<meta name=" ++ q "twitter:card" ++ " content="
       ++ q "summary_large_image" ++ ">".
Proof.
  split.
  - intro k. reflexivity.
  - exact (proj1 (meta_defaults_for_empty_config emptyEnv (fun k => eq_refl))).
Defined.

(** C6.  Whatever the configuration and the document, the output of
    [generateStructuredData] is made of the script elements of its
    payloads, and each payload is the serialized object with every [</]
    rewritten to [<\/]: no payload contains [</], hence none contains
    [</script]. *)
Theorem json_ld_payload_escaped (env : Env) (html : string) :
  generateStructuredData env html
  = join LF (List.map ldJsonScript (structuredDataPayloads env html))
  /\ Forall (fun payload =>
               (exists data, payload = escapeSlashes (stringify data))
               /\ includes payload "</" = false
               /\ includes payload "</script" = false)
            (structuredDataPayloads env html).
Proof.
  split; [apply generateStructuredData_payloads|].
  unfold structuredDataPayloads.
  eapply Forall_impl; [|apply payloads_clean].
  intros payload [Hd Hc]. repeat split; [exact Hd | exact Hc |].
  exact (includes_longer payload "</" "script" Hc).
Qed.

(** The layout of the head for fragments that a replacement string
    leaves alone.  In a document whose first [</head>] follows [pre], the
    fragments go in front of that marker in the order meta/OGP,
    analytics, favicon, structured data, each followed by a line break
    (the favicon and structured-data fragments only when they are not
    empty); [generateStructuredData] reads the document that holds the
    first three and the image pass runs on the result.  The fragments
    are assumed free of [$] and the text in front of the marker free of
    [</head>]. *)
Theorem head_injection_order (env : Env) (faviconTags pre post : string) :
  let metaTags := generateMetaTags env in
  let analyticsTags := generateAnalyticsTags env in
  let faviconLine :=
    if nonEmpty faviconTags then faviconTags ++ LF else EmptyString in
  let html3 :=
    pre ++ metaTags ++ LF ++ analyticsTags ++ LF ++ faviconLine
        ++ "</head>" ++ post in
  let structuredData := generateStructuredData env html3 in
  let structuredLine :=
    if nonEmpty structuredData then structuredData ++ LF else EmptyString in
  includes (pre ++ metaTags ++ LF ++ analyticsTags ++ LF ++ faviconLine
                ++ structuredLine) "</head>" = false ->
  includes (metaTags ++ analyticsTags ++ faviconTags ++ structuredData) "$"
  = false ->
  injectHeadTags env faviconTags (pre ++ "</head>" ++ post) = html3
  /\ injectFragments env faviconTags (pre ++ "</head>" ++ post)
     = pre ++ metaTags ++ LF ++ analyticsTags ++ LF ++ faviconLine
           ++ structuredLine ++ "</head>" ++ post
  /\ forall dimensions spImages html,
      buildHtml env dimensions faviconTags spImages html
      = updateAssetLinks (basePathOf env)
          (fst (processImages
                  (injectFragments env faviconTags (updateTitle env html))
                  dimensions (basePathOf env) spImages)).
Proof.
  intros metaTags analyticsTags faviconLine html3 structuredData
         structuredLine Hclean Hdollar.
  destruct (injection_layout env faviconTags pre post Hclean Hdollar)
    as [E3 E4].
  split; [exact E3|]. split; [exact E4 | reflexivity].
Qed.

Lemma head_injection_order_witness :
  let env := seminarEnv in
  let faviconTags := generateFavicons true EmptyString in
  let html3 :=
    seminarHead ++ generateMetaTags env ++ LF ++ generateAnalyticsTags env ++ LF
      ++ faviconTags ++ LF ++ "</head>" ++ seminarBody in
  let structuredData := generateStructuredData env html3 in
  nonEmpty structuredData = true
  /\ injectFragments env faviconTags (seminarHead ++ "</head>" ++ seminarBody)
     = seminarHead ++ generateMetaTags env ++ LF ++ generateAnalyticsTags env
         ++ LF ++ faviconTags ++ LF ++ structuredData ++ LF
         ++ "</head>" ++ seminarBody.
Proof.
  split; [vm_compute; reflexivity|].
  exact (proj1 (proj2 (head_injection_order seminarEnv
                         (generateFavicons true EmptyString)
                         seminarHead seminarBody eq_refl eq_refl))).
Defined.

(** C5, as the script has it.  For the empty configuration the
    analytics and structured-data generators return the empty fragment;
    the meta/OGP generator returns its three default tags; the
    conversion-code generator returns the click handler with no provider
    branch; the favicon generator does not read the configuration map (its
    fragment is empty exactly when no icon is available).  The assembled
    document, when no icon is available, is the input with the default
    OGP fragment and two line breaks in front of the first [</head>]
    (the input itself when it has no [</head>]), then rewritten by the
    image pass and by the renaming of the [style.css] and [script.js]
    references. *)
Theorem empty_config_fragments (timePointsJson : string -> string)
        (dimensions : Dimensions) (spImages : list string) (pre post : string) :
  includes pre "</head>" = false ->
  generateAnalyticsTags emptyEnv = EmptyString
  /\ (forall html, generateStructuredData emptyEnv html = EmptyString)
  /\ generateMetaTags emptyEnv = defaultOgp
  /\ generateConversionCode timePointsJson emptyEnv
     = conversionHead ++ conversionClose ++ "})();"
  /\ (forall available basePath,
         generateFavicons available basePath = EmptyString <-> available = false)
  /\ injectFragments emptyEnv EmptyString (pre ++ "</head>" ++ post)
     = pre ++ defaultOgp ++ LF ++ LF ++ "</head>" ++ post
  /\ buildHtml emptyEnv dimensions EmptyString spImages (pre ++ "</head>" ++ post)
     = updateAssetLinks EmptyString
         (fst (processImages (pre ++ defaultOgp ++ LF ++ LF ++ "</head>" ++ post)
                             dimensions EmptyString spImages))
  /\ (forall html,
         includes html "</head>" = false ->
         injectFragments emptyEnv EmptyString html = html).
Proof.
  intro Hpre.
  assert (Hnone : forall html,
             includes html "</head>" = false ->
             injectFragments emptyEnv EmptyString html = html).
  { intros html H. unfold injectFragments, injectHeadTags. cbn [nonEmpty].
    rewrite (injectBeforeHead_absent _ html H).
    rewrite (injectBeforeHead_absent _ html H). reflexivity. }
  assert (Hinj : injectFragments emptyEnv EmptyString (pre ++ "</head>" ++ post)
                 = pre ++ defaultOgp ++ LF ++ LF ++ "</head>" ++ post).
  { assert (Hx : includes (pre ++ defaultOgp ++ LF ++ EmptyString ++ LF
                               ++ EmptyString ++ EmptyString) "</head>" = false).
    { apply (includes_app_fresh "<" "<" "/head>"); [reflexivity | exact Hpre |].
      vm_compute; reflexivity. }
    exact (proj2 (injection_layout emptyEnv EmptyString pre post
                    Hx eq_refl)). }
  repeat split.
  - intro H. destruct available; [discriminate | reflexivity].
  - intros ->. reflexivity.
  - exact Hinj.
  - unfold buildHtml. change (updateTitle emptyEnv ?h) with h.
    now rewrite Hinj.
  - exact Hnone.
Qed.

Lemma empty_config_fragments_witness :
  includes "<html><head>" "</head>" = false
  /\ buildHtml emptyEnv [] EmptyString [] ("<html><head>" ++ "</head>" ++ "<body></body></html>")
     = "<html><head>" ++ defaultOgp ++ LF ++ LF ++ "</head><body></body></html>".
Proof.
  split; [reflexivity|].
  etransitivity.
  - exact (proj1 (proj2 (proj2 (proj2 (proj2 (proj2 (proj2
             (empty_config_fragments (fun s => s) [] [] "<html><head>"
                "<body></body></html>" eq_refl)))))))).
  - vm_compute; reflexivity.
Defined.

(** C5 as the specification states it fails on a document without any
    image: the meta/OGP and conversion-code generators do not return the
    empty fragment, and the assembled document is not the input. *)
Lemma empty_config_not_silent :
  ~ (generateMetaTags emptyEnv = EmptyString
     /\ generateAnalyticsTags emptyEnv = EmptyString
     /\ generateStructuredData emptyEnv "<html><head></head><body></body></html>"
        = EmptyString
     /\ generateConversionCode (fun s => s) emptyEnv = EmptyString
     /\ buildHtml emptyEnv [] EmptyString [] "<html><head></head><body></body></html>"
        = fst (processImages "<html><head></head><body></body></html>" []
                             EmptyString [])).
Proof. intros [H _]. vm_compute in H. discriminate H. Qed.

(** C7 fails on the script: each fragment is handed to
    [String.prototype.replace] as a replacement string.  [escapeHtml]
    turns the quote after the dollar of the description into [&quot;], so
    the OGP fragment holds [$&], which [replace] reads as the matched
    text [</head>]: the first [</head>] of the document is then inside
    the description tag and the analytics fragment lands there, not after
    the OGP fragment. *)
Theorem head_injection_dollar_misplaced :
  includes (generateMetaTags dollarEnv) "</head>" = false
  /\ includes (generateMetaTags dollarEnv) "$&" = true
  /\ injectFragments dollarEnv EmptyString plainPage
     = "<head><title>t</title><!-- OGP -->" ++ LF
       ++ "<meta name=" ++ q "description" ++ " content="
       ++ DQ ++ "Prices in &quot;" ++ generateAnalyticsTags dollarEnv ++ LF
       ++ "</head>quot;" ++ DQ ++ ">" ++ LF
       ++ "<meta property=" ++ q "og:type" ++ " content=" ++ q "website" ++ ">" ++ LF
       ++ "<meta property=" ++ q "og:description" ++ " content="
       ++ q "Prices in &quot;</head>quot;" ++ ">" ++ LF
       ++ "<meta property=" ++ q "og:locale" ++ " content=" ++ q "ja_JP" ++ ">" ++ LF
       ++ "<meta name=" ++ q "twitter:card" ++ " content="
       ++ q "summary_large_image" ++ ">" ++ LF
       ++ "<meta name=" ++ q "twitter:description" ++ " content="
       ++ q "Prices in &quot;</head>quot;" ++ ">" ++ LF
       ++ "</head><body></body>"
  /\ injectFragments dollarEnv EmptyString plainPage
     <> "<head><title>t</title>" ++ generateMetaTags dollarEnv ++ LF
        ++ generateAnalyticsTags dollarEnv ++ LF ++ "</head><body></body>".
Proof.
  split; [vm_compute; reflexivity|]. split; [vm_compute; reflexivity|].
  split; [vm_compute; reflexivity|].
  vm_compute. discriminate.
Qed.

End GeneratorClaims.


(** ** The image tag rewriter *)

Module ImageFacts.
Import JsString.
Import Regex.
Import Generators.
Import ImageRewriter.
Import Notions.
Import StringFacts.
Import RegexFacts.

(** The callback writes the [<img>] element with the served path and the
    new attributes, alone or at the end of a picture block. *)
Lemma rewriteImg_shape (dimensions : Dimensions) (prefix : string)
      (spImages : list string) (k : nat) (before src after : string) :
  rewriteImg dimensions prefix spImages k before src after
  = wrapImg prefix spImages src
      (imgTag before (servedSrc prefix src)
              (newAfter dimensions k before src after)).
Proof.
  unfold rewriteImg, wrapImg, pictureSources, servedSrc, withPrefix.
  cbv zeta.
  destruct (isPictureExt (toLowerCase (NodePath.extname src))).
  - destruct (List.existsb (String.eqb (stripSlash src)) spImages);
      destruct (isAbsolute src); destruct (nonEmpty prefix);
      cbn [List.app]; rewrite ?append_assoc; reflexivity.
  - unfold isAbsolute.
    destruct (startsWith src "/"); destruct (startsWith src "http");
      destruct (nonEmpty prefix); reflexivity.
Qed.


End ImageFacts.


(** ** Matches and texts *)

Module MatchFacts.
Import JsString.
Import Regex.
Import Generators.
Import ImageRewriter.
Import Notions.
Import StringFacts.
Import RegexFacts.

#[local] Arguments lowerChar : simpl never.
#[local] Arguments isQuote : simpl never.

Lemma lowerChar_lt (c : ascii) :
  Ascii.eqb (lowerChar c) (lowerChar "<") = Ascii.eqb c "<".
Proof.
  destruct c as [b0 b1 b2 b3 b4 b5 b6 b7].
  destruct b0, b1, b2, b3, b4, b5, b6, b7; reflexivity.
Qed.

(** A star over a class fails when what follows fails after every run of
    characters of the class. *)
Lemma starLoop_cls_none {R : Type} (greedy : bool) (p : ascii -> bool)
      (k : string -> list string -> option R) (caps : list string) (n : nat) :
  forall s,
    (forall pre rest, s = pre ++ rest -> allChars p pre = true ->
                      k rest caps = None) ->
    starLoop (run (Cls p)) greedy k n s caps = None.
Proof.
  induction n as [|n IH]; intros s H.
  - cbn [starLoop]. now apply (H EmptyString s).
  - cbn [starLoop].
    assert (Hk : k s caps = None) by now apply (H EmptyString s).
    rewrite Hk.
    assert (Ha : run (Cls p) s caps
                     (fun s' caps' =>
                        if Nat.ltb (String.length s') (String.length s)
                        then starLoop (run (Cls p)) greedy k n s' caps'
                        else None) = None).
    { destruct s as [|c s]; [reflexivity|]. cbn [run].
      destruct (p c) eqn:Hc; [|reflexivity].
      destruct (Nat.ltb (String.length s) (String.length (String c s)));
        [|reflexivity].
      apply IH. intros pre rest -> Hpre.
      apply (H (String c pre) rest); [reflexivity|].
      cbn [allChars]. now rewrite Hc, Hpre. }
    rewrite Ha. now destruct greedy.
Qed.

(** A run of characters other than [c] at the start of [a ++ c ++ t],
    where [a] has no [c], ends inside [a]. *)
Lemma run_inside (c : ascii) (pre rest a t : string) :
  allChars (isNot c) pre = true ->
  allChars (isNot c) a = true ->
  pre ++ rest = a ++ String c t ->
  exists a2, a = pre ++ a2 /\ rest = a2 ++ String c t.
Proof.
  revert a; induction pre as [|x pre IH]; intros a Hpre Ha E.
  - exists a. split; [reflexivity | exact E].
  - cbn [allChars] in Hpre. apply andb_true_iff in Hpre as [Hx Hpre].
    destruct a as [|y a].
    + cbn in E. injection E as -> _.
      unfold isNot in Hx. now rewrite Ascii.eqb_refl in Hx.
    + cbn [allChars] in Ha. apply andb_true_iff in Ha as [_ Ha].
      cbn in E. injection E as -> E.
      destruct (IH a Hpre Ha E) as (a2 & -> & ->).
      exists a2. split; reflexivity.
Qed.

Lemma test_false_suffix (r : regex) (pre suf : string) :
  test r (pre ++ suf) = false -> exec r suf = None.
Proof.
  induction pre as [|c pre IH]; intro H.
  - destruct suf; cbn [append test] in H; destruct (exec r _); congruence.
  - cbn [append test] in H.
    destruct (exec r (String c (pre ++ suf))); [discriminate|]. now apply IH.
Qed.

(** What [quotedSrc] refuses, a pattern that starts like it refuses. *)
Lemma quotedSrc_head {R : Type} (rest : regex) (s : string)
      (caps : list string) (k : string -> list string -> option R) :
  exec quotedSrc s = None ->
  run (Seq (litI "src=") (Seq quote rest)) s caps k = None.
Proof.
  unfold exec, quotedSrc, quote.
  destruct s as [|c1 [|c2 [|c3 [|c4 [|c5 s]]]]];
    cbn [seqs litI chrI run];
    repeat match goal with
           | |- context [if ?b then _ else _] => destruct b
           end; intro H; try reflexivity; discriminate H.
Qed.

Lemma quotedSrc_before_gt (a t : string) :
  exec quotedSrc a = None -> exec quotedSrc (a ++ String ">" t) = None.
Proof.
  unfold exec, quotedSrc, quote.
  destruct a as [|c1 [|c2 [|c3 [|c4 [|c5 a]]]]];
    cbn [append seqs litI chrI run];
    repeat match goal with
           | |- context [if ?b then _ else _] =>
               lazymatch b with
               | context [">"%char] => fail
               | _ => destruct b
               end
           end; intro H; try reflexivity; try discriminate H.
Qed.

(** An opener is [<img] in any letter case. *)
Lemma opener_chars (opener : string) :
  toLowerCase opener = "<img" ->
  exists c2 c3 c4,
    opener = String "<" (String c2 (String c3 (String c4 EmptyString)))
    /\ lowerChar c2 = "i"%char /\ lowerChar c3 = "m"%char
    /\ lowerChar c4 = "g"%char.
Proof.
  destruct opener as [|c1 [|c2 [|c3 [|c4 [|c5 o]]]]]; cbn [toLowerCase];
    intro H; try discriminate H.
  injection H as H1 H2 H3 H4.
  exists c2, c3, c4. repeat split; try assumption.
  assert (E : Ascii.eqb c1 "<" = true).
  { rewrite <- lowerChar_lt, H1. reflexivity. }
  apply Ascii.eqb_eq in E. now subst c1.
Qed.

Lemma not_lt_of_lower (c x : ascii) :
  lowerChar c = x -> Ascii.eqb x "<" = false -> isNot "<" c = true.
Proof.
  intros H Hx. unfold isNot. rewrite <- lowerChar_lt, H.
  change (lowerChar "<") with "<"%char. now rewrite Hx.
Qed.

Lemma run_opener {R : Type} (r : regex) (c2 c3 c4 : ascii) (x : string)
      (caps : list string) (k : string -> list string -> option R) :
  lowerChar c2 = "i"%char -> lowerChar c3 = "m"%char ->
  lowerChar c4 = "g"%char ->
  run (Seq (litI "<img") r)
      (String "<" (String c2 (String c3 (String c4 x)))) caps k
  = run r x caps k.
Proof.
  intros H2 H3 H4. cbn [litI chrI run]. rewrite H2, H3, H4. reflexivity.
Qed.

(** No [<img>] match starts at a tag whose attributes, up to its [>],
    hold no [src=] directly followed by a quote. *)
Lemma imgRegex_unquoted (opener attrs rest : string) :
  toLowerCase opener = "<img" ->
  allChars (isNot ">") attrs = true ->
  test quotedSrc attrs = false ->
  exec imgRegex (opener ++ attrs ++ String ">" rest) = None.
Proof.
  intros Ho Hgt Hq.
  destruct (opener_chars opener Ho) as (c2 & c3 & c4 & -> & H2 & H3 & H4).
  unfold exec, imgRegex. cbn [seqs append].
  rewrite (run_opener _ c2 c3 c4 _ _ _ H2 H3 H4).
  change (run (Seq (Grp (Star true (notChr ">"))) ?r) ?s ?caps ?k)
    with (starLoop (run (Cls (isNot ">"))) true
            (fun s' caps' => run r s' (caps' ++ [consumed s s'])%list k)
            (String.length s) s caps).
  apply starLoop_cls_none. intros pre suf E Hpre.
  destruct (run_inside ">" pre suf attrs rest Hpre Hgt (eq_sym E))
    as (a2 & -> & ->).
  apply quotedSrc_head. apply quotedSrc_before_gt.
  exact (test_false_suffix quotedSrc pre a2 Hq).
Qed.

Lemma render_lits {St : Type} (f : St -> string -> list string -> St * string)
      (st : St) (s : string) :
  render f st (lits s) = (st, s).
Proof.
  induction s as [|c s IH]; [reflexivity|].
  cbn [lits render]. now rewrite IH.
Qed.

(** A pattern that starts with [<] cuts nothing out of a text without
    it. *)
Lemma scan_plain (r : regex) (a b : string) :
  startsAtLt r ->
  allChars (isNot "<") a = true ->
  scanFrom r 0 (a ++ b) = (lits a ++ scanFrom r 0 b)%list.
Proof.
  intros [_ Hr] Ha. induction a as [|c a IH]; [reflexivity|].
  cbn [allChars] in Ha. apply andb_true_iff in Ha as [Hc Ha].
  unfold isNot in Hc. apply negb_true_iff in Hc.
  cbn [append lits List.app].
  rewrite scanFrom_miss by (now apply Hr).
  now rewrite (IH Ha).
Qed.

Lemma scan_plain_all (r : regex) (a : string) :
  startsAtLt r ->
  allChars (isNot "<") a = true ->
  scanFrom r 0 a = lits a.
Proof.
  intros Hr Ha.
  rewrite <- (append_nil_r a) at 1.
  rewrite (scan_plain r a EmptyString Hr Ha).
  destruct Hr as [Hr _]. cbn [scanFrom]. rewrite Hr.
  now rewrite List.app_nil_r.
Qed.

Lemma pictureRegex_startsAtLt : startsAtLt pictureRegex.
Proof.
  split; [reflexivity|].
  intros c s Hc. unfold exec, pictureRegex. cbn [seqs litI chrI run].
  now rewrite lowerChar_lt, Hc.
Qed.

Lemma imgRegex_startsAtLt : startsAtLt imgRegex.
Proof.
  split; [reflexivity|].
  intros c s Hc. unfold exec, imgRegex. cbn [seqs litI chrI run].
  now rewrite lowerChar_lt, Hc.
Qed.

Lemma pictureRegex_not_img (c2 : ascii) (s : string) :
  lowerChar c2 = "i"%char ->
  exec pictureRegex (String "<" (String c2 s)) = None.
Proof.
  intro H2. unfold exec, pictureRegex. cbn [seqs litI chrI run].
  rewrite H2. reflexivity.
Qed.

Lemma lits_app (a b : string) : lits (a ++ b) = (lits a ++ lits b)%list.
Proof. induction a as [|c a IH]; [reflexivity|]. cbn. now rewrite IH. Qed.

(** Around a [<] at which [r] does not match, in a text that has no
    other [<], [r] cuts nothing. *)
Lemma scan_single_lt (r : regex) (pre t : string) :
  startsAtLt r ->
  exec r (String "<" t) = None ->
  allChars (isNot "<") pre = true ->
  allChars (isNot "<") t = true ->
  scan r (pre ++ String "<" t) = lits (pre ++ String "<" t).
Proof.
  intros Hr Htag Hpre Ht. unfold scan.
  rewrite (scan_plain r pre _ Hr Hpre), lits_app. f_equal.
  rewrite (scanFrom_miss _ _ _ Htag). cbn [lits]. f_equal.
  now apply scan_plain_all.
Qed.

End MatchFacts.


(** ** The path prefix *)

Module PrefixFacts.
Import JsString.
Import Regex.
Import Generators.
Import ImageRewriter.
Import Notions.
Import StringFacts.






End PrefixFacts.


(** ** Protected picture blocks *)

Module PictureFacts.
Import JsString.
Import Regex.
Import Generators.
Import ImageRewriter.
Import Notions.
Import StringFacts.
Import RegexFacts.
Import MatchFacts.

#[local] Arguments lowerChar : simpl never.

Lemma lowerChar_slash (c : ascii) :
  Ascii.eqb (lowerChar c) (lowerChar "/") = Ascii.eqb c "/".
Proof.
  destruct c as [b0 b1 b2 b3 b4 b5 b6 b7].
  destruct b0, b1, b2, b3, b4, b5, b6, b7; reflexivity.
Qed.

(** A lazy star over any character stops at the first place where what
    follows succeeds. *)
Lemma starLoop_lazy_found {R : Type} (k : string -> list string -> option R)
      (caps : list string) (x : R) (rest : string) :
  k rest caps = Some x ->
  forall body n,
    String.length (body ++ rest) <= n ->
    (forall b1 b2, body = b1 ++ b2 -> b2 <> EmptyString ->
                   k (b2 ++ rest) caps = None) ->
    starLoop (run anyChar) false k n (body ++ rest) caps = Some x.
Proof.
  intros Hk body. induction body as [|c body IH]; intros n L H.
  - destruct n; cbn [append starLoop]; now rewrite Hk.
  - destruct n as [|n]; [cbn in L; lia|].
    cbn [starLoop].
    rewrite (H EmptyString (String c body) eq_refl) by discriminate.
    cbn [firstOf append anyChar run].
    assert (Hlt : Nat.ltb (String.length (body ++ rest))
                          (String.length (String c (body ++ rest))) = true).
    { apply Nat.ltb_lt. cbn [String.length]. lia. }
    rewrite Hlt. apply IH.
    + cbn [append String.length] in L. lia.
    + intros b1 b2 -> Hb2. now apply (H (String c b1) b2).
Qed.

Lemma includes_suffix (a b p : string) :
  includes (a ++ b) p = false -> includes b p = false.
Proof.
  induction a as [|c a IH]; [trivial|].
  cbn [append]. rewrite includes_cons. intro H.
  apply orb_false_iff in H as [_ H]. now apply IH.
Qed.

Lemma includes_startsWith (s p : string) :
  includes s p = false -> startsWith s p = false.
Proof.
  destruct s; cbn [includes]; intro H; now apply orb_false_iff in H as [H _].
Qed.

(** The closing tag does not match where the text does not go on with
    [</]. *)
Lemma closer_fails {R : Type} (b2 rest : string) (caps : list string)
      (k : string -> list string -> option R) :
  b2 <> EmptyString ->
  startsWith b2 "</" = false ->
  run (Seq (litI "</picture>") Eps) (b2 ++ String "<" rest) caps k = None.
Proof.
  intros Hne Hs.
  destruct b2 as [|x [|y b]]; [now destruct Hne| |].
  - cbn [append litI chrI run]. rewrite lowerChar_lt.
    now destruct (Ascii.eqb x "<").
  - cbn [startsWith] in Hs. rewrite andb_true_r in Hs.
    cbn [append litI chrI run]. rewrite lowerChar_lt, lowerChar_slash.
    rewrite (Ascii.eqb_sym x), (Ascii.eqb_sym y).
    destruct (Ascii.eqb "<" x); [|reflexivity].
    cbn [andb] in Hs. now rewrite Hs.
Qed.

(** The picture pattern at a block whose body has no [</]: the match is
    the block. *)
Lemma pictureRegex_block (body post : string) :
  includes body "</" = false ->
  exec pictureRegex ("<picture" ++ body ++ "</picture>" ++ post)
  = Some ([], post).
Proof.
  intro Hb. unfold exec, pictureRegex. cbn [seqs].
  change (run (Seq (litI "<picture") ?r) ("<picture" ++ ?x) ?caps ?k)
    with (run r x caps k).
  change (run (Seq (Star false anyChar) ?r) ?s ?caps ?k)
    with (starLoop (run anyChar) false
            (fun s' caps' => run r s' caps' k) (String.length s) s caps).
  apply starLoop_lazy_found; [reflexivity | lia |].
  intros b1 b2 -> Hb2.
  apply closer_fails; [exact Hb2|].
  apply includes_startsWith. exact (includes_suffix b1 b2 _ Hb).
Qed.

Lemma scanFrom_skip_all (r : regex) (a b : string) :
  scanFrom r (String.length a) (a ++ b) = scanFrom r 0 b.
Proof. induction a as [|c a IH]; [reflexivity | exact IH]. Qed.

Lemma render_lits_app {St : Type}
      (f : St -> string -> list string -> St * string) (st : St) (a : string)
      (ps : list piece) :
  render f st (lits a ++ ps)
  = (fst (render f st ps), a ++ snd (render f st ps)).
Proof.
  induction a as [|c a IH]; cbn [lits List.app render append].
  - now destruct (render f st ps).
  - rewrite IH. reflexivity.
Qed.

(** The first occurrence of a pattern after a text without its first
    character. *)
Lemma splitFirst_head_fresh (c0 : ascii) (pt pre post : string) :
  allChars (isNot c0) pre = true ->
  splitFirst (String c0 pt) (pre ++ String c0 pt ++ post) = Some (pre, post).
Proof.
  induction pre as [|y pre IH]; intro H.
  - cbn [append splitFirst].
    change (String c0 (pt ++ post)) with (String c0 pt ++ post).
    now rewrite startsWith_self_app, drop_length_app.
  - cbn [allChars] in H. apply andb_true_iff in H as [Hy H].
    unfold isNot in Hy. apply negb_true_iff in Hy.
    change (String y pre ++ String c0 pt ++ post)
      with (String y (pre ++ String c0 pt ++ post)).
    cbn [splitFirst startsWith].
    rewrite (Ascii.eqb_sym c0 y), Hy. cbn [andb]. now rewrite (IH H).
Qed.

(** The scan of a document made of plain text around one block. *)
Lemma scan_single_block (pre body post : string) :
  allChars (isNot "<") pre = true ->
  allChars (isNot "<") post = true ->
  includes body "</" = false ->
  scan pictureRegex (pre ++ "<picture" ++ body ++ "</picture>" ++ post)
  = (lits pre ++ Hit ("<picture" ++ body ++ "</picture>") [] :: lits post)%list.
Proof.
  intros Hpre Hpost Hb. unfold scan.
  rewrite (scan_plain pictureRegex pre _ pictureRegex_startsAtLt Hpre).
  f_equal.
  pose proof (pictureRegex_block body post Hb) as E.
  assert (A : "<picture" ++ body ++ "</picture>" ++ post
              = String "<" (("picture" ++ body ++ "</picture>") ++ post)).
  { cbn [append]. now rewrite append_assoc. }
  rewrite A in E |- *.
  rewrite (scanFrom_hit _ _ _ post []
             (String.length ("picture" ++ body ++ "</picture>")) E).
  - f_equal.
    + unfold consumed.
      replace (String.length
                 (String "<" (("picture" ++ body ++ "</picture>") ++ post))
               - String.length post)
        with (String.length (String "<" ("picture" ++ body ++ "</picture>")))
        by (cbn [String.length]; rewrite !length_append; lia).
      change (String "<" (("picture" ++ body ++ "</picture>") ++ post))
        with (String "<" ("picture" ++ body ++ "</picture>") ++ post).
      now rewrite take_length_app.
    + rewrite scanFrom_skip_all.
      now apply scan_plain_all; [apply pictureRegex_startsAtLt|].
  - cbn [String.length]. rewrite !length_append. lia.
Qed.

End PictureFacts.


(** ** The match of a well-formed tag *)

Module TagFacts.
Import JsString.
Import Regex.
Import Generators.
Import ImageRewriter.
Import Notions.
Import StringFacts.
Import RegexFacts.
Import MatchFacts.
Import PictureFacts.

#[local] Arguments lowerChar : simpl never.
#[local] Arguments isQuote : simpl never.

Lemma consumed_app (a s : string) : consumed (a ++ s) s = a.
Proof.
  unfold consumed.
  replace (String.length (a ++ s) - String.length s) with (String.length a)
    by (rewrite length_append; lia).
  apply take_length_app.
Qed.

Lemma run_cls_cons {R : Type} (p : ascii -> bool) (c : ascii) (s : string)
      (caps : list string) (k : string -> list string -> option R) :
  run (Cls p) (String c s) caps k = if p c then k s caps else None.
Proof. reflexivity. Qed.

(** A greedy star over a class reads the run [a] and stops there when
    what follows succeeds after [a] and fails after every longer run. *)
Lemma starLoop_greedy_stop {R : Type} (p : ascii -> bool)
      (k : string -> list string -> option R) (caps : list string) (x : R)
      (s : string) :
  k s caps = Some x ->
  (forall pre rest, s = pre ++ rest -> pre <> EmptyString ->
                    allChars p pre = true -> k rest caps = None) ->
  forall a n,
    String.length (a ++ s) <= n ->
    allChars p a = true ->
    starLoop (run (Cls p)) true k n (a ++ s) caps = Some x.
Proof.
  intros Hk Hext a. induction a as [|c a IH]; intros n L Ha.
  - cbn [append]. destruct n as [|n]; cbn [starLoop]; [exact Hk|].
    rewrite Hk.
    assert (E : run (Cls p) s caps
                    (fun s' caps' =>
                       if Nat.ltb (String.length s') (String.length s)
                       then starLoop (run (Cls p)) true k n s' caps'
                       else None) = None).
    { destruct s as [|d s]; [reflexivity|]. cbn [run].
      destruct (p d) eqn:Hd; [|reflexivity].
      destruct (Nat.ltb (String.length s) (String.length (String d s)));
        [|reflexivity].
      apply starLoop_cls_none. intros pre rest -> Hpre.
      apply (Hext (String d pre) rest); [reflexivity | discriminate |].
      cbn [allChars]. now rewrite Hd, Hpre. }
    now rewrite E.
  - cbn [allChars] in Ha. apply andb_true_iff in Ha as [Hc Ha].
    destruct n as [|n]; [cbn in L; lia|].
    cbn [append starLoop]. rewrite run_cls_cons, Hc.
    assert (Hlt : Nat.ltb (String.length (a ++ s))
                          (String.length (String c (a ++ s))) = true).
    { apply Nat.ltb_lt. cbn [String.length]. lia. }
    rewrite Hlt. rewrite (IH n); [reflexivity | | exact Ha].
    cbn [append String.length] in L. lia.
Qed.

(** A group around a greedy star over a class captures the run. *)
Lemma run_group_star {R : Type} (p : ascii -> bool) (r : regex)
      (a s : string) (caps : list string)
      (k : string -> list string -> option R) (x : R) :
  allChars p a = true ->
  run r s (caps ++ [a])%list k = Some x ->
  (forall pre rest caps', s = pre ++ rest -> pre <> EmptyString ->
                          allChars p pre = true -> run r rest caps' k = None) ->
  run (Seq (Grp (Star true (Cls p))) r) (a ++ s) caps k = Some x.
Proof.
  intros Ha Hk Hext.
  change (run (Seq (Grp (Star true (Cls p))) r) (a ++ s) caps k)
    with (starLoop (run (Cls p)) true
            (fun s' caps' => run r s' (caps' ++ [consumed (a ++ s) s'])%list k)
            (String.length (a ++ s)) (a ++ s) caps).
  apply starLoop_greedy_stop; [| | apply le_n | exact Ha].
  - now rewrite consumed_app.
  - intros pre rest E Hne Hpre. now apply (Hext pre rest _ E).
Qed.

(** The same for one or more characters of the class. *)
Lemma run_group_plus {R : Type} (p : ascii -> bool) (r : regex)
      (c : ascii) (a s : string) (caps : list string)
      (k : string -> list string -> option R) (x : R) :
  p c = true ->
  allChars p a = true ->
  run r s (caps ++ [String c a])%list k = Some x ->
  (forall pre rest caps', s = pre ++ rest -> pre <> EmptyString ->
                          allChars p pre = true -> run r rest caps' k = None) ->
  run (Seq (Grp (plus true (Cls p))) r) (String c (a ++ s)) caps k = Some x.
Proof.
  intros Hc Ha Hk Hext.
  change (run (Seq (Grp (plus true (Cls p))) r) (String c (a ++ s)) caps k)
    with (if p c
          then starLoop (run (Cls p)) true
                 (fun s' caps' =>
                    run r s' (caps' ++ [consumed (String c (a ++ s)) s'])%list k)
                 (String.length (a ++ s)) (a ++ s) caps
          else None).
  rewrite Hc.
  apply starLoop_greedy_stop; [| | apply le_n | exact Ha].
  - change (String c (a ++ s)) with (String c a ++ s).
    now rewrite consumed_app.
  - intros pre rest E Hne Hpre. now apply (Hext pre rest _ E).
Qed.

(** No run of characters of a class starts with a character outside it. *)
Lemma no_run_from (p : ascii -> bool) (d : ascii) (s pre rest : string) :
  p d = false -> String d s = pre ++ rest -> pre <> EmptyString ->
  allChars p pre = true -> False.
Proof.
  intros Hd E Hne Hpre. destruct pre as [|y pre]; [now apply Hne|].
  cbn in E. injection E as <- _. cbn [allChars] in Hpre.
  rewrite Hd in Hpre. discriminate.
Qed.

Lemma quote_cases (c : ascii) :
  isQuote c = true -> c = dqChar \/ c = "'"%char.
Proof.
  unfold isQuote. intro H. apply orb_true_iff in H as [H|H];
    apply Ascii.eqb_eq in H; auto.
Qed.

Lemma quote_not_gt (c : ascii) : isQuote c = true -> isNot ">" c = true.
Proof. intro H. destruct (quote_cases c H) as [-> | ->]; reflexivity. Qed.

Lemma quote_not_lt (c : ascii) : isQuote c = true -> isNot "<" c = true.
Proof. intro H. destruct (quote_cases c H) as [-> | ->]; reflexivity. Qed.

(** Between the [s] of [src=] and the value no other [src=] starts. *)
Lemma quotedSrc_after_s (q1 : ascii) (x : string) :
  isQuote q1 = true ->
  test quotedSrc x = false ->
  test quotedSrc ("rc=" ++ String q1 x) = false.
Proof.
  intros Hq Hx.
  destruct (quote_cases q1 Hq) as [-> | ->];
    destruct x; cbn [append test] in *;
    repeat match goal with
           | |- context [exec quotedSrc (String ?c ?y)] =>
               lazymatch c with
               | "r"%char => change (exec quotedSrc (String c y))
                     with (@None (list string * string))
               | "c"%char => change (exec quotedSrc (String c y))
                     with (@None (list string * string))
               | "="%char => change (exec quotedSrc (String c y))
                     with (@None (list string * string))
               | dqChar => change (exec quotedSrc (String c y))
                     with (@None (list string * string))
               | "'"%char => change (exec quotedSrc (String c y))
                     with (@None (list string * string))
               end
           end; exact Hx.
Qed.

Lemma tag_text_assoc (q1 q2 : ascii) (src after rest : string) :
  "src=" ++ String q1 (src ++ String q2 (after ++ String ">" rest))
  = ("src=" ++ String q1 (src ++ String q2 after)) ++ String ">" rest.
Proof.
  change ("src=" ++ String q1 (src ++ String q2 (after ++ String ">" rest)))
    with ("src=" ++ String q1 EmptyString ++ src ++ String q2 EmptyString
            ++ after ++ String ">" rest).
  change ("src=" ++ String q1 (src ++ String q2 after))
    with ("src=" ++ String q1 EmptyString ++ src ++ String q2 EmptyString ++ after).
  now rewrite !append_assoc.
Qed.

(** The match of [imgRegex] at a tag with a quoted, non-empty [src] and
    no later [src=] followed by a quote: the three groups are the text
    before [src=], the value, and the text up to [>]. *)
Lemma imgRegex_tag (before : string) (q1 : ascii) (src : string) (q2 : ascii)
      (after rest : string) :
  allChars (isNot ">") before = true ->
  allChars (isNot ">") src = true ->
  allChars (isNot ">") after = true ->
  src <> EmptyString ->
  allChars (fun c => negb (isQuote c)) src = true ->
  isQuote q1 = true -> isQuote q2 = true ->
  test quotedSrc (src ++ String q2 after) = false ->
  exec imgRegex
       ("<img" ++ before ++ "src="
          ++ String q1 (src ++ String q2 (after ++ String ">" rest)))
  = Some ([before; src; after], rest).
Proof.
  intros Hb Hs Ha Hne Hnq Hq1 Hq2 Hlater.
  unfold exec, imgRegex. cbn [seqs].
  change (run (Seq (litI "<img") ?r) ("<img" ++ ?x) ?caps ?k)
    with (run r x caps k).
  apply (run_group_star (isNot ">")); [exact Hb | |].
  - change (run (Seq (litI "src=") ?r) ("src=" ++ ?x) ?caps ?k)
      with (run r x caps k).
    change (run (Seq quote ?r) (String q1 ?x) ?caps ?k)
      with (if isQuote q1 then run r x caps k else None).
    rewrite Hq1.
    destruct src as [|c src]; [now destruct Hne|].
    cbn [allChars] in Hnq. apply andb_true_iff in Hnq as [Hc Hnq].
    cbn [append].
    apply (run_group_plus (fun c => negb (isQuote c))); [exact Hc | exact Hnq | |].
    + change (run (Seq quote ?r) (String q2 ?x) ?caps ?k)
        with (if isQuote q2 then run r x caps k else None).
      rewrite Hq2.
      apply (run_group_star (isNot ">")); [exact Ha | reflexivity |].
      intros pre rest' caps' E Hpne Hpre. exfalso.
      exact (no_run_from (isNot ">") ">" rest pre rest' eq_refl E Hpne Hpre).
    + intros pre rest' caps' E Hpne Hpre. exfalso.
      refine (no_run_from (fun c => negb (isQuote c)) q2 _ pre rest' _ E Hpne Hpre).
      now rewrite Hq2.
  - intros pre rest' caps' E Hpne Hpre.
    rewrite tag_text_assoc in E.
    assert (HT : allChars (isNot ">") ("src=" ++ String q1 (src ++ String q2 after))
                 = true).
    { cbn [append allChars]. rewrite (quote_not_gt q1 Hq1).
      rewrite allChars_app. cbn [allChars].
      rewrite Hs, Ha, (quote_not_gt q2 Hq2). reflexivity. }
    destruct (run_inside ">" pre rest' _ rest Hpre HT (eq_sym E))
      as (t2 & ET & ->).
    destruct pre as [|y pre]; [now destruct Hpne|].
    cbn [append] in ET. injection ET as _ ET.
    apply quotedSrc_head. apply quotedSrc_before_gt.
    apply (test_false_suffix quotedSrc pre t2). rewrite <- ET.
    now apply quotedSrc_after_s.
Qed.

(** The scan of a document made of plain text around one match. *)
Lemma scan_single_hit (r : regex) (pre m post : string) (caps : list string) :
  startsAtLt r ->
  allChars (isNot "<") pre = true ->
  allChars (isNot "<") post = true ->
  m <> EmptyString ->
  exec r (m ++ post) = Some (caps, post) ->
  scan r (pre ++ m ++ post) = (lits pre ++ Hit m caps :: lits post)%list.
Proof.
  intros Hr Hpre Hpost Hne E. unfold scan.
  rewrite (scan_plain r pre _ Hr Hpre). f_equal.
  destruct m as [|c m]; [now destruct Hne|].
  cbn [append] in E |- *.
  rewrite (scanFrom_hit _ _ _ post caps (String.length m) E).
  - f_equal.
    + f_equal. change (String c (m ++ post)) with (String c m ++ post).
      apply consumed_app.
    + rewrite scanFrom_skip_all. now apply scan_plain_all.
  - cbn [String.length]. rewrite length_append. lia.
Qed.

Lemma imgElement_app (before : string) (q1 : ascii) (src : string) (q2 : ascii)
      (after post : string) :
  imgElement before q1 src q2 after ++ post
  = "<img" ++ before ++ "src="
      ++ String q1 (src ++ String q2 (after ++ String ">" post)).
Proof.
  unfold imgElement.
  change ("src=" ++ String q1 (src ++ String q2 (after ++ ">")))
    with ("src=" ++ String q1 EmptyString ++ src ++ String q2 EmptyString
            ++ after ++ ">").
  change ("src=" ++ String q1 (src ++ String q2 (after ++ String ">" post)))
    with ("src=" ++ String q1 EmptyString ++ src ++ String q2 EmptyString
            ++ after ++ ">" ++ post).
  now rewrite !append_assoc.
Qed.

(** A document made of plain text around one simple [<img>] tag: the tag
    is the match of rank 1, its groups are the attribute text before
    [src=], the value and the attribute text after it, and the document
    comes back with the callback's text in place of the tag. *)
Lemma single_image_document (pre before src after post : string)
        (q1 q2 : ascii) (dimensions : Dimensions) (basePath : string)
        (spImages : list string) :
  plainText pre = true ->
  plainText post = true ->
  simpleImg before q1 src q2 after = true ->
  scan imgRegex (pre ++ imgElement before q1 src q2 after ++ post)
  = (lits pre ++ Hit (imgElement before q1 src q2 after) [before; src; after]
       :: lits post)%list
  /\ processImages (pre ++ imgElement before q1 src q2 after ++ post)
                   dimensions basePath spImages
     = (pre ++ rewriteImg dimensions (normalizePrefix basePath) spImages 1
                          before src after ++ post, []).
Proof.
  unfold plainText, simpleImg. intros Hpre Hpost H.
  repeat (apply andb_true_iff in H; destruct H as [H ?]).
  unfold plainText in *.
  match goal with
  | Hn : negb _ = true |- _ => apply negb_true_iff in Hn
  end.
  assert (Hsrc : src <> EmptyString) by (destruct src; [discriminate | discriminate]).
  assert (Hexec : exec imgRegex (imgElement before q1 src q2 after ++ post)
                  = Some ([before; src; after], post)).
  { rewrite imgElement_app. now apply imgRegex_tag. }
  assert (Hscan : scan imgRegex (pre ++ imgElement before q1 src q2 after ++ post)
                  = (lits pre
                       ++ Hit (imgElement before q1 src q2 after) [before; src; after]
                       :: lits post)%list).
  { apply scan_single_hit; try assumption.
    - apply imgRegex_startsAtLt.
    - unfold imgElement. cbn [append]. discriminate. }
  split; [exact Hscan|].
  unfold processImages, protectPictures, replaceAllWith.
  assert (Hpic : scan pictureRegex (pre ++ imgElement before q1 src q2 after ++ post)
                 = lits (pre ++ imgElement before q1 src q2 after ++ post)).
  { rewrite imgElement_app.
    change ("<img" ++ before ++ "src="
              ++ String q1 (src ++ String q2 (after ++ String ">" post)))
      with (String "<" ("img" ++ before ++ "src="
              ++ String q1 (src ++ String q2 (after ++ String ">" post)))).
    apply scan_single_lt.
    - apply pictureRegex_startsAtLt.
    - now apply pictureRegex_not_img.
    - exact Hpre.
    - cbn [append allChars]. rewrite allChars_app. cbn [append allChars].
      rewrite allChars_app. cbn [allChars]. rewrite allChars_app. cbn [allChars].
      repeat match goal with
             | Hx : _ = true |- _ => rewrite Hx; clear Hx
             end.
      rewrite (quote_not_lt q1), (quote_not_lt q2) by assumption.
      reflexivity. }
  rewrite Hpic, render_lits, Hscan, render_lits_app.
  cbn [render imgCallback]. rewrite render_lits. reflexivity.
Qed.

End TagFacts.


(** * The claims on the image tag rewriter *)

Section ImageClaims.
Import JsString.
Import Regex.
Import Generators.
Import ImageRewriter.
Import Notions.
Import StringFacts.
Import RegexFacts.
Import ImageFacts.
Import MatchFacts.
Import PrefixFacts.
Import PictureFacts.
Import TagFacts.

(** C2 fails on the script: the placeholder of a protected block is put
    back by [String.prototype.replace] with the block as the replacement
    string, and a replacement string gives [$$] (and [$&], [$`], [$'])
    a meaning.  A block whose text holds [$$$] comes back with [$$]. *)
Theorem picture_block_dollar_altered :
  fst (processImages pricedPicture [] EmptyString [])
  = "<picture><img src=" ++ q "hero.png" ++ " alt=" ++ q "$$" ++ "></picture>"
  /\ fst (processImages pricedPicture [] EmptyString []) <> pricedPicture.
Proof.
  split; [vm_compute; reflexivity|].
  vm_compute. discriminate.
Qed.

(** What the round trip of C2 keeps.  In a document made of plain text
    (no [<], and no [_] in front of the block) around one picture block
    whose body holds no [</] and no [$], the block comes back as it was,
    with the [<img>] elements nested in it. *)
Theorem plain_picture_block_restored (pre body post : string)
        (dimensions : Dimensions) (basePath : string) (spImages : list string) :
  allChars (isNot "<") pre = true ->
  allChars (isNot "_") pre = true ->
  allChars (isNot "<") post = true ->
  includes body "</" = false ->
  includes body "$" = false ->
  processImages (pre ++ "<picture" ++ body ++ "</picture>" ++ post)
                dimensions basePath spImages
  = (pre ++ "<picture" ++ body ++ "</picture>" ++ post, []).
Proof.
  intros Hpre Hus Hpost Hb Hd.
  unfold processImages, protectPictures, replaceAllWith.
  rewrite (scan_single_block pre body post Hpre Hpost Hb).
  rewrite render_lits_app. cbn [render protectPicture].
  rewrite render_lits. cbn [fst snd List.app List.length Nat.sub].
  change (placeholder 0) with "__PICTURE_PLACEHOLDER_0__".
  assert (Hplain : allChars (isNot "<")
                     (pre ++ "__PICTURE_PLACEHOLDER_0__" ++ post) = true).
  { rewrite !allChars_app, Hpre, Hpost. reflexivity. }
  unfold scan. rewrite (scan_plain_all imgRegex _ imgRegex_startsAtLt Hplain).
  rewrite render_lits. cbn [restorePictures].
  change (placeholder 0) with "__PICTURE_PLACEHOLDER_0__".
  unfold JsString.replace.
  rewrite (splitFirst_head_fresh "_" "_PICTURE_PLACEHOLDER_0__" pre post Hus).
  rewrite getSubstitution_plain.
  - now rewrite !append_assoc.
  - rewrite !includes_char_app, Hd. reflexivity.
Qed.

Lemma plain_picture_block_witness :
  processImages
    ("Intro " ++ "<picture"
       ++ ("><source srcset=" ++ q "a.webp" ++ "><img src=" ++ q "a.png" ++ ">")
       ++ "</picture>" ++ " outro")
    [("a.png", mkDimension 640 480)] "/lp" ["a.png"]
  = ("Intro <picture><source srcset=" ++ q "a.webp" ++ "><img src=" ++ q "a.png"
       ++ "></picture> outro", []).
Proof.
  exact (plain_picture_block_restored "Intro "
           ("><source srcset=" ++ q "a.webp" ++ "><img src=" ++ q "a.png" ++ ">")
           " outro" [("a.png", mkDimension 640 480)] "/lp" ["a.png"]
           eq_refl eq_refl eq_refl eq_refl eq_refl).
Defined.

(** A document made of plain text around one simple [<img>] tag: the tag
    is the one match of the pass, its groups are the attribute text
    before [src=], the value and the attribute text after it, and the
    document comes back with the callback's text for rank 1 in place of
    the tag. *)
Theorem single_image_rewritten (pre before src after post : string)
        (q1 q2 : ascii) (dimensions : Dimensions) (basePath : string)
        (spImages : list string) :
  plainText pre = true ->
  plainText post = true ->
  simpleImg before q1 src q2 after = true ->
  scan imgRegex (pre ++ imgElement before q1 src q2 after ++ post)
  = (lits pre ++ Hit (imgElement before q1 src q2 after) [before; src; after]
       :: lits post)%list
  /\ processImages (pre ++ imgElement before q1 src q2 after ++ post)
                   dimensions basePath spImages
     = (pre ++ rewriteImg dimensions (normalizePrefix basePath) spImages 1
                          before src after ++ post, []).
Proof. apply single_image_document. Qed.

Lemma single_image_witness :
  processImages ("Hero: " ++ imgElement " class='hero' " dqChar "images/hero.png"
                                        dqChar (" alt=" ++ q "Hero") ++ ".")
                [("src/images/hero.png", mkDimension 1920 1080)] EmptyString []
  = ("Hero: "
       ++ pictureBlock
            [ "<source srcset=" ++ q "images/hero.avif" ++ " type="
                ++ q "image/avif" ++ ">";
              "<source srcset=" ++ q "images/hero.webp" ++ " type="
                ++ q "image/webp" ++ ">";
              "<img class='hero' src=" ++ q "images/hero.png" ++ " alt="
                ++ q "Hero" ++ " width=" ++ q "1920" ++ " height=" ++ q "1080"
                ++ ">" ]
       ++ ".", []).
Proof.
  exact (proj2 (single_image_rewritten "Hero: " " class='hero' "
                  "images/hero.png" (" alt=" ++ q "Hero") "." dqChar dqChar
                  [("src/images/hero.png", mkDimension 1920 1080)] EmptyString []
                  eq_refl eq_refl eq_refl)).
Defined.

End ImageClaims.


(** ** Escaping *)

Module EscapeFacts.
Import JsString.
Import Regex.
Import Generators.
Import Notions.
Import TextNotions.
Import StringFacts.
Import RegexFacts.

Lemma exec_chr (c d : ascii) (s : string) :
  exec (chr c) (String d s) = if Ascii.eqb c d then Some ([], s) else None.
Proof. reflexivity. Qed.

(** A global replacement of one character by a text without [$]. *)
Lemma replaceAll_chr (c : ascii) (repl : string) :
  includes repl "$" = false ->
  forall s seen,
    substAll repl seen (scanFrom (chr c) 0 s) s = substChar c repl s.
Proof.
  intros Hr s. induction s as [|d s IH]; intro seen; [reflexivity|].
  pose proof (exec_chr c d s) as E.
  cbn [substChar].
  destruct (Ascii.eqb c d) eqn:Hd.
  - rewrite (scanFrom_hit _ _ _ s [] 0 E) by (cbn [String.length]; lia).
    cbn [substAll].
    assert (Hm : consumed (String d s) s = String d EmptyString).
    { unfold consumed.
      replace (String.length (String d s) - String.length s) with 1
        by (cbn [String.length]; lia).
      reflexivity. }
    rewrite Hm. cbn [String.length drop].
    rewrite getSubstitution_plain by exact Hr.
    now rewrite IH.
  - rewrite (scanFrom_miss _ _ _ E). cbn [substAll drop append].
    now rewrite IH.
Qed.

Lemma replaceAll_substChar (c : ascii) (repl s : string) :
  includes repl "$" = false ->
  replaceAll (chr c) repl s = substChar c repl s.
Proof. intro H. unfold replaceAll, scan. now apply replaceAll_chr. Qed.

Lemma substChar_app (c : ascii) (repl a b : string) :
  substChar c repl (a ++ b) = substChar c repl a ++ substChar c repl b.
Proof.
  induction a as [|d a IH]; [reflexivity|].
  cbn [append substChar]. now rewrite IH, append_assoc.
Qed.

Lemma escapeHtml_chars (s : string) : escapeHtml s = escapeChars s.
Proof.
  unfold escapeHtml. destruct (nonEmpty s) eqn:Hs; [|now destruct s].
  clear Hs.
  rewrite !replaceAll_substChar by reflexivity.
  induction s as [|c s IH]; [reflexivity|].
  cbn [substChar escapeChars]. rewrite !substChar_app, IH. f_equal.
  unfold escapeChar.
  rewrite (Ascii.eqb_sym c "&"), (Ascii.eqb_sym c "<"), (Ascii.eqb_sym c ">"),
    (Ascii.eqb_sym c dqChar), (Ascii.eqb_sym c "'").
  destruct (Ascii.eqb "&" c) eqn:H1; [reflexivity|].
  cbn [substChar append]. 
  destruct (Ascii.eqb "<" c) eqn:H2; [reflexivity|].
  cbn [substChar append].
  destruct (Ascii.eqb ">" c) eqn:H3; [reflexivity|].
  cbn [substChar append].
  destruct (Ascii.eqb dqChar c) eqn:H4; [reflexivity|].
  cbn [substChar append].
  destruct (Ascii.eqb "'" c) eqn:H5; reflexivity.
Qed.

Lemma escapeChar_markupFree (c : ascii) : markupFree (escapeChar c) = true.
Proof.
  unfold escapeChar, markupFree.
  destruct (Ascii.eqb c "&") eqn:H1; [reflexivity|].
  destruct (Ascii.eqb c "<") eqn:H2; [reflexivity|].
  destruct (Ascii.eqb c ">") eqn:H3; [reflexivity|].
  destruct (Ascii.eqb c dqChar) eqn:H4; [reflexivity|].
  destruct (Ascii.eqb c "'") eqn:H5; [reflexivity|].
  cbn [allChars]. unfold isMarkup. now rewrite H2, H3, H4, H5.
Qed.

Lemma escapeChars_markupFree (s : string) : markupFree (escapeChars s) = true.
Proof.
  induction s as [|c s IH]; [reflexivity|].
  cbn [escapeChars]. pose proof (escapeChar_markupFree c) as Hc.
  unfold markupFree in *. now rewrite allChars_app, IH, Hc.
Qed.

Lemma escapeChar_dollar (c : ascii) :
  includes (escapeChar c) "$" = includes (String c EmptyString) "$".
Proof.
  unfold escapeChar.
  destruct (Ascii.eqb c "&") eqn:H1;
    [apply Ascii.eqb_eq in H1; subst; reflexivity|].
  destruct (Ascii.eqb c "<") eqn:H2;
    [apply Ascii.eqb_eq in H2; subst; reflexivity|].
  destruct (Ascii.eqb c ">") eqn:H3;
    [apply Ascii.eqb_eq in H3; subst; reflexivity|].
  destruct (Ascii.eqb c dqChar) eqn:H4;
    [apply Ascii.eqb_eq in H4; subst; reflexivity|].
  destruct (Ascii.eqb c "'") eqn:H5;
    [apply Ascii.eqb_eq in H5; subst; reflexivity|].
  reflexivity.
Qed.

(** Escaping neither adds nor removes a dollar. *)
Lemma escapeChars_dollar (s : string) :
  includes (escapeChars s) "$" = includes s "$".
Proof.
  induction s as [|c s IH]; [reflexivity|].
  cbn [escapeChars]. rewrite includes_char_app, IH, escapeChar_dollar.
  change (String c s) with (String c EmptyString ++ s).
  now rewrite includes_char_app.
Qed.

Lemma escapeChar_cases (c : ascii) :
  (escapeChar c = String c EmptyString /\ Ascii.eqb c "&" = false)
  \/ (exists t, escapeChar c = String "&" t /\ t <> EmptyString
                /\ (c = "&" \/ c = "<" \/ c = ">" \/ c = dqChar \/ c = "'")%char).
Proof.
  unfold escapeChar.
  destruct (Ascii.eqb c "&") eqn:H1;
    [apply Ascii.eqb_eq in H1; right; eexists; repeat split; [discriminate | auto]|].
  destruct (Ascii.eqb c "<") eqn:H2;
    [apply Ascii.eqb_eq in H2; right; eexists; repeat split; [discriminate | auto]|].
  destruct (Ascii.eqb c ">") eqn:H3;
    [apply Ascii.eqb_eq in H3; right; eexists; repeat split; [discriminate | auto]|].
  destruct (Ascii.eqb c dqChar) eqn:H4;
    [apply Ascii.eqb_eq in H4; right; eexists; repeat split; [discriminate | auto 6]|].
  destruct (Ascii.eqb c "'") eqn:H5;
    [apply Ascii.eqb_eq in H5; right; eexists; repeat split; [discriminate | auto 6]|].
  left. split; reflexivity.
Qed.

(** The code of a character, followed by anything, tells the character. *)
Lemma escapeChar_prefix_free (c d : ascii) (x y : string) :
  escapeChar c ++ x = escapeChar d ++ y -> c = d /\ x = y.
Proof.
  destruct (escapeChar_cases c) as [[Ec Hc] | (t & Ec & Ht & Hc)];
    destruct (escapeChar_cases d) as [[Ed Hd] | (u & Ed & Hu & Hd)].
  - rewrite Ec, Ed. cbn [append]. intro H. injection H as -> ->. now split.
  - rewrite Ec, Ed. cbn [append]. intro H. injection H as -> _.
    discriminate Hc.
  - rewrite Ec, Ed. cbn [append]. intro H. injection H as <- _.
    discriminate Hd.
  - clear Ec Ed Ht Hu t u.
    destruct Hc as [-> | [-> | [-> | [-> | ->]]]];
      destruct Hd as [-> | [-> | [-> | [-> | ->]]]];
      cbn; intro H; try discriminate H;
      (split; [reflexivity | now inversion H]).
Qed.

Lemma escapeChars_injective (a : string) :
  forall b, escapeChars a = escapeChars b -> a = b.
Proof.
  induction a as [|c a IH]; intros [|d b] H; [reflexivity | | |].
  - cbn [escapeChars] in H.
    destruct (escapeChar_cases d) as [[Ed _] | (u & Ed & _)];
      rewrite Ed in H; discriminate H.
  - cbn [escapeChars] in H.
    destruct (escapeChar_cases c) as [[Ec _] | (u & Ec & _)];
      rewrite Ec in H; discriminate H.
  - cbn [escapeChars] in H.
    destruct (escapeChar_prefix_free c d _ _ H) as [-> H'].
    now rewrite (IH b H').
Qed.

End EscapeFacts.


(** ** The meta tags *)

Module MetaFacts.
Import JsString.
Import Regex.
Import Generators.
Import Notions.
Import TextNotions.
Import GeneratorNotions.
Import StringFacts.
Import RegexFacts.
Import EscapeFacts.

Lemma markupFree_quoteFree (s : string) :
  markupFree s = true -> quoteFree s = true.
Proof.
  unfold markupFree, quoteFree. induction s as [|c s IH]; [reflexivity|].
  cbn [allChars]. intro H. apply andb_true_iff in H as [Hc H].
  rewrite (IH H), andb_true_r. unfold isMarkup in Hc. unfold isNot.
  destruct (Ascii.eqb c dqChar); [|reflexivity].
  now rewrite !orb_true_r in Hc.
Qed.

Lemma escapeHtml_quoteFree (s : string) : quoteFree (escapeHtml s) = true.
Proof.
  apply markupFree_quoteFree. rewrite escapeHtml_chars.
  apply escapeChars_markupFree.
Qed.

(** The tags of the fragment, one per line after the comment. *)
Lemma generateMetaTags_lines (env : Env) :
  quoteFree (orDefault (env "OG_IMAGE_WIDTH") "1200") = true ->
  quoteFree (orDefault (env "OG_IMAGE_HEIGHT") "630") = true ->
  quoteFree (orDefault (env "OG_LOCALE") "ja_JP") = true ->
  quoteFree (orDefault (env "TWITTER_CARD") "summary_large_image") = true ->
  exists tags,
    generateMetaTags env = "<!-- OGP -->" ++ LF ++ join LF tags
    /\ Forall metaTag tags
    /\ 3 <= List.length tags <= 15.
Proof.
  intros Hw Hh Hl Hc. unfold generateMetaTags. cbv zeta.
  match goal with
  | |- context [if Nat.ltb 0 (List.length ?t) then _ else _] => set (tags := t)
  end.
  exists tags.
  assert (HF : Forall metaTag tags).
  { subst tags.
    repeat (apply Forall_app; split);
      repeat match goal with
             | |- Forall _ (pushIf ?b _) => destruct b; cbn [pushIf]
             | |- Forall _ (if ?b then _ else _) => destruct b
             | |- Forall _ (_ :: _) => constructor
             | |- Forall _ [] => constructor
             | |- metaTag (metaProperty _ _) => apply MetaProperty
             | |- metaTag (metaName _ _) => apply MetaName
             | |- quoteFree (escapeHtml _) = true => apply escapeHtml_quoteFree
             end; try reflexivity; assumption. }
  assert (HL : 3 <= List.length tags <= 15).
  { subst tags. rewrite !length_app.
    repeat match goal with
           | |- context [pushIf ?b _] => destruct b; cbn [pushIf]
           | |- context [List.length (if ?b then _ else _)] => destruct b
           end; cbn [List.length]; lia. }
  split; [|split; [exact HF | exact HL]].
  destruct (Nat.ltb 0 (List.length tags)) eqn:E; [reflexivity|].
  apply Nat.ltb_ge in E. lia.
Qed.

End MetaFacts.


(** ** White space *)

Module SpaceFacts.
Import JsString.
Import Regex.
Import Notions.
Import SpaceNotions.
Import StringFacts.

(** Two texts that start the same text: one starts the other. *)
Lemma startsWith_comparable (s a b : string) :
  startsWith s a = true -> startsWith s b = true ->
  startsWith a b = true \/ startsWith b a = true.
Proof.
  revert s b; induction a as [|x a IH]; intros s b Ha Hb; [now right; destruct b|].
  destruct b as [|y b]; [now left|].
  destruct s as [|c s]; [discriminate|].
  cbn [startsWith] in *.
  apply andb_true_iff in Ha as [Hx Ha]. apply andb_true_iff in Hb as [Hy Hb].
  apply Ascii.eqb_eq in Hx, Hy. subst x y. rewrite Ascii.eqb_refl. cbn [andb].
  exact (IH s b Ha Hb).
Qed.

Lemma startsWith_drop (s w : string) :
  startsWith s w = true -> s = w ++ drop (String.length w) s.
Proof.
  revert s; induction w as [|x w IH]; intros s H; [reflexivity|].
  destruct s as [|c s]; [discriminate|].
  cbn [startsWith] in H. apply andb_true_iff in H as [Hx H].
  apply Ascii.eqb_eq in Hx. subst x. cbn [String.length drop append].
  now rewrite <- (IH s H).
Qed.

(** In a list of texts none of which starts another, one text at most
    starts a given text. *)
Lemma find_prefixFree (ws : list string) (s w : string) :
  prefixFree ws = true -> In w ws -> startsWith s w = true ->
  List.find (startsWith s) ws = Some w.
Proof.
  induction ws as [|x ws IH]; intros Hf Hin Hs; [destruct Hin|].
  cbn [prefixFree] in Hf. apply andb_true_iff in Hf as [Hx Hf].
  cbn [List.find]. destruct Hin as [-> | Hin]; [now rewrite Hs|].
  destruct (startsWith s x) eqn:E; [|now apply IH].
  exfalso. rewrite List.forallb_forall in Hx. specialize (Hx w Hin).
  apply andb_true_iff in Hx as [H1 H2].
  apply negb_true_iff in H1, H2.
  destruct (startsWith_comparable s x w E Hs); congruence.
Qed.

Lemma find_none_prefixFree (ws : list string) (s w : string) :
  prefixFree ws = true -> In w ws -> startsWith s w = true ->
  forall x, In x ws -> x <> w -> startsWith s x = false.
Proof.
  intros Hf Hin Hs x Hx Hne.
  destruct (startsWith s x) eqn:E; [|reflexivity].
  pose proof (find_prefixFree ws s w Hf Hin Hs) as F1.
  pose proof (find_prefixFree ws s x Hf Hx E) as F2.
  congruence.
Qed.

Lemma spaces_prefixFree : prefixFree spaces = true.
Proof. vm_compute. reflexivity. Qed.

Lemma spaces_nonEmpty (w : string) : In w spaces -> nonEmpty w = true.
Proof.
  intro H.
  assert (A : List.forallb nonEmpty spaces = true) by (vm_compute; reflexivity).
  rewrite List.forallb_forall in A. now apply A.
Qed.

(** What [stripSpace] finds. *)
Lemma stripSpace_some (s r : string) :
  stripSpace s = Some r ->
  exists w, In w spaces /\ s = w ++ r /\ String.length r < String.length s.
Proof.
  unfold stripSpace. destruct (List.find (startsWith s) spaces) as [w|] eqn:E;
    [|discriminate].
  intro H. injection H as <-. apply List.find_some in E as [Hin Hs].
  exists w. split; [exact Hin|]. pose proof (startsWith_drop s w Hs) as Hd.
  split; [exact Hd|].
  pose proof (spaces_nonEmpty w Hin) as Hne.
  rewrite Hd at 2. rewrite length_append.
  destruct w; [discriminate | cbn [String.length]; lia].
Qed.

Lemma stripSpace_app (w r : string) :
  In w spaces -> stripSpace (w ++ r) = Some r.
Proof.
  intro Hin. unfold stripSpace.
  rewrite (find_prefixFree spaces (w ++ r) w spaces_prefixFree Hin)
    by apply startsWith_self_app.
  now rewrite drop_length_app.
Qed.

(** The fuel of [trimStartN] does not matter once it reaches the length. *)
Lemma trimStartN_enough (n : nat) :
  forall m s, String.length s <= n -> String.length s <= m ->
              trimStartN n s = trimStartN m s.
Proof.
  induction n as [|n IH]; intros m s Hn Hm.
  - destruct s; [|cbn in Hn; lia]. now destruct m.
  - destruct m as [|m].
    + destruct s; [reflexivity | cbn in Hm; lia].
    + cbn [trimStartN]. destruct (stripSpace s) as [r|] eqn:E; [|reflexivity].
      destruct (stripSpace_some s r E) as (w & _ & _ & L).
      apply IH; lia.
Qed.

Lemma trimStart_step (s : string) :
  trimStart s = match stripSpace s with
                | Some r => trimStart r
                | None => s
                end.
Proof.
  unfold trimStart. destruct s as [|c s]; [reflexivity|].
  cbn [String.length trimStartN].
  destruct (stripSpace (String c s)) as [r|] eqn:E; [|reflexivity].
  destruct (stripSpace_some _ r E) as (w & _ & _ & L).
  cbn [String.length] in L. apply trimStartN_enough; lia.
Qed.

Lemma trimStart_space (w r : string) :
  In w spaces -> trimStart (w ++ r) = trimStart r.
Proof. intro H. now rewrite trimStart_step, (stripSpace_app w r H). Qed.

(** Induction on a text, one white space character or one element at a
    time. *)
Lemma space_ind (P : string -> Prop) :
  (forall s, stripSpace s = None -> P s) ->
  (forall w r, In w spaces -> P r -> P (w ++ r)) ->
  forall s, P s.
Proof.
  intros Hnone Hsome s.
  remember (String.length s) as n eqn:En.
  revert s En. induction n as [n IH] using lt_wf_ind. intros s En.
  destruct (stripSpace s) as [r|] eqn:E; [|now apply Hnone].
  destruct (stripSpace_some s r E) as (w & Hin & -> & L).
  apply Hsome; [exact Hin|]. apply (IH (String.length r)); [lia | reflexivity].
Qed.

Lemma trimStart_idem (s : string) : trimStart (trimStart s) = trimStart s.
Proof.
  induction s as [s E | w r Hin IH] using space_ind.
  - rewrite (trimStart_step s), E. now rewrite trimStart_step, E.
  - now rewrite (trimStart_space w r Hin).
Qed.

(** [trimStart] keeps the end of the text. *)
Lemma trimStart_suffix (s : string) : exists t, s = t ++ trimStart s.
Proof.
  induction s as [s E | w r Hin [t IH]] using space_ind.
  - exists EmptyString. now rewrite trimStart_step, E.
  - exists (w ++ t). rewrite (trimStart_space w r Hin), append_assoc.
    now rewrite <- IH.
Qed.

(** An element that belongs to no white space character. *)
Lemma startsWith_plain_app (c : ascii) (w k b : string) :
  allChars (isNot c) w = true ->
  startsWith (k ++ String c b) w = startsWith k w.
Proof.
  revert k; induction w as [|x w IH]; intros k H; [reflexivity|].
  cbn [allChars] in H. apply andb_true_iff in H as [Hx H].
  destruct k as [|y k]; cbn [append startsWith].
  - unfold isNot in Hx. apply negb_true_iff in Hx. now rewrite Hx.
  - now rewrite (IH k H).
Qed.

Lemma find_ext {A : Type} (f g : A -> bool) (xs : list A) :
  (forall x, In x xs -> f x = g x) -> List.find f xs = List.find g xs.
Proof.
  induction xs as [|x xs IH]; intro H; [reflexivity|]. cbn [List.find].
  rewrite (H x) by (now left). destruct (g x); [reflexivity|].
  apply IH. intros y Hy. apply H. now right.
Qed.

Lemma plainChar_spec (c : ascii) (w : string) :
  plainChar c = true -> In w spaces -> allChars (isNot c) w = true.
Proof.
  unfold plainChar. intros H Hin. rewrite List.forallb_forall in H.
  now apply H.
Qed.

Lemma drop_app_short (n : nat) (a b : string) :
  n <= String.length a -> drop n (a ++ b) = drop n a ++ b.
Proof.
  revert a; induction n as [|n IH]; intros a L; [reflexivity|].
  destruct a as [|x a]; [cbn in L; lia|].
  cbn [append drop]. apply IH. cbn [String.length] in L. lia.
Qed.

Lemma startsWith_len (s p : string) :
  startsWith s p = true -> String.length p <= String.length s.
Proof.
  revert s; induction p as [|c p IH]; intros s H; [cbn; lia|].
  destruct s as [|d s]; [discriminate|].
  cbn [startsWith] in H. apply andb_true_iff in H as [_ H].
  cbn [String.length]. specialize (IH s H). lia.
Qed.

Lemma stripSpace_plain_app (c : ascii) (k b : string) :
  plainChar c = true ->
  stripSpace (k ++ String c b)
  = match stripSpace k with
    | Some r => Some (r ++ String c b)
    | None => None
    end.
Proof.
  intro Hc. unfold stripSpace.
  rewrite (find_ext (startsWith (k ++ String c b)) (startsWith k) spaces).
  - destruct (List.find (startsWith k) spaces) as [w|] eqn:E; [|reflexivity].
    apply List.find_some in E as [_ Hs].
    now rewrite (drop_app_short _ k _ (startsWith_len k w Hs)).
  - intros w Hin. apply startsWith_plain_app. now apply plainChar_spec.
Qed.

Lemma stripSpace_plain (c : ascii) (b : string) :
  plainChar c = true -> stripSpace (String c b) = None.
Proof.
  intro Hc. pose proof (stripSpace_plain_app c EmptyString b Hc) as H.
  cbn [append] in H. rewrite H. reflexivity.
Qed.

Lemma trimStart_app (k : string) (c : ascii) (b : string) :
  plainChar c = true ->
  trimStart (k ++ String c b) = trimStart k ++ String c b.
Proof.
  intro Hc. induction k as [k E | w r Hin IH] using space_ind.
  - rewrite (trimStart_step k), E.
    now rewrite trimStart_step, (stripSpace_plain_app c k b Hc), E.
  - rewrite append_assoc, !(trimStart_space w _ Hin). exact IH.
Qed.

Lemma isBlank_app (k : string) (c : ascii) (b : string) :
  plainChar c = true -> isBlank (k ++ String c b) = false.
Proof.
  intro Hc. unfold isBlank. rewrite (trimStart_app k c b Hc).
  now destruct (trimStart k).
Qed.

Lemma trimEnd_app (a : string) (c : ascii) (b : string) :
  plainChar c = true ->
  trimEnd (a ++ String c b) = a ++ String c (trimEnd b).
Proof.
  intro Hc. induction a as [|x a IH]; cbn [append trimEnd].
  - pose proof (isBlank_app EmptyString c b Hc) as H. cbn [append] in H.
    now rewrite H.
  - change (String x (a ++ String c b)) with (String x a ++ String c b).
    now rewrite (isBlank_app (String x a) c b Hc), IH.
Qed.

Lemma find_all_false {A : Type} (f : A -> bool) (xs : list A) :
  (forall x, In x xs -> f x = false) -> List.find f xs = None.
Proof.
  induction xs as [|x xs IH]; intro H; [reflexivity|]. cbn [List.find].
  rewrite (H x) by (now left). apply IH. intros y Hy. apply H. now right.
Qed.

Lemma stripSpace_inner (c : ascii) (s : string) :
  startsNoSpace c = true -> stripSpace (String c s) = None.
Proof.
  unfold startsNoSpace, stripSpace. intro H. rewrite List.forallb_forall in H.
  rewrite find_all_false; [reflexivity|].
  intros w Hin. specialize (H w Hin). apply negb_true_iff in H.
  pose proof (spaces_nonEmpty w Hin) as Hne.
  destruct w as [|d w]; [discriminate|].
  cbn [startsWith] in H |- *. rewrite andb_true_r in H.
  rewrite Ascii.eqb_sym in H. now rewrite H.
Qed.

Lemma spaces_inner (w x1 x2 : string) :
  In w spaces -> w = x1 ++ x2 -> x1 <> EmptyString -> x2 <> EmptyString ->
  exists c x, x2 = String c x /\ startsNoSpace c = true.
Proof.
  intros Hin -> H1 H2.
  assert (A : List.forallb innerElements spaces = true)
    by (vm_compute; reflexivity).
  rewrite List.forallb_forall in A. specialize (A _ Hin).
  unfold innerElements in A. rewrite List.forallb_forall in A.
  specialize (A (String.length x1)).
  rewrite drop_length_app in A.
  destruct x2 as [|c x]; [now destruct H2|].
  exists c, x. split; [reflexivity|]. apply A. apply List.in_seq.
  rewrite length_append. destruct x1; [now destruct H1|].
  cbn [String.length]. lia.
Qed.

Lemma trimStart_none (s : string) : stripSpace s = None -> trimStart s = s.
Proof. intro E. now rewrite trimStart_step, E. Qed.

Lemma isBlank_space (w r : string) :
  In w spaces -> isBlank (w ++ r) = isBlank r.
Proof. intro H. unfold isBlank. now rewrite (trimStart_space w r H). Qed.

Lemma trimEnd_skip (x r : string) :
  (forall x1 x2, x = x1 ++ x2 -> x2 <> EmptyString ->
                 isBlank (x2 ++ r) = false) ->
  trimEnd (x ++ r) = x ++ trimEnd r.
Proof.
  induction x as [|c x IH]; intro H; [reflexivity|].
  cbn [append trimEnd].
  change (String c (x ++ r)) with (String c x ++ r).
  rewrite (H EmptyString (String c x) eq_refl) by discriminate.
  rewrite IH; [reflexivity|].
  intros x1 x2 -> Hx2. now apply (H (String c x1) x2).
Qed.

(** [trimEnd] goes over a white space character in one step. *)
Lemma trimEnd_space (w r : string) :
  In w spaces ->
  trimEnd (w ++ r) = if isBlank r then EmptyString else w ++ trimEnd r.
Proof.
  intro Hin. destruct (isBlank r) eqn:Hb.
  - pose proof (spaces_nonEmpty w Hin) as Hne.
    pose proof (isBlank_space w r Hin) as Hw. rewrite Hb in Hw.
    destruct w as [|c w]; [discriminate|].
    cbn [append trimEnd] in Hw |- *. now rewrite Hw.
  - apply trimEnd_skip. intros x1 x2 E Hx2.
    destruct x1 as [|y x1].
    + cbn [append] in E. subst x2. now rewrite (isBlank_space w r Hin).
    + destruct (spaces_inner w (String y x1) x2 Hin E ltac:(discriminate) Hx2)
        as (c & x & -> & Hc).
      unfold isBlank. cbn [append].
      now rewrite (trimStart_none _ (stripSpace_inner c (x ++ r) Hc)).
Qed.

(** [trimEnd] keeps the head of the text. *)
Lemma trimEnd_prefix (s : string) : exists t, s = trimEnd s ++ t.
Proof.
  induction s as [|c s [t IH]]; [now exists EmptyString|].
  cbn [trimEnd]. destruct (isBlank (String c s)).
  - now exists (String c s).
  - exists t. cbn [append]. now rewrite <- IH.
Qed.

Lemma trim_commute (s : string) : trimStart (trimEnd s) = trimEnd (trimStart s).
Proof.
  induction s as [s E | w r Hin IH] using space_ind.
  - rewrite (trimStart_none s E). apply trimStart_none.
    destruct (stripSpace (trimEnd s)) as [r|] eqn:E'; [|reflexivity].
    exfalso. destruct (stripSpace_some _ r E') as (w & Hin & Hw & _).
    destruct (trimEnd_prefix s) as [t Ht].
    rewrite Hw, append_assoc in Ht.
    rewrite Ht, (stripSpace_app w _ Hin) in E. discriminate E.
  - rewrite (trimStart_space w r Hin), (trimEnd_space w r Hin).
    destruct (isBlank r) eqn:Hb.
    + unfold isBlank in Hb. destruct (trimStart r); [reflexivity | discriminate].
    + now rewrite (trimStart_space w _ Hin).
Qed.

Lemma isBlank_trimEnd (s : string) :
  isBlank s = false -> isBlank (trimEnd s) = false.
Proof.
  unfold isBlank at 2. rewrite trim_commute. unfold isBlank.
  intro H. pose proof (trimStart_idem s) as Hi.
  destruct (trimStart s) as [|c t] eqn:E; [discriminate|].
  cbn [trimEnd]. unfold isBlank. rewrite Hi. reflexivity.
Qed.

Lemma trimEnd_idem (s : string) : trimEnd (trimEnd s) = trimEnd s.
Proof.
  induction s as [|c s IH]; [reflexivity|]. cbn [trimEnd].
  destruct (isBlank (String c s)) eqn:Hb; [reflexivity|].
  pose proof (isBlank_trimEnd _ Hb) as H. cbn [trimEnd] in H.
  rewrite Hb in H. cbn [trimEnd]. now rewrite H, IH.
Qed.

Lemma trim_trimStart (s : string) : trim (trimStart s) = trim s.
Proof. unfold trim. now rewrite trimStart_idem. Qed.

Lemma trim_trimEnd (s : string) : trim (trimEnd s) = trim s.
Proof. unfold trim. now rewrite trim_commute, trimEnd_idem. Qed.

Lemma allChars_trimStart (p : ascii -> bool) (s : string) :
  allChars p s = true -> allChars p (trimStart s) = true.
Proof.
  destruct (trimStart_suffix s) as [t E]. rewrite E at 1.
  rewrite allChars_app. intro H. now apply andb_true_iff in H as [_ H].
Qed.

(** A text of white space characters. *)
Lemma isBlank_cases (s : string) :
  isBlank s = true ->
  s = EmptyString \/ exists w r, In w spaces /\ s = w ++ r /\ isBlank r = true.
Proof.
  intro H. destruct (stripSpace s) as [r|] eqn:E.
  - destruct (stripSpace_some s r E) as (w & Hin & -> & _).
    right. exists w, r. repeat split; try assumption.
    now rewrite (isBlank_space w r Hin) in H.
  - left. unfold isBlank in H. rewrite (trimStart_none s E) in H.
    now destruct s.
Qed.

End SpaceFacts.


(** ** Trimming and splitting *)

Module SplitFacts.
Import JsString.
Import Notions.
Import StringFacts.
Import SpaceFacts.

(** The fields on both sides of a separator. *)
Lemma splitOn_app (sep : ascii) (a b : string) :
  forall cur,
    splitOn sep cur (a ++ String sep b)
    = (splitOn sep cur a ++ splitOn sep EmptyString b)%list.
Proof.
  induction a as [|x a IH]; intro cur; cbn [append splitOn].
  - now rewrite Ascii.eqb_refl.
  - destruct (Ascii.eqb x sep); [|apply IH].
    cbn [List.app]. now rewrite IH.
Qed.

Lemma splitOn_plain (sep : ascii) (a : string) :
  allChars (isNot sep) a = true ->
  forall cur, splitOn sep cur a = [cur ++ a].
Proof.
  induction a as [|x a IH]; intros H cur; cbn [splitOn].
  - now rewrite append_nil_r.
  - cbn [allChars] in H. apply andb_true_iff in H as [Hx H].
    unfold isNot in Hx. apply negb_true_iff in Hx. rewrite Hx.
    rewrite (IH H). now rewrite append_assoc.
Qed.

Lemma split_app (sep : ascii) (a b : string) :
  split sep (a ++ String sep b) = (split sep a ++ split sep b)%list.
Proof. apply splitOn_app. Qed.

Lemma split_plain (sep : ascii) (a : string) :
  allChars (isNot sep) a = true -> split sep a = [a].
Proof. intro H. unfold split. now rewrite (splitOn_plain sep a H). Qed.

Lemma splitOn_cons (sep : ascii) (s : string) :
  forall cur, exists x xs, splitOn sep cur s = x :: xs.
Proof.
  induction s as [|c s IH]; intro cur; cbn [splitOn]; [eauto|].
  destruct (Ascii.eqb c sep); [eauto | apply IH].
Qed.

Lemma join_cons (sep x y : string) (ys : list string) :
  join sep (x :: y :: ys) = x ++ sep ++ join sep (y :: ys).
Proof. reflexivity. Qed.

(** Joining the fields with the separator gives the text back. *)
Lemma join_splitOn (sep : ascii) (s : string) :
  forall cur, join (String sep EmptyString) (splitOn sep cur s) = cur ++ s.
Proof.
  induction s as [|c s IH]; intro cur; cbn [splitOn].
  - cbn. now rewrite append_nil_r.
  - destruct (Ascii.eqb c sep) eqn:Hc.
    + apply Ascii.eqb_eq in Hc; subst c.
      destruct (splitOn_cons sep s EmptyString) as (x & xs & E).
      pose proof (IH EmptyString) as IH'. rewrite E in IH' |- *.
      rewrite join_cons, IH'. reflexivity.
    + rewrite IH. now rewrite append_assoc.
Qed.

Lemma join_split (sep : ascii) (s : string) :
  join (String sep EmptyString) (split sep s) = s.
Proof. apply (join_splitOn sep s EmptyString). Qed.

End SplitFacts.

(** ** The configuration file *)

Module EnvFacts.
Import JsString.
Import Generators.
Import EnvFile.
Import Notions.
Import StringFacts.
Import SpaceFacts.
Import SplitFacts.

Lemma trim_assignment (k v : string) :
  trim (k ++ "=" ++ v) = trimStart k ++ "=" ++ trimEnd v.
Proof.
  unfold trim. cbn [append].
  rewrite trimStart_app by reflexivity.
  now rewrite trimEnd_app by reflexivity.
Qed.

Lemma startsWith_hash_app (a b : string) :
  startsWith (a ++ "=" ++ b) "#" = startsWith a "#".
Proof. destruct a as [|c a]; [reflexivity|]. cbn [append startsWith]. reflexivity. Qed.

(** A line [key=value]: the key is the trimmed text in front of the first
    [=], the value the trimmed text after it, further [=] included. *)
Lemma envLine_assignment (env : Env) (k v : string) :
  allChars (isNot "=") k = true ->
  startsWith (trimStart k) "#" = false ->
  envLine env (k ++ "=" ++ v) = setKey env (trim k) (trim v).
Proof.
  intros Hk Hhash. unfold envLine. cbv zeta.
  rewrite trim_assignment, startsWith_hash_app, Hhash.
  assert (Hne : nonEmpty (trimStart k ++ "=" ++ trimEnd v) = true)
    by (now destruct (trimStart k)).
  rewrite Hne. cbn [andb negb].
  change (trimStart k ++ "=" ++ trimEnd v)
    with (trimStart k ++ String "=" (trimEnd v)).
  rewrite split_app, (split_plain "=" _ (allChars_trimStart _ _ Hk)).
  cbn [List.app].
  change (join "=" (split "=" (trimEnd v)))
    with (join (String "=" EmptyString) (split "=" (trimEnd v))).
  now rewrite join_split, trim_trimStart, trim_trimEnd.
Qed.

(** A line that is blank or a comment changes nothing. *)
Lemma envLine_skipped (env : Env) (line : string) :
  trim line = EmptyString \/ startsWith (trim line) "#" = true ->
  envLine env line = env.
Proof.
  intros [H | H]; unfold envLine; cbv zeta; rewrite H; [reflexivity|].
  now rewrite andb_false_r.
Qed.

(** The lines are read in order, each on the object the previous ones
    left. *)
Lemma loadEnv_app_line (content line : string) :
  allChars (isNot lfChar) line = true ->
  loadEnv (Some (content ++ LF ++ line))
  = envLine (loadEnv (Some content)) line.
Proof.
  intro Hl. unfold loadEnv.
  change (content ++ LF ++ line) with (content ++ String lfChar line).
  rewrite split_app, (split_plain lfChar line Hl).
  now rewrite List.fold_left_app.
Qed.

Lemma loadEnv_one_line (line : string) :
  allChars (isNot lfChar) line = true ->
  loadEnv (Some line) = envLine emptyEnv line.
Proof. intro Hl. unfold loadEnv. now rewrite (split_plain lfChar line Hl). Qed.

Lemma setKey_same (env : Env) (k v : string) :
  k <> "__proto__" -> setKey env k v k = Some v.
Proof.
  intro H. unfold setKey. apply String.eqb_neq in H. rewrite H.
  now rewrite String.eqb_refl.
Qed.

Lemma setKey_other (env : Env) (k v k' : string) :
  k' <> k -> setKey env k v k' = env k'.
Proof.
  intro H. unfold setKey. destruct (String.eqb k "__proto__"); [reflexivity|].
  apply String.eqb_neq in H. now rewrite H.
Qed.

End EnvFacts.


(** ** Literal and anchored patterns *)

Module LiteralFacts.
Import JsString.
Import Regex.
Import Notions.
Import MatchNotions.
Import StringFacts.
Import RegexFacts.

#[local] Arguments lowerChar : simpl never.

(** A literal under the [i] flag reads a text that starts like it, letter
    case apart. *)
Lemma run_litI {R : Type} (p : string) :
  forall (s : string) (caps : list string)
         (k : string -> list string -> option R),
    run (litI p) s caps k
    = if startsWith (toLowerCase s) (toLowerCase p)
      then k (drop (String.length p) s) caps else None.
Proof.
  induction p as [|c p IH]; intros s caps k; [reflexivity|].
  cbn [litI chrI run].
  destruct s as [|d s]; [reflexivity|].
  cbn [toLowerCase startsWith String.length drop].
  rewrite (Ascii.eqb_sym (lowerChar c)).
  destruct (Ascii.eqb (lowerChar d) (lowerChar c)); [|reflexivity].
  cbn [andb]. apply IH.
Qed.

Lemma run_lit {R : Type} (p : string) :
  forall (s : string) (caps : list string)
         (k : string -> list string -> option R),
    run (lit p) s caps k
    = if startsWith s p then k (drop (String.length p) s) caps else None.
Proof.
  induction p as [|c p IH]; intros s caps k; [reflexivity|].
  cbn [lit chr run].
  destruct s as [|d s]; [reflexivity|].
  cbn [startsWith String.length drop].
  destruct (Ascii.eqb c d); [|reflexivity].
  cbn [andb]. apply IH.
Qed.

Lemma toLowerCase_app (a b : string) :
  toLowerCase (a ++ b) = toLowerCase a ++ toLowerCase b.
Proof. induction a as [|c a IH]; [reflexivity|]. cbn. now rewrite IH. Qed.

Lemma toLowerCase_length (a : string) :
  String.length (toLowerCase a) = String.length a.
Proof. induction a as [|c a IH]; [reflexivity|]. cbn. now rewrite IH. Qed.

(** A pattern without a star hands over to what follows only after it
    read at most [maxLen] characters. *)
Lemma run_bounded {R : Type} (r : regex) :
  starFree r = true ->
  forall (s : string) (caps : list string)
         (k : string -> list string -> option R),
    (forall rest caps',
        String.length s <= String.length rest + maxLen r ->
        k rest caps' = None) ->
    run r s caps k = None.
Proof.
  induction r as [| p | a IHa b IHb | a IHa b IHb | g a IHa | a IHa |];
    intros Hsf s caps k Hk; cbn [starFree] in Hsf; cbn [run maxLen] in *.
  - apply Hk. lia.
  - destruct s as [|c s]; [reflexivity|].
    destruct (p c); [|reflexivity]. apply Hk. cbn [String.length]. lia.
  - apply andb_true_iff in Hsf as [Ha Hb].
    apply (IHa Ha). intros s1 caps1 L1.
    apply (IHb Hb). intros s2 caps2 L2. apply Hk. lia.
  - apply andb_true_iff in Hsf as [Ha Hb].
    rewrite (IHa Ha), (IHb Hb); [reflexivity | |];
      intros rest caps' L; apply Hk; lia.
  - discriminate Hsf.
  - apply (IHa Hsf). intros rest caps' L. now apply Hk.
  - destruct s; [|reflexivity]. apply Hk. cbn [String.length]. lia.
Qed.

(** Anchored at the end of the input, such a pattern matches no text
    longer than [maxLen]. *)
Lemma run_anchored {R : Type} (r : regex) (s : string) (caps : list string)
      (k : string -> list string -> option R) :
  starFree r = true ->
  maxLen r < String.length s ->
  run (Seq r (Seq Eoi Eps)) s caps k = None.
Proof.
  intros Hsf L. cbn [run].
  apply (run_bounded r Hsf). intros rest caps' L'.
  destruct rest; [cbn [String.length] in L'; lia | reflexivity].
Qed.

Lemma test_app_hit (r : regex) (pre suf : string) (x : list string * string) :
  exec r suf = Some x -> test r (pre ++ suf) = true.
Proof.
  intro H. induction pre as [|c pre IH].
  - destruct suf; cbn [append test]; now rewrite H.
  - cbn [append test]. now destruct (exec r (String c (pre ++ suf))).
Qed.

Lemma test_true_split (r : regex) (s : string) :
  test r s = true ->
  exists pre suf x, s = pre ++ suf /\ exec r suf = Some x.
Proof.
  induction s as [|c s IH]; cbn [test]; intro H.
  - destruct (exec r EmptyString) as [x|] eqn:E; [|discriminate].
    now exists EmptyString, EmptyString, x.
  - destruct (exec r (String c s)) as [x|] eqn:E.
    + now exists EmptyString, (String c s), x.
    + destruct (IH H) as (pre & suf & x & -> & Hx).
      now exists (String c pre), suf, x.
Qed.

Lemma test_false_all (r : regex) (s : string) :
  (forall pre suf, s = pre ++ suf -> exec r suf = None) -> test r s = false.
Proof.
  induction s as [|c s IH]; intro H; cbn [test].
  - now rewrite (H EmptyString EmptyString eq_refl).
  - rewrite (H EmptyString (String c s) eq_refl).
    apply IH. intros pre suf ->. now apply (H (String c pre) suf).
Qed.

(** A replacement that finds no match keeps the text. *)
Lemma replaceFrom_none (r : regex) (repl : string) (s : string) :
  forall seen, test r s = false -> replaceFrom r repl seen s = None.
Proof.
  induction s as [|c s IH]; intros seen H; cbn [test] in H; cbn [replaceFrom].
  - now destruct (exec r EmptyString).
  - destruct (exec r (String c s)); [discriminate|]. now rewrite IH.
Qed.

Lemma replace_none (r : regex) (repl : string) (s : string) :
  test r s = false -> Regex.replace r repl s = s.
Proof. intro H. unfold Regex.replace. now rewrite replaceFrom_none. Qed.

(** The leftmost match is the one at the end of [pre] when no match
    starts inside [pre]. *)
Lemma replaceFrom_at (r : regex) (repl pre suf rest : string)
      (caps : list string) :
  (forall p1 p2, pre = p1 ++ p2 -> p2 <> EmptyString ->
                 exec r (p2 ++ suf) = None) ->
  exec r suf = Some (caps, rest) ->
  forall seen,
    replaceFrom r repl seen (pre ++ suf)
    = Some (pre ++ getSubstitution (consumed suf rest) (seen ++ pre) rest repl
                ++ rest).
Proof.
  intros Hpre Hsuf. induction pre as [|c pre IH]; intro seen.
  - cbn [append]. rewrite append_nil_r.
    destruct suf; cbn [replaceFrom]; now rewrite Hsuf.
  - cbn [append replaceFrom].
    pose proof (Hpre EmptyString (String c pre) eq_refl) as E.
    cbn [append] in E. rewrite E by discriminate.
    rewrite IH.
    + now rewrite append_assoc.
    + intros p1 p2 -> Hp2. now apply (Hpre (String c p1) p2).
Qed.

End LiteralFacts.


(** ** Image file names *)

Module ExtensionFacts.
Import JsString.
Import Regex.
Import ImageRewriter.
Import SpImages.
Import Notions.
Import MatchNotions.
Import StringFacts.
Import RegexFacts.
Import LiteralFacts.

#[local] Arguments lowerChar : simpl never.

Ltac split_ifs H :=
  repeat (cbn [firstOf] in H;
          match type of H with
          | context [if ?b then _ else _] =>
              let E := fresh "E" in destruct b eqn:E; try discriminate H
          end).

Ltac use_eqs :=
  repeat match goal with
         | E : Ascii.eqb _ _ = true |- _ => apply Ascii.eqb_eq in E
         end;
  repeat match goal with
         | E : lowerChar ?c = _ |- _ => is_var c; try rewrite E in *; clear E
         | E : _ = ?c |- _ => is_var c; subst c
         end;
  try match goal with
      | E : lowerChar _ = lowerChar _ |- _ => vm_compute in E; discriminate E
      end.

(** The three extensions, letter by letter. *)
Lemma pictureExt_cases (ext : string) :
  isPictureExt (toLowerCase ext) = true ->
  toLowerCase ext = ".png" \/ toLowerCase ext = ".jpg"
  \/ toLowerCase ext = ".jpeg".
Proof.
  unfold isPictureExt. cbn [List.existsb]. intro H.
  apply orb_true_iff in H as [H|H]; [left; now apply String.eqb_eq|].
  apply orb_true_iff in H as [H|H]; [right; left; now apply String.eqb_eq|].
  apply orb_true_iff in H as [H|H]; [right; right; now apply String.eqb_eq|].
  discriminate.
Qed.

Lemma lowerChar_dot (c : ascii) : lowerChar c = "."%char -> c = "."%char.
Proof.
  destruct c as [b0 b1 b2 b3 b4 b5 b6 b7].
  destruct b0, b1, b2, b3, b4, b5, b6, b7; vm_compute; intro H;
    try reflexivity; discriminate H.
Qed.

Lemma lowerChar_dash (c : ascii) : lowerChar c = "-"%char -> c = "-"%char.
Proof.
  destruct c as [b0 b1 b2 b3 b4 b5 b6 b7].
  destruct b0, b1, b2, b3, b4, b5, b6, b7; vm_compute; intro H;
    try reflexivity; discriminate H.
Qed.

(** The shapes of an extension: four or five characters. *)
Lemma pictureExt_chars (ext : string) :
  isPictureExt (toLowerCase ext) = true ->
  (exists c1 c2 c3,
      ext = String "." (String c1 (String c2 (String c3 EmptyString)))
      /\ ((lowerChar c1 = "p" /\ lowerChar c2 = "n" /\ lowerChar c3 = "g")
          \/ (lowerChar c1 = "j" /\ lowerChar c2 = "p" /\ lowerChar c3 = "g"))%char)
  \/ (exists c1 c2 c3 c4,
         ext = String "." (String c1 (String c2 (String c3 (String c4 EmptyString))))
         /\ (lowerChar c1 = "j" /\ lowerChar c2 = "p" /\ lowerChar c3 = "e"
             /\ lowerChar c4 = "g")%char).
Proof.
  intro H. destruct (pictureExt_cases ext H) as [E | [E | E]];
    destruct ext as [|c0 [|c1 [|c2 [|c3 [|c4 [|c5 ext]]]]]];
    cbn [toLowerCase] in E; try discriminate E; injection E as E0 E1 E2 E3;
    try (injection E3 as E3 E4);
    apply lowerChar_dot in E0; subst c0.
  - left. exists c1, c2, c3. split; [reflexivity | left; now repeat split].
  - left. exists c1, c2, c3. split; [reflexivity | right; now repeat split].
  - right. exists c1, c2, c3, c4. split; [reflexivity | now repeat split].
Qed.

Lemma sp_chars (sp : string) :
  toLowerCase sp = "-sp" ->
  exists c1 c2,
    sp = String "-" (String c1 (String c2 EmptyString))
    /\ (lowerChar c1 = "s" /\ lowerChar c2 = "p")%char.
Proof.
  destruct sp as [|c0 [|c1 [|c2 [|c3 sp]]]]; cbn [toLowerCase]; intro E;
    try discriminate E.
  injection E as E0 E1 E2. apply lowerChar_dash in E0; subst c0.
  now exists c1, c2.
Qed.

(** *** [extRegex] and [extGroupRegex] *)

Lemma exec_extRegex (ext : string) :
  isPictureExt (toLowerCase ext) = true ->
  exists caps, exec extRegex ext = Some (caps, EmptyString).
Proof.
  intro H.
  destruct (pictureExt_chars ext H)
    as [(c1 & c2 & c3 & -> & [(H1 & H2 & H3) | (H1 & H2 & H3)])
       | (c1 & c2 & c3 & c4 & -> & H1 & H2 & H3 & H4)];
    unfold exec, extRegex, imageFormat, opt;
    cbn [seqs litI chrI chr run]; rewrite ?H1, ?H2, ?H3, ?H4;
    eexists; reflexivity.
Qed.

Lemma exec_extGroupRegex (ext : string) :
  isPictureExt (toLowerCase ext) = true ->
  exists caps, exec extGroupRegex ext = Some (caps, EmptyString).
Proof.
  intro H.
  destruct (pictureExt_chars ext H)
    as [(c1 & c2 & c3 & -> & [(H1 & H2 & H3) | (H1 & H2 & H3)])
       | (c1 & c2 & c3 & c4 & -> & H1 & H2 & H3 & H4)];
    unfold exec, extGroupRegex, imageFormat, opt;
    cbn [seqs litI chrI chr run]; rewrite ?H1, ?H2, ?H3, ?H4;
    eexists; reflexivity.
Qed.

Lemma extRegex_long (s : string) :
  5 < String.length s -> exec extRegex s = None.
Proof.
  intro L. unfold exec, extRegex. cbn [seqs].
  change (run (Seq (chr ".") (Seq imageFormat (Seq Eoi Eps))) s [] ?k)
    with (run (Seq (Seq (chr ".") imageFormat) (Seq Eoi Eps)) s [] k).
  apply run_anchored; [reflexivity | exact L].
Qed.

Lemma extGroupRegex_long (s : string) :
  5 < String.length s -> exec extGroupRegex s = None.
Proof.
  intro L. unfold exec, extGroupRegex. cbn [seqs].
  apply run_anchored; [reflexivity | exact L].
Qed.

(** No match of the extension pattern starts in front of the
    extension. *)
Lemma extRegex_before (p2 ext : string) :
  isPictureExt (toLowerCase ext) = true ->
  p2 <> EmptyString ->
  exec extRegex (p2 ++ ext) = None.
Proof.
  intros H Hp.
  destruct p2 as [|x [|y p2]]; [now destruct Hp | |].
  - destruct (pictureExt_chars ext H)
      as [(c1 & c2 & c3 & -> & _) | (c1 & c2 & c3 & c4 & -> & _)].
    + unfold exec, extRegex, imageFormat, opt.
      cbn [append seqs litI chrI chr run].
      destruct (Ascii.eqb "." x); [|reflexivity].
      reflexivity.
    + apply extRegex_long. cbn [append String.length]. lia.
  - apply extRegex_long.
    destruct (pictureExt_chars ext H)
      as [(c1 & c2 & c3 & -> & _) | (c1 & c2 & c3 & c4 & -> & _)];
      cbn [append String.length]; rewrite length_append;
      cbn [String.length]; lia.
Qed.

(** What the extension pattern matches is an extension, to the end. *)
Lemma extGroupRegex_shape (s : string) (x : list string * string) :
  exec extGroupRegex s = Some x -> isPictureExt (toLowerCase s) = true.
Proof.
  intro H.
  destruct s as [|c0 [|c1 [|c2 [|c3 [|c4 [|c5 s]]]]]];
    try (rewrite extGroupRegex_long in H
           by (cbn [String.length]; lia); discriminate H);
    unfold exec, extGroupRegex, imageFormat, opt in H;
    cbn [seqs litI chrI chr run] in H; split_ifs H;
    try discriminate H; cbn [toLowerCase]; use_eqs; reflexivity.
Qed.

(** [baseName]: the extension goes. *)
Lemma replace_extRegex (stem ext : string) :
  isPictureExt (toLowerCase ext) = true ->
  Regex.replace extRegex EmptyString (stem ++ ext) = stem.
Proof.
  intro H. destruct (exec_extRegex ext H) as [caps E].
  unfold Regex.replace.
  rewrite (replaceFrom_at extRegex EmptyString stem ext EmptyString caps).
  - cbn [getSubstitution append]. now rewrite append_nil_r.
  - intros p1 p2 _ Hp2. now apply extRegex_before.
  - exact E.
Qed.

End ExtensionFacts.


(** ** The names of SP files *)

Module SpFacts.
Import JsString.
Import Regex.
Import ImageRewriter.
Import SpImages.
Import Notions.
Import MatchNotions.
Import TreeNotions.
Import StringFacts.
Import RegexFacts.
Import LiteralFacts.
Import ExtensionFacts.

#[local] Arguments lowerChar : simpl never.

Lemma exec_spRegex (sp ext : string) :
  toLowerCase sp = "-sp" ->
  isPictureExt (toLowerCase ext) = true ->
  exists caps, exec spRegex (sp ++ ext) = Some (caps, EmptyString).
Proof.
  intros Hsp H.
  destruct (sp_chars sp Hsp) as (s1 & s2 & -> & Hs1 & Hs2).
  destruct (pictureExt_chars ext H)
    as [(c1 & c2 & c3 & -> & [(H1 & H2 & H3) | (H1 & H2 & H3)])
       | (c1 & c2 & c3 & c4 & -> & H1 & H2 & H3 & H4)];
    unfold exec, spRegex, imageFormat, opt;
    cbn [append seqs litI chrI chr run];
    rewrite ?Hs1, ?Hs2, ?H1, ?H2, ?H3, ?H4; eexists; reflexivity.
Qed.

(** The outer group of [spGroupRegex] is the extension. *)
Lemma exec_spGroupRegex (sp ext : string) :
  toLowerCase sp = "-sp" ->
  isPictureExt (toLowerCase ext) = true ->
  exists caps,
    exec spGroupRegex (sp ++ ext) = Some (caps, EmptyString)
    /\ List.last caps EmptyString = ext.
Proof.
  intros Hsp H.
  destruct (sp_chars sp Hsp) as (s1 & s2 & -> & Hs1 & Hs2).
  destruct (pictureExt_chars ext H)
    as [(c1 & c2 & c3 & -> & [(H1 & H2 & H3) | (H1 & H2 & H3)])
       | (c1 & c2 & c3 & c4 & -> & H1 & H2 & H3 & H4)];
    unfold exec, spGroupRegex, imageFormat, opt;
    cbn [append seqs litI chrI chr run];
    rewrite ?Hs1, ?Hs2, ?H1, ?H2, ?H3, ?H4; eexists; split; reflexivity.
Qed.

Lemma spRegex_long (s : string) :
  8 < String.length s -> exec spRegex s = None.
Proof.
  intro L. unfold exec, spRegex. cbn [seqs].
  change (run (Seq (litI "-sp") (Seq (chr ".") (Seq imageFormat (Seq Eoi Eps))))
              s [] ?k)
    with (run (Seq (Seq (litI "-sp") (Seq (chr ".") imageFormat)) (Seq Eoi Eps))
              s [] k).
  apply run_anchored; [reflexivity | exact L].
Qed.

Lemma spGroupRegex_long (s : string) :
  8 < String.length s -> exec spGroupRegex s = None.
Proof.
  intro L. unfold exec, spGroupRegex. cbn [seqs].
  change (run (Seq (litI "-sp") (Seq ?g (Seq Eoi Eps))) s [] ?k)
    with (run (Seq (Seq (litI "-sp") g) (Seq Eoi Eps)) s [] k).
  apply run_anchored; [reflexivity | exact L].
Qed.

(** No match starts in front of the suffix. *)
Lemma sp_before (r : regex) (p2 sp ext : string) :
  r = spRegex \/ r = spGroupRegex ->
  toLowerCase sp = "-sp" ->
  isPictureExt (toLowerCase ext) = true ->
  p2 <> EmptyString ->
  exec r (p2 ++ sp ++ ext) = None.
Proof.
  intros Hr Hsp H Hp.
  assert (Hlong : forall s, 8 < String.length s -> exec r s = None).
  { destruct Hr as [-> | ->]; [apply spRegex_long | apply spGroupRegex_long]. }
  destruct (sp_chars sp Hsp) as (s1 & s2 & -> & Hs1 & Hs2).
  destruct p2 as [|x [|y p2]]; [now destruct Hp | |].
  - destruct (pictureExt_chars ext H)
      as [(c1 & c2 & c3 & -> & _) | (c1 & c2 & c3 & c4 & -> & _)].
    + destruct Hr as [-> | ->];
        unfold exec, spRegex, spGroupRegex, imageFormat, opt;
        cbn [append seqs litI chrI chr run];
        (destruct (Ascii.eqb (lowerChar x) (lowerChar "-")); [|reflexivity]);
        reflexivity.
    + apply Hlong. cbn [append String.length]. lia.
  - apply Hlong.
    destruct (pictureExt_chars ext H)
      as [(c1 & c2 & c3 & -> & _) | (c1 & c2 & c3 & c4 & -> & _)];
      cbn [append String.length]; rewrite length_append;
      cbn [String.length]; lia.
Qed.

Lemma replaceByOuterGroup_at (r : regex) (pre suf rest : string)
      (caps : list string) :
  (forall p1 p2, pre = p1 ++ p2 -> p2 <> EmptyString ->
                 exec r (p2 ++ suf) = None) ->
  exec r suf = Some (caps, rest) ->
  replaceByOuterGroup r (pre ++ suf)
  = Some (pre ++ List.last caps EmptyString ++ rest).
Proof.
  intros Hpre Hsuf. induction pre as [|c pre IH].
  - cbn [append]. destruct suf; cbn [replaceByOuterGroup]; now rewrite Hsuf.
  - cbn [append replaceByOuterGroup].
    pose proof (Hpre EmptyString (String c pre) eq_refl) as E.
    cbn [append] in E. rewrite E by discriminate.
    rewrite IH; [reflexivity|].
    intros p1 p2 -> Hp2. now apply (Hpre (String c p1) p2).
Qed.

(** The PC name of an SP file: the [-sp] in front of the extension goes. *)
Lemma pcName_sp (stem sp ext : string) :
  toLowerCase sp = "-sp" ->
  isPictureExt (toLowerCase ext) = true ->
  pcName (stem ++ sp ++ ext) = Some (stem ++ ext).
Proof.
  intros Hsp H. unfold pcName.
  destruct (exec_spRegex sp ext Hsp H) as [caps1 E1].
  rewrite (test_app_hit spRegex stem (sp ++ ext) _ E1).
  destruct (exec_spGroupRegex sp ext Hsp H) as (caps & E & Hlast).
  rewrite (replaceByOuterGroup_at spGroupRegex stem (sp ++ ext) EmptyString caps).
  - now rewrite Hlast, append_nil_r.
  - intros p1 p2 _ Hp2. now apply sp_before; [right| | |].
  - exact E.
Qed.

(** What [spRegex] matches is [-sp] and an extension. *)
Lemma spRegex_shape (s : string) (x : list string * string) :
  exec spRegex s = Some x ->
  exists sp ext,
    s = sp ++ ext /\ toLowerCase sp = "-sp"
    /\ isPictureExt (toLowerCase ext) = true.
Proof.
  intro H.
  destruct s as [|c0 [|c1 [|c2 [|c3 [|c4 [|c5 [|c6 [|c7 [|c8 s]]]]]]]]];
    try (rewrite spRegex_long in H by (cbn [String.length]; lia);
         discriminate H);
    unfold exec, spRegex, imageFormat, opt in H;
    cbn [seqs litI chrI chr run] in H; split_ifs H; try discriminate H.
  all: exists (String c0 (String c1 (String c2 EmptyString))).
  all: eexists; split; [reflexivity|].
  all: cbn [toLowerCase]; use_eqs; split; reflexivity.
Qed.

(** Exactly the names that end with [-sp] and an image extension have a
    PC name. *)
Lemma pcName_iff (name pc : string) :
  pcName name = Some pc
  <-> exists stem sp ext,
      name = stem ++ sp ++ ext /\ toLowerCase sp = "-sp"
      /\ isPictureExt (toLowerCase ext) = true /\ pc = stem ++ ext.
Proof.
  split.
  - intro H. unfold pcName in H.
    destruct (test spRegex name) eqn:T; [|discriminate].
    destruct (test_true_split spRegex name T) as (stem & suf & x & -> & Hx).
    destruct (spRegex_shape suf x Hx) as (sp & ext & -> & Hsp & Hext).
    exists stem, sp, ext. repeat split; try assumption.
    pose proof (pcName_sp stem sp ext Hsp Hext) as E.
    unfold pcName in E. rewrite T in E. congruence.
  - intros (stem & sp & ext & -> & Hsp & Hext & ->). now apply pcName_sp.
Qed.

(** *** The scan of the directory tree *)

Lemma entry_nested_ind (P : entry -> Prop) :
  (forall name, P (File name)) ->
  (forall name children, Forall P children -> P (Dir name children)) ->
  (forall name, P (Other name)) ->
  forall e, P e.
Proof.
  intros HF HD HO. fix IH 1. intros [name | name children | name].
  - apply HF.
  - apply HD. induction children as [|c cs IHcs]; constructor;
      [apply IH | exact IHcs].
  - apply HO.
Qed.

Lemma scanEntry_files (e : entry) :
  forall rel p,
    In p (scanEntry rel e)
    <-> exists ds name pc,
        fileAt [e] ds name /\ pcName name = Some pc
        /\ p = join "/" (rel ++ ds ++ [pc]).
Proof.
  induction e as [name | name children IH | name] using entry_nested_ind;
    intros rel p; cbn [scanEntry].
  - split.
    + destruct (pcName name) as [pc|] eqn:E; [|intros []].
      intros [<- | []]. exists [], name, pc.
      repeat split; [constructor; now left | exact E].
    + intros (ds & n & pc & Hf & Hpc & ->).
      inversion Hf as [? ? Hin | ? ? ? ? ? Hin Hsub]; subst.
      * destruct Hin as [Hin | []]. injection Hin as <-.
        rewrite Hpc. now left.
      * destruct Hin as [Hin | []]. discriminate Hin.
  - rewrite in_flat_map. split.
    + intros (c & Hc & Hp).
      rewrite Forall_forall in IH.
      destruct (proj1 (IH c Hc (rel ++ [name])%list p) Hp)
        as (ds & n & pc & Hf & Hpc & ->).
      exists (name :: ds), n, pc. repeat split; [|exact Hpc|].
      * apply (FileBelow _ name children); [now left|].
        inversion Hf as [? ? Hin | ? ? cs ? ? Hin Hsub]; subst.
        -- destruct Hin as [-> | []]. now constructor.
        -- destruct Hin as [-> | []].
           now apply (FileBelow _ d cs).
      * now rewrite <- List.app_assoc.
    + intros (ds & n & pc & Hf & Hpc & ->).
      inversion Hf as [? ? Hin | ? d cs ds' ? Hin Hsub]; subst.
      * destruct Hin as [Hin | []]. discriminate Hin.
      * destruct Hin as [Hin | []]. injection Hin as <- <-.
        rewrite Forall_forall in IH.
        inversion Hsub as [? ? Hin | ? d2 cs2 ds2 ? Hin Hsub2]; subst.
        -- exists (File n). split; [exact Hin|].
           apply (IH _ Hin). exists [], n, pc.
           repeat split; [constructor; now left | exact Hpc |].
           now rewrite <- List.app_assoc.
        -- exists (Dir d2 cs2). split; [exact Hin|].
           apply (IH _ Hin). exists (d2 :: ds2), n, pc.
           repeat split; [|exact Hpc|].
           ++ apply (FileBelow _ d2 cs2); [now left | exact Hsub2].
           ++ now rewrite <- List.app_assoc.
  - split; [intros [] |].
    intros (ds & n & pc & Hf & _).
    inversion Hf as [? ? Hin | ? ? ? ? ? Hin Hsub]; subst;
      destruct Hin as [Hin | []]; discriminate Hin.
Qed.

Lemma fileAt_one (entries : list entry) (ds : list string) (name : string) :
  fileAt entries ds name <-> exists e, In e entries /\ fileAt [e] ds name.
Proof.
  split.
  - intro H. inversion H as [? ? Hin | ? d cs ds' ? Hin Hsub]; subst.
    + exists (File name). split; [exact Hin | constructor; now left].
    + exists (Dir d cs). split; [exact Hin|].
      apply (FileBelow _ d cs); [now left | exact Hsub].
  - intros (e & He & H).
    inversion H as [? ? Hin | ? d cs ds' ? Hin Hsub]; subst;
      destruct Hin as [-> | []].
    + now constructor.
    + now apply (FileBelow _ d cs).
Qed.

Lemma findSpImages_files (entries : list entry) (p : string) :
  In p (findSpImages entries)
  <-> exists ds name pc,
      fileAt entries ds name /\ pcName name = Some pc
      /\ p = join "/" (ds ++ [pc]).
Proof.
  unfold findSpImages. rewrite in_flat_map. split.
  - intros (e & He & Hp).
    destruct (proj1 (scanEntry_files e [] p) Hp) as (ds & n & pc & Hf & Hpc & ->).
    exists ds, n, pc. repeat split; [|exact Hpc].
    apply fileAt_one. now exists e.
  - intros (ds & n & pc & Hf & Hpc & ->).
    apply fileAt_one in Hf as (e & He & Hf).
    exists e. split; [exact He|].
    apply scanEntry_files. now exists ds, n, pc.
Qed.

End SpFacts.


(** ** The extension of a path *)

Module ExtnameFacts.
Import JsString.
Import NodePath.
Import Notions.
Import PathNotions.
Import StringFacts.

Lemma get_app_r (a b : string) (i : nat) :
  String.get (String.length a + i) (a ++ b) = String.get i b.
Proof. induction a as [|c a IH]; [reflexivity | exact IH]. Qed.

Lemma get_app_l (a b : string) :
  forall i, i < String.length a -> String.get i (a ++ b) = String.get i a.
Proof.
  induction a as [|c a IH]; intros i L; [cbn in L; lia|].
  destruct i as [|i]; [reflexivity|].
  cbn [append String.get]. apply IH. cbn [String.length] in L. lia.
Qed.

Lemma get_allChars (p : ascii -> bool) (s : string) :
  allChars p s = true ->
  forall i, i < String.length s ->
            exists c, String.get i s = Some c /\ p c = true.
Proof.
  induction s as [|d s IH]; intros H i L; [cbn in L; lia|].
  cbn [allChars] in H. apply andb_true_iff in H as [Hd H].
  destruct i as [|i]; [now exists d|].
  cbn [String.get]. apply (IH H). cbn [String.length] in L. lia.
Qed.

Lemma get_some (s : string) :
  forall i, i < String.length s -> exists c, String.get i s = Some c.
Proof.
  induction s as [|d s IH]; intros i L; [cbn in L; lia|].
  destruct i as [|i]; [now exists d|].
  cbn [String.get]. apply IH. cbn [String.length] in L. lia.
Qed.

(** Once the end of the last part is known and no dot was met, the
    characters of a name change nothing. *)
Lemma extnameLoop_name (a e : string) (sp L : nat) (pds : nat) :
  allChars isNameChar e = true ->
  forall m, m <= String.length e ->
    extnameLoop (String.length a + m) (a ++ e)
                (mkExtState None sp (Some L) false pds)
    = extnameLoop (String.length a) (a ++ e)
                  (mkExtState None sp (Some L) false pds).
Proof.
  intros He m. induction m as [|m IH]; intro Lm.
  - now rewrite Nat.add_0_r.
  - rewrite Nat.add_succ_r. cbn [extnameLoop]. rewrite get_app_r.
    destruct (get_allChars _ e He m Lm) as (c & -> & Hc).
    unfold isNameChar in Hc. apply andb_true_iff in Hc as [H1 H2].
    apply negb_true_iff in H1, H2.
    unfold extnameStep. rewrite H1, H2. cbn [endIdx isNone startDot negb].
    apply IH. lia.
Qed.

(** In front of the dot of the extension and of one more character of
    the name, the loop keeps the dot and the end it found. *)
Lemma extnameLoop_front (p rest : string) (sd L : nat) :
  forall n, n <= String.length p ->
    forall sp d, d = 1 \/ d = 2 ->
      exists sp' d',
        (d' = 1 \/ d' = 2)
        /\ extnameLoop n (p ++ rest) (mkExtState (Some sd) sp (Some L) false d)
           = mkExtState (Some sd) sp' (Some L) false d'.
Proof.
  induction n as [|n IH]; intros Ln sp d Hd.
  - exists sp, d. now split.
  - cbn [extnameLoop]. rewrite get_app_l by lia.
    destruct (get_some p n Ln) as [c ->].
    unfold extnameStep. cbn [matchedSlash negb endIdx isNone startDot preDotState].
    destruct (Ascii.eqb c "/").
    + exists (n + 1), d. now split.
    + destruct (Ascii.eqb c ".").
      * destruct (Nat.eqb d 1) eqn:E; cbn [negb];
          apply (IH ltac:(lia)); auto.
      * apply (IH ltac:(lia)); auto.
Qed.

Lemma extnameLoop_step (n : nat) (path : string) (st : ExtState) (c : ascii) :
  String.get n path = Some c ->
  extnameLoop (S n) path st
  = (let '(st', continue) := extnameStep n c st in
     if continue then extnameLoop n path st' else st').
Proof. intro H. cbn [extnameLoop]. now rewrite H. Qed.

(** The state of the loop of [extname] on a path whose last part is a
    name, a dot and a suffix without dot. *)
Lemma extnameLoop_suffix (p : string) (x : ascii) (e : string) :
  Ascii.eqb x "/" = false ->
  e <> EmptyString ->
  allChars isNameChar e = true ->
  let path := p ++ String x (String "." e) in
  exists sp' d',
    (d' = 1 \/ d' = 2)
    /\ extnameLoop (String.length path) path (mkExtState None 0 None true 0)
       = mkExtState (Some (S (String.length p))) sp'
                    (Some (String.length path)) false d'.
Proof.
  intros Hx Hne He path.
  set (a := p ++ String x (String "." EmptyString)).
  assert (Ea : path = a ++ e).
  { subst a path. now rewrite append_assoc. }
  assert (La : String.length a = S (S (String.length p))).
  { subst a. rewrite length_append. cbn [String.length]. lia. }
  assert (Le : exists m, String.length e = S m).
  { destruct e as [|e0 e']; [now destruct Hne | now exists (String.length e')]. }
  destruct Le as [m Le].
  set (L := String.length path).
  assert (HL : L = S (String.length a + m)).
  { subst L. rewrite Ea, length_append, Le. lia. }
  (* the last character of the path *)
  rewrite HL.
  destruct (get_allChars _ e He m ltac:(lia)) as (c & Hget & Hc).
  rewrite (extnameLoop_step _ path _ c)
    by (now rewrite Ea, get_app_r).
  unfold isNameChar in Hc. apply andb_true_iff in Hc as [H1 H2].
  apply negb_true_iff in H1, H2.
  unfold extnameStep. rewrite H1, H2.
  cbn [endIdx isNone startDot startPart preDotState negb].
  replace (String.length a + m + 1) with L by lia.
  rewrite Ea, (extnameLoop_name a e 0 L 0 He) by lia.
  (* the dot *)
  rewrite La, <- Ea.
  assert (G1 : String.get (S (String.length p)) path = Some "."%char).
  { subst path.
    change (p ++ String x (String "." e))
      with (p ++ String x EmptyString ++ String "." e).
    rewrite <- append_assoc.
    replace (S (String.length p))
      with (String.length (p ++ String x EmptyString) + 0)
      by (rewrite length_append; cbn [String.length]; lia).
    now rewrite get_app_r. }
  rewrite (extnameLoop_step _ path _ _ G1).
  change (extnameStep (S (String.length p)) "."
                      (mkExtState None 0 (Some L) false 0))
    with (mkExtState (Some (S (String.length p))) 0 (Some L) false 0, true).
  cbv iota beta.
  (* the character in front of the dot *)
  assert (G0 : String.get (String.length p) path = Some x).
  { subst path.
    replace (String.length p) with (String.length p + 0) at 1 by lia.
    now rewrite get_app_r. }
  rewrite (extnameLoop_step _ path _ _ G0).
  unfold extnameStep. rewrite Hx.
  cbn [endIdx isNone startDot startPart preDotState matchedSlash negb Nat.eqb].
  replace (S (S (S (String.length p)) + m)) with L by lia.
  destruct (Ascii.eqb x "."); cbv iota beta;
    apply extnameLoop_front; auto.
Qed.

(** The extension of such a path: the dot and the suffix. *)
Lemma extname_suffix (p : string) (x : ascii) (e : string) :
  Ascii.eqb x "/" = false ->
  e <> EmptyString ->
  allChars isNameChar e = true ->
  extname (p ++ String x (String "." e)) = String "." e.
Proof.
  intros Hx Hne He. unfold extname.
  destruct (extnameLoop_suffix p x e Hx Hne He) as (sp' & d' & Hd' & E).
  cbv zeta in E. rewrite E.
  cbn [startDot endIdx preDotState startPart].
  assert (HL : String.length (p ++ String x (String "." e))
               = S (String.length p) + String.length (String "." e)).
  { rewrite length_append. cbn [String.length]. lia. }
  assert (Hcond : Nat.eqb d' 0
                  || Nat.eqb d' 1
                     && Nat.eqb (S (String.length p))
                                (String.length (p ++ String x (String "." e)) - 1)
                     && Nat.eqb (S (String.length p)) (sp' + 1) = false).
  { assert (E1 : Nat.eqb (S (String.length p))
                         (String.length (p ++ String x (String "." e)) - 1) = false).
    { apply Nat.eqb_neq. rewrite HL. cbn [String.length].
      destruct e; [now destruct Hne | cbn [String.length]; lia]. }
    rewrite E1.
    destruct Hd' as [-> | ->]; reflexivity. }
  rewrite Hcond.
  replace (String.length (p ++ String x (String "." e)) - S (String.length p))
    with (String.length (String "." e)) by (rewrite HL; lia).
  change (p ++ String x (String "." e))
    with (p ++ String x EmptyString ++ String "." e).
  rewrite <- append_assoc.
  replace (S (String.length p)) with (String.length (p ++ String x EmptyString))
    by (rewrite length_append; cbn [String.length]; lia).
  rewrite drop_length_app.
  rewrite <- (append_nil_r (String "." e)) at 2.
  now rewrite take_length_app.
Qed.

End ExtnameFacts.


(** ** The names derived from an image path *)

Module SourceFacts.
Import JsString.
Import Regex.
Import Generators.
Import NodePath.
Import ImageRewriter.
Import SpImages.
Import Notions.
Import PathNotions.
Import StringFacts.
Import RegexFacts.
Import LiteralFacts.
Import ExtensionFacts.
Import ExtnameFacts.
Import ImageFacts.

#[local] Arguments lowerChar : simpl never.

Lemma letter_nameChar (c l : ascii) :
  lowerChar c = l ->
  Ascii.eqb l "/" = false -> Ascii.eqb l "." = false ->
  isNameChar c = true.
Proof.
  intros H H1 H2. unfold isNameChar.
  destruct (Ascii.eqb c "/") eqn:E1.
  - apply Ascii.eqb_eq in E1; subst c. rewrite <- H in H1. discriminate H1.
  - destruct (Ascii.eqb c ".") eqn:E2; [|reflexivity].
    apply Ascii.eqb_eq in E2; subst c. rewrite <- H in H2. discriminate H2.
Qed.

(** An image extension is a dot and a suffix without dot nor slash. *)
Lemma pictureExt_suffix (ext : string) :
  isPictureExt (toLowerCase ext) = true ->
  exists e, ext = String "." e /\ e <> EmptyString
            /\ allChars isNameChar e = true.
Proof.
  intro H.
  destruct (pictureExt_chars ext H)
    as [(c1 & c2 & c3 & -> & [(H1 & H2 & H3) | (H1 & H2 & H3)])
       | (c1 & c2 & c3 & c4 & -> & H1 & H2 & H3 & H4)];
    eexists; (split; [reflexivity|]); (split; [discriminate|]);
    cbn [allChars];
    rewrite ?(letter_nameChar _ _ H1 eq_refl eq_refl),
            ?(letter_nameChar _ _ H2 eq_refl eq_refl),
            ?(letter_nameChar _ _ H3 eq_refl eq_refl),
            ?(letter_nameChar _ _ H4 eq_refl eq_refl); reflexivity.
Qed.

Lemma last_char (s : string) :
  s <> EmptyString -> exists p x, s = p ++ String x EmptyString.
Proof.
  induction s as [|c s IH]; intro H; [now destruct H|].
  destruct s as [|d s].
  - now exists EmptyString, c.
  - destruct IH as (p & x & E); [discriminate|].
    exists (String c p), x. cbn [append]. now rewrite <- E.
Qed.

Lemma endsWith_app (a b : string) : endsWith (a ++ b) b = true.
Proof.
  unfold endsWith. rewrite length_append.
  replace (String.length a + String.length b - String.length b)
    with (String.length a) by lia.
  rewrite drop_length_app, String.eqb_refl.
  replace (Nat.leb (String.length b) (String.length a + String.length b))
    with true; [reflexivity|].
  symmetry. apply Nat.leb_le. lia.
Qed.

Lemma endsWith_last (p : string) (x y : ascii) :
  endsWith (p ++ String x EmptyString) (String y EmptyString) = Ascii.eqb x y.
Proof.
  unfold endsWith. rewrite length_append. cbn [String.length].
  replace (String.length p + 1 - 1) with (String.length p) by lia.
  rewrite drop_length_app.
  replace (Nat.leb 1 (String.length p + 1)) with true
    by (symmetry; apply Nat.leb_le; lia).
  cbn [andb String.eqb]. now destruct (Ascii.eqb x y).
Qed.

(** The extension of an image path. *)
Lemma extname_picture (stem ext : string) :
  stem <> EmptyString ->
  endsWith stem "/" = false ->
  isPictureExt (toLowerCase ext) = true ->
  extname (stem ++ ext) = ext.
Proof.
  intros Hne Hslash H.
  destruct (last_char stem Hne) as (p & x & ->).
  rewrite endsWith_last in Hslash.
  destruct (pictureExt_suffix ext H) as (e & -> & He & Hn).
  rewrite append_assoc. cbn [append].
  now apply extname_suffix.
Qed.

(** A stem that does not end with an extension is kept by the second
    removal. *)
Lemma test_extGroupRegex (stem : string) :
  endsWithPictureExt stem = false -> test extGroupRegex stem = false.
Proof.
  intro H. apply test_false_all. intros pre suf ->.
  destruct (exec extGroupRegex suf) as [x|] eqn:E; [|reflexivity].
  exfalso. pose proof (extGroupRegex_shape suf x E) as Hs.
  unfold endsWithPictureExt in H. rewrite toLowerCase_app in H.
  cbn [List.existsb] in H.
  destruct (pictureExt_cases suf Hs) as [Es | [Es | Es]];
    rewrite Es in H; rewrite !endsWith_app in H;
    cbn [orb] in H; rewrite ?orb_true_r in H; discriminate H.
Qed.

(** The names the callback derives from [stem ++ ext]. *)
Lemma derived_names (stem ext : string) :
  stem <> EmptyString ->
  endsWith stem "/" = false ->
  endsWithPictureExt stem = false ->
  isPictureExt (toLowerCase ext) = true ->
  toLowerCase (extname (stem ++ ext)) = toLowerCase ext
  /\ Regex.replace extRegex EmptyString (stem ++ ext) = stem
  /\ Regex.replace extGroupRegex EmptyString stem = stem.
Proof.
  intros Hne Hslash Hstem H.
  rewrite (extname_picture stem ext Hne Hslash H).
  rewrite (replace_extRegex stem ext H).
  rewrite (replace_none _ _ _ (test_extGroupRegex stem Hstem)).
  now repeat split.
Qed.

(** The picture block of an image path, name by name. *)
Lemma rewriteImg_picture (dimensions : Dimensions) (prefix : string)
      (spImages : list string) (k : nat) (before stem ext after : string) :
  stem <> EmptyString ->
  endsWith stem "/" = false ->
  endsWithPictureExt stem = false ->
  isPictureExt (toLowerCase ext) = true ->
  let src := stem ++ ext in
  let pc := withPrefix prefix src stem in
  let sp := withPrefix prefix src (stem ++ "-sp") in
  let img :=
    imgTag before (servedSrc prefix src)
           (newAfter dimensions k before src after) in
  rewriteImg dimensions prefix spImages k before src after
  = if List.existsb (String.eqb (stripSlash src)) spImages then
      pictureBlock
        [ "<source media=" ++ q "(max-width: 767px)" ++ " srcset="
            ++ q (sp ++ ".avif") ++ " type=" ++ q "image/avif" ++ ">";
          "<source media=" ++ q "(max-width: 767px)" ++ " srcset="
            ++ q (sp ++ ".webp") ++ " type=" ++ q "image/webp" ++ ">";
          "<source media=" ++ q "(max-width: 767px)" ++ " srcset="
            ++ q (sp ++ toLowerCase ext) ++ ">";
          "<source srcset=" ++ q (pc ++ ".avif") ++ " type=" ++ q "image/avif" ++ ">";
          "<source srcset=" ++ q (pc ++ ".webp") ++ " type=" ++ q "image/webp" ++ ">";
          img ]
    else
      pictureBlock
        [ "<source srcset=" ++ q (pc ++ ".avif") ++ " type=" ++ q "image/avif" ++ ">";
          "<source srcset=" ++ q (pc ++ ".webp") ++ " type=" ++ q "image/webp" ++ ">";
          img ].
Proof.
  intros Hne Hslash Hstem H src pc sp img.
  destruct (derived_names stem ext Hne Hslash Hstem H) as (E1 & E2 & E3).
  rewrite rewriteImg_shape. unfold wrapImg, pictureSources.
  fold src in E1, E2. rewrite E1, E2, E3, H.
  fold pc sp img.
  now destruct (List.existsb (String.eqb (stripSlash src)) spImages).
Qed.

End SourceFacts.


(** ** The first occurrence of a text *)

Module OccurrenceFacts.
Import JsString.
Import Regex.
Import Notions.
Import BuildNotions.
Import StringFacts.
Import RegexFacts.
Import MatchFacts.
Import PictureFacts.
Import LiteralFacts.

Lemma startsWith_length (s p : string) :
  startsWith s p = true -> String.length p <= String.length s.
Proof.
  revert s; induction p as [|c p IH]; intros s H; [cbn; lia|].
  destruct s as [|d s]; [discriminate|].
  cbn [startsWith] in H. apply andb_true_iff in H as [_ H].
  cbn [String.length]. specialize (IH s H). lia.
Qed.

Lemma startsWith_app_short (a b v : string) :
  startsWith (a ++ b) v = true -> String.length v <= String.length a ->
  startsWith a v = true.
Proof.
  revert a; induction v as [|c v IH]; intros a H L; [reflexivity|].
  destruct a as [|d a]; [cbn in L; lia|].
  cbn [append startsWith] in *. apply andb_true_iff in H as [H1 H2].
  rewrite H1. cbn [andb]. apply (IH a H2). cbn [String.length] in L. lia.
Qed.

(** A pattern whose first character does not come back in it does not
    start in a text that is followed by it, unless it starts the text. *)
Lemma startsWith_fresh_app (c0 : ascii) (pt y z : string) :
  allChars (isNot c0) pt = true ->
  y <> EmptyString ->
  startsWith y (String c0 pt) = false ->
  startsWith (y ++ String c0 z) (String c0 pt) = false.
Proof.
  intros Hfresh Hy Hs.
  destruct (startsWith (y ++ String c0 z) (String c0 pt)) eqn:E; [|reflexivity].
  exfalso.
  destruct (startsWith_straddle (String c0 pt) y (String c0 z) E Hs)
    as (v & Hv & Hz & Heq).
  destruct v as [|v0 v]; [now apply Hv|].
  cbn [startsWith] in Hz. apply andb_true_iff in Hz as [Hz _].
  apply Ascii.eqb_eq in Hz; subst v0.
  destruct y as [|y0 y]; [now apply Hy|].
  cbn [append] in Heq. injection Heq as _ Hpt. subst pt.
  rewrite allChars_app in Hfresh. cbn [allChars] in Hfresh.
  unfold isNot in Hfresh at 2. rewrite Ascii.eqb_refl in Hfresh.
  cbn [negb andb] in Hfresh. now rewrite andb_false_r in Hfresh.
Qed.

Lemma unbordered_at (pat : string) (j : nat) :
  unbordered pat = true -> 0 < j < String.length pat ->
  startsWith pat (drop j pat) = false.
Proof.
  unfold unbordered. intros H Hj.
  rewrite List.forallb_forall in H.
  apply negb_true_iff. apply H. apply List.in_seq. lia.
Qed.

(** The first occurrence of a pattern that cannot overlap itself. *)
Lemma splitFirst_unbordered (pat x post : string) :
  unbordered pat = true ->
  includes x pat = false ->
  splitFirst pat (x ++ pat ++ post) = Some (x, post).
Proof.
  intros Hu Hx. induction x as [|y x IH].
  - cbn [append]. destruct pat as [|p0 pat].
    + discriminate Hx.
    + cbn [append splitFirst].
      change (String p0 (pat ++ post)) with (String p0 pat ++ post).
      now rewrite startsWith_self_app, drop_length_app.
  - rewrite includes_cons in Hx. apply orb_false_iff in Hx as [Hx1 Hx2].
    change (String y x ++ pat ++ post) with (String y (x ++ pat ++ post)).
    cbn [splitFirst].
    destruct (startsWith (String y (x ++ pat ++ post)) pat) eqn:E.
    + exfalso.
      change (String y (x ++ pat ++ post)) with (String y x ++ pat ++ post) in E.
      destruct (startsWith_straddle pat (String y x) (pat ++ post) E Hx1)
        as (v & Hv & Hz & Heq).
      assert (Lp : String.length pat = String.length (String y x) + String.length v)
        by (now rewrite Heq at 1; rewrite length_append).
      assert (Lv : 0 < String.length v) by (destruct v; [now destruct Hv | cbn; lia]).
      assert (Hd : drop (String.length (String y x)) pat = v).
      { rewrite Heq at 1. apply drop_length_app. }
      cbn [String.length] in Lp, Hd.
      pose proof (unbordered_at pat (S (String.length x)) Hu ltac:(lia)) as Hb.
      rewrite Hd in Hb.
      rewrite (startsWith_app_short pat post v Hz) in Hb by lia.
      discriminate Hb.
    + rewrite (IH Hx2). now destruct pat.
Qed.

(** [s.replace(pat, repl)] at the first occurrence. *)
Lemma replace_first (pat repl x post : string) :
  unbordered pat = true ->
  includes x pat = false ->
  includes repl "$" = false ->
  JsString.replace (x ++ pat ++ post) pat repl = x ++ repl ++ post.
Proof.
  intros Hu Hx Hr. unfold JsString.replace.
  rewrite (splitFirst_unbordered pat x post Hu Hx).
  now rewrite getSubstitution_plain.
Qed.

(** A pattern that matches nowhere cuts nothing. *)
Lemma scan_no_match (r : regex) (s : string) :
  (forall pre suf, s = pre ++ suf -> exec r suf = None) -> scan r s = lits s.
Proof.
  unfold scan. induction s as [|c s IH]; intro H.
  - cbn [scanFrom]. now rewrite (H EmptyString EmptyString eq_refl).
  - rewrite scanFrom_miss by (now apply (H EmptyString)).
    cbn [lits]. f_equal. apply IH. intros pre suf ->.
    now apply (H (String c pre) suf).
Qed.

(** A pattern that starts with a literal matches nowhere in a text that
    does not hold the literal, letter case apart. *)
Lemma exec_litI_absent (p : string) (r : regex) (pre suf : string) :
  includes (toLowerCase (pre ++ suf)) (toLowerCase p) = false ->
  exec (Seq (litI p) r) suf = None.
Proof.
  intro H. unfold exec. cbn [run]. rewrite run_litI.
  rewrite toLowerCase_app in H.
  now rewrite (includes_startsWith _ _ (includes_suffix _ _ _ H)).
Qed.

(** A literal under the [i] flag reads a text that is the literal, letter
    case apart. *)
Lemma run_litI_app {R : Type} (p o rest : string) (r : regex)
      (caps : list string) (k : string -> list string -> option R) :
  toLowerCase o = toLowerCase p ->
  run (Seq (litI p) r) (o ++ rest) caps k = run r rest caps k.
Proof.
  intro H. cbn [run]. rewrite run_litI, toLowerCase_app, H.
  rewrite startsWith_self_app.
  replace (String.length p) with (String.length o)
    by (now rewrite <- (toLowerCase_length o), H, toLowerCase_length).
  now rewrite drop_length_app.
Qed.

End OccurrenceFacts.


(** ** The title and the asset links *)

Module AssemblyFacts.
Import JsString.
Import Regex.
Import Generators.
Import ImageRewriter.
Import Build.
Import Notions.
Import TextNotions.
Import BuildNotions.
Import StringFacts.
Import RegexFacts.
Import MatchFacts.
Import PictureFacts.
Import TagFacts.
Import EscapeFacts.
Import LiteralFacts.
Import OccurrenceFacts.
Import BuildFacts.

#[local] Arguments lowerChar : simpl never.

Lemma lower_lt_head (closer : string) (t : string) :
  toLowerCase closer = String "<" t ->
  exists rest, closer = String "<" rest.
Proof.
  destruct closer as [|c closer]; cbn [toLowerCase]; intro H; [discriminate|].
  injection H as H _.
  assert (E : Ascii.eqb c "<" = true).
  { rewrite <- lowerChar_lt, H. reflexivity. }
  apply Ascii.eqb_eq in E. subst c. now exists closer.
Qed.

(** The title pattern at a title element without markup in it. *)
Lemma titleRegex_element (opener old closer post : string) :
  toLowerCase opener = "<title>" ->
  toLowerCase closer = "</title>" ->
  allChars (isNot "<") old = true ->
  exec titleRegex (opener ++ old ++ closer ++ post) = Some ([], post).
Proof.
  intros Ho Hc Hold. unfold exec, titleRegex. cbn [seqs].
  rewrite (run_litI_app "<title>" opener) by exact Ho.
  change (run (Seq (Star true (notChr "<")) ?r) ?s ?caps ?k)
    with (starLoop (run (Cls (isNot "<"))) true
            (fun s' caps' => run r s' caps' k) (String.length s) s caps).
  apply starLoop_greedy_stop; [| | apply le_n | exact Hold].
  - now rewrite (run_litI_app "</title>" closer) by exact Hc.
  - intros pre rest E Hne Hpre. exfalso.
    destruct (lower_lt_head closer _ Hc) as [cl ->].
    cbn [append] in E.
    exact (no_run_from (isNot "<") "<" _ pre rest eq_refl E Hne Hpre).
Qed.

(** No match of the title pattern starts in a text without [<title>]
    that an opening title tag follows. *)
Lemma titleRegex_before (pre p2 opener rest : string) :
  includes (toLowerCase (pre ++ p2)) "<title>" = false ->
  toLowerCase opener = "<title>" ->
  p2 <> EmptyString ->
  exec titleRegex (p2 ++ opener ++ rest) = None.
Proof.
  intros Hpre Ho Hne. unfold exec, titleRegex. cbn [seqs run].
  rewrite run_litI. rewrite !toLowerCase_app, Ho.
  rewrite toLowerCase_app in Hpre.
  change ("<title>" ++ toLowerCase rest)
    with (String "<" ("title>" ++ toLowerCase rest)).
  change (toLowerCase "<title>") with (String "<" "title>").
  rewrite startsWith_fresh_app; [reflexivity | reflexivity | |].
  - destruct p2; [now destruct Hne | discriminate].
  - apply includes_startsWith. exact (includes_suffix _ _ _ Hpre).
Qed.

Lemma updateTitle_element (env : Env) (t pre opener old closer post : string) :
  env "SITE_TITLE" = Some t ->
  t <> EmptyString ->
  includes t "$" = false ->
  includes (toLowerCase pre) "<title>" = false ->
  toLowerCase opener = "<title>" ->
  toLowerCase closer = "</title>" ->
  allChars (isNot "<") old = true ->
  updateTitle env (pre ++ opener ++ old ++ closer ++ post)
  = pre ++ "<title>" ++ escapeHtml t ++ "</title>" ++ post.
Proof.
  intros Ht Hne Hd Hpre Ho Hc Hold. unfold updateTitle. rewrite Ht.
  assert (Htr : truthy (Some t) = true) by (destruct t; [now destruct Hne | reflexivity]).
  rewrite Htr. cbn [show]. unfold Regex.replace.
  rewrite (replaceFrom_at titleRegex _ pre (opener ++ old ++ closer ++ post)
             post []).
  - rewrite getSubstitution_plain; [now rewrite !append_assoc|].
    rewrite !includes_char_app, escapeHtml_chars, escapeChars_dollar, Hd.
    reflexivity.
  - intros p1 p2 -> Hp2. now apply (titleRegex_before p1).
  - now apply titleRegex_element.
Qed.

Lemma updateTitle_absent (env : Env) (html : string) :
  includes (toLowerCase html) "<title>" = false ->
  updateTitle env html = html.
Proof.
  intro H. unfold updateTitle. destruct (truthy (env "SITE_TITLE")); [|reflexivity].
  apply replace_none. apply test_false_all. intros pre suf ->.
  unfold titleRegex. cbn [seqs].
  now apply (exec_litI_absent "<title>" _ pre suf).
Qed.

(** The two references, renamed one after the other. *)
Lemma updateAssetLinks_both (basePath a b c : string) :
  let cssHref :=
    if nonEmpty basePath then basePath ++ "/style.min.css" else "style.min.css" in
  let jsHref :=
    if nonEmpty basePath then basePath ++ "/script.min.js" else "script.min.js" in
  includes basePath "$" = false ->
  includes a ("href=" ++ q "style.css") = false ->
  includes (a ++ "href=" ++ q cssHref ++ b) ("src=" ++ q "script.js") = false ->
  updateAssetLinks basePath
    (a ++ ("href=" ++ q "style.css") ++ b ++ ("src=" ++ q "script.js") ++ c)
  = a ++ "href=" ++ q cssHref ++ b ++ "src=" ++ q jsHref ++ c.
Proof.
  intros cssHref jsHref Hd Ha Hb. unfold updateAssetLinks. fold cssHref jsHref.
  assert (Dc : includes ("href=" ++ q cssHref) "$" = false).
  { subst cssHref. destruct (nonEmpty basePath);
      unfold q; rewrite !includes_char_app, ?Hd; reflexivity. }
  assert (Dj : includes ("src=" ++ q jsHref) "$" = false).
  { subst jsHref. destruct (nonEmpty basePath);
      unfold q; rewrite !includes_char_app, ?Hd; reflexivity. }
  rewrite (replace_first ("href=" ++ q "style.css") ("href=" ++ q cssHref) a _
             eq_refl Ha Dc).
  replace (a ++ ("href=" ++ q cssHref) ++ b ++ ("src=" ++ q "script.js") ++ c)
    with ((a ++ "href=" ++ q cssHref ++ b) ++ ("src=" ++ q "script.js") ++ c)
    by (now rewrite !append_assoc).
  rewrite (replace_first ("src=" ++ q "script.js") ("src=" ++ q jsHref) _ c
             eq_refl Hb Dj).
  now rewrite !append_assoc.
Qed.

Lemma updateAssetLinks_absent (basePath html : string) :
  includes html ("href=" ++ q "style.css") = false ->
  includes html ("src=" ++ q "script.js") = false ->
  updateAssetLinks basePath html = html.
Proof.
  intros H1 H2. unfold updateAssetLinks, JsString.replace.
  now rewrite (splitFirst_none _ _ H1), (splitFirst_none _ _ H2).
Qed.

(** A document without the marker takes no fragment. *)
Lemma injectFragments_absent (env : Env) (faviconTags html : string) :
  includes html "</head>" = false ->
  injectHeadTags env faviconTags html = html
  /\ injectFragments env faviconTags html = html.
Proof.
  intro H.
  assert (E : injectHeadTags env faviconTags html = html).
  { unfold injectHeadTags. rewrite !(injectBeforeHead_absent _ html H).
    now destruct (nonEmpty faviconTags). }
  split; [exact E|]. unfold injectFragments. rewrite E.
  destruct (nonEmpty (generateStructuredData env html)); [|reflexivity].
  now apply injectBeforeHead_absent.
Qed.

(** A document without [<img] and without [<picture] goes through the
    image pass as it is. *)
Lemma processImages_no_tag (html : string) (dimensions : Dimensions)
      (basePath : string) (spImages : list string) :
  includes (toLowerCase html) "<img" = false ->
  includes (toLowerCase html) "<picture" = false ->
  processImages html dimensions basePath spImages = (html, []).
Proof.
  intros Hi Hp. unfold processImages, protectPictures, replaceAllWith.
  rewrite (scan_no_match pictureRegex html).
  - rewrite render_lits. rewrite (scan_no_match imgRegex html).
    + now rewrite render_lits.
    + intros pre suf ->. unfold imgRegex. cbn [seqs].
      now apply (exec_litI_absent "<img" _ pre suf).
  - intros pre suf ->. unfold pictureRegex. cbn [seqs].
    now apply (exec_litI_absent "<picture" _ pre suf).
Qed.

End AssemblyFacts.


(** ** Fragments and their parts *)

Module FragmentFacts.
Import JsString.
Import Regex.
Import Generators.
Import EnvFile.
Import Notions.
Import StringFacts.
Import RegexFacts.
Import GeneratorFacts.
Import SplitFacts.

Lemma join_nonEmpty_head (sep x : string) (xs : list string) :
  nonEmpty x = true -> nonEmpty (join sep (x :: xs)) = true.
Proof.
  intro H. destruct x as [|c x]; [discriminate|].
  destruct xs; reflexivity.
Qed.

Lemma join_nonEmpty (sep : string) (xs : list string) :
  Forall (fun x => nonEmpty x = true) xs ->
  nonEmpty (join sep xs) = negb (Nat.eqb (List.length xs) 0).
Proof.
  intro H. destruct H as [|x xs Hx _]; [reflexivity|].
  now rewrite join_nonEmpty_head.
Qed.

(** Two lists of fragments that are not empty, joined by line breaks. *)
Lemma join_app (sep : string) (xs ys : list string) :
  join sep (xs ++ ys)
  = match xs, ys with
    | [], _ => join sep ys
    | _, [] => join sep xs
    | _, _ => join sep xs ++ sep ++ join sep ys
    end.
Proof.
  induction xs as [|x xs IH]; [reflexivity|].
  destruct ys as [|y ys]; [now rewrite List.app_nil_r|].
  assert (E : join sep ((x :: xs) ++ y :: ys)
              = x ++ sep ++ join sep (xs ++ y :: ys)).
  { cbn [List.app]. destruct xs; reflexivity. }
  rewrite E, IH.
  destruct xs as [|x' xs]; [reflexivity|].
  rewrite join_cons. now rewrite !append_assoc.
Qed.

Lemma structuredDataTypes_app (a b : string) :
  structuredDataTypes (a ++ "," ++ b)
  = (structuredDataTypes a ++ structuredDataTypes b)%list.
Proof.
  unfold structuredDataTypes.
  change (a ++ "," ++ b) with (a ++ String "," b).
  now rewrite split_app, List.map_app, List.filter_app.
Qed.

(** The data of a type do not depend on the list of types. *)
Lemma generateSingleStructuredData_types (type : string) (env : Env)
      (html v : string) :
  generateSingleStructuredData type (setKey env "STRUCTURED_DATA_TYPE" v) html
  = generateSingleStructuredData type env html.
Proof. reflexivity. Qed.

Lemma payloads_setKey (env : Env) (html v : string) :
  structuredDataPayloads (setKey env "STRUCTURED_DATA_TYPE" v) html
  = List.flat_map
      (fun type =>
         match generateSingleStructuredData type env html with
         | Some data => [escapeJsonLd data]
         | None => []
         end)
      (structuredDataTypes v).
Proof. reflexivity. Qed.

Lemma payloads_app (env : Env) (html a b : string) :
  structuredDataPayloads (setKey env "STRUCTURED_DATA_TYPE" (a ++ "," ++ b)) html
  = (structuredDataPayloads (setKey env "STRUCTURED_DATA_TYPE" a) html
     ++ structuredDataPayloads (setKey env "STRUCTURED_DATA_TYPE" b) html)%list.
Proof.
  rewrite !payloads_setKey, structuredDataTypes_app.
  now rewrite List.flat_map_app.
Qed.

Lemma ldJsonScript_nonEmpty (payload : string) :
  nonEmpty (ldJsonScript payload) = true.
Proof. reflexivity. Qed.

Lemma scripts_nonEmpty (payloads : list string) :
  nonEmpty (join LF (List.map ldJsonScript payloads))
  = negb (Nat.eqb (List.length payloads) 0).
Proof.
  rewrite join_nonEmpty.
  - now rewrite List.length_map.
  - apply Forall_forall. intros x Hx. apply List.in_map_iff in Hx as (p & <- & _).
    apply ldJsonScript_nonEmpty.
Qed.

(** The scripts of a list of types are the scripts of its two halves,
    one line break between them when both give some. *)
Lemma generateStructuredData_app (env : Env) (html a b : string) :
  let one v := generateStructuredData (setKey env "STRUCTURED_DATA_TYPE" v) html in
  one (a ++ "," ++ b)
  = if nonEmpty (one a)
    then if nonEmpty (one b) then one a ++ LF ++ one b else one a
    else one b.
Proof.
  intro one. subst one. cbv beta.
  rewrite !generateStructuredData_payloads, payloads_app, List.map_app, join_app.
  rewrite !scripts_nonEmpty.
  destruct (structuredDataPayloads (setKey env "STRUCTURED_DATA_TYPE" a) html)
    as [|x xs];
    destruct (structuredDataPayloads (setKey env "STRUCTURED_DATA_TYPE" b) html)
    as [|y ys]; reflexivity.
Qed.

(** Every snippet of the analytics fragment starts with a line break. *)
Lemma analytics_silent (env : Env) :
  generateAnalyticsTags env = EmptyString
  <-> truthy (env "GA_MEASUREMENT_ID") = false
      /\ truthy (env "META_PIXEL_ID") = false
      /\ truthy (env "LINE_TAG_ID") = false
      /\ truthy (env "YAHOO_RETARGETING_ID") = false
      /\ truthy (env "CLARITY_PROJECT_ID") = false.
Proof.
  unfold generateAnalyticsTags.
  destruct (truthy (env "GA_MEASUREMENT_ID"));
    destruct (truthy (env "META_PIXEL_ID"));
    destruct (truthy (env "LINE_TAG_ID"));
    destruct (truthy (env "YAHOO_RETARGETING_ID"));
    destruct (truthy (env "CLARITY_PROJECT_ID"));
    cbn [pushIf List.app];
    (split; [intro H | intros (H1 & H2 & H3 & H4 & H5)]);
    try discriminate; try (repeat split; reflexivity);
    exfalso;
    match type of H with
    | join LF (?x :: ?xs) = EmptyString =>
        assert (Hn : nonEmpty (join LF (x :: xs)) = true)
          by (apply join_nonEmpty_head; reflexivity);
        rewrite H in Hn; discriminate Hn
    end.
Qed.

End FragmentFacts.


(** ** White space in patterns *)

Module WhiteSpaceFacts.
Import JsString.
Import Regex.
Import Notions.
Import SpaceNotions.
Import StringFacts.
Import SpaceFacts.
Import LiteralFacts.

(** One of the texts of a list none of which starts another: the text
    that starts the input is read, if there is one. *)
Lemma run_oneOf {R : Type} (ws : list string) (s : string) (caps : list string)
      (k : string -> list string -> option R) :
  prefixFree ws = true ->
  run (oneOf ws) s caps k
  = match List.find (startsWith s) ws with
    | Some w => k (drop (String.length w) s) caps
    | None => None
    end.
Proof.
  induction ws as [|w ws IH]; intro Hf.
  - cbn [oneOf run List.find]. now destruct s.
  - cbn [prefixFree] in Hf. apply andb_true_iff in Hf as [Hw Hf].
    cbn [oneOf run List.find]. rewrite run_lit, (IH Hf).
    destruct (startsWith s w) eqn:E; [|reflexivity].
    rewrite find_all_false.
    + now destruct (k (drop (String.length w) s) caps).
    + intros x Hx. rewrite List.forallb_forall in Hw. specialize (Hw x Hx).
      apply andb_true_iff in Hw as [H1 H2]. apply negb_true_iff in H1, H2.
      destruct (startsWith s x) eqn:Ex; [|reflexivity].
      destruct (startsWith_comparable s w x E Ex); congruence.
Qed.

(** [\s] reads the white space character at the head of the input. *)
Lemma run_whiteSpace {R : Type} (s : string) (caps : list string)
      (k : string -> list string -> option R) :
  run whiteSpace s caps k
  = match stripSpace s with
    | Some r => k r caps
    | None => None
    end.
Proof.
  unfold whiteSpace, stripSpace. rewrite (run_oneOf _ _ _ _ spaces_prefixFree).
  now destruct (List.find (startsWith s) spaces).
Qed.

(** [\s*] reads the white space in front of a text that starts with
    none, when what follows succeeds there. *)
Lemma starLoop_whiteSpace {R : Type} (k : string -> list string -> option R)
      (caps : list string) (x : R) (rest : string) :
  stripSpace rest = None ->
  k rest caps = Some x ->
  forall ws n,
    isBlank ws = true ->
    String.length (ws ++ rest) <= n ->
    starLoop (run whiteSpace) true k n (ws ++ rest) caps = Some x.
Proof.
  intros Hrest Hk ws.
  remember (String.length ws) as m eqn:Em. revert ws Em.
  induction m as [m IH] using lt_wf_ind. intros ws Em n Hb L.
  destruct (isBlank_cases ws Hb) as [-> | (w & r & Hin & -> & Hr)].
  - cbn [append]. destruct n as [|n]; cbn [starLoop]; [exact Hk|].
    now rewrite run_whiteSpace, Hrest, Hk.
  - pose proof (spaces_nonEmpty w Hin) as Hne.
    rewrite !length_append in *.
    destruct n as [|n]; [destruct w; [discriminate | cbn in L; lia]|].
    cbn [starLoop]. rewrite run_whiteSpace, append_assoc.
    rewrite (stripSpace_app w _ Hin).
    assert (Hlt : Nat.ltb (String.length (r ++ rest))
                          (String.length (w ++ r ++ rest)) = true).
    { apply Nat.ltb_lt. rewrite (length_append w).
      destruct w; [discriminate | cbn [String.length]; lia]. }
    rewrite Hlt.
    rewrite (IH (String.length r)); [reflexivity | | reflexivity | exact Hr |].
    + subst m. destruct w; [discriminate | cbn [String.length]; lia].
    + rewrite length_append. destruct w; [discriminate|].
      cbn [String.length] in L. lia.
Qed.

End WhiteSpaceFacts.


(** ** The placeholder of the conversion code *)

Module ScriptFacts.
Import JsString.
Import Regex.
Import Generators.
Import Script.
Import Notions.
Import StringFacts.
Import RegexFacts.
Import MatchFacts.
Import PictureFacts.
Import TagFacts.
Import LiteralFacts.
Import OccurrenceFacts.
Import SourceFacts.
Import SpaceFacts.
Import WhiteSpaceFacts.

(** The scan of a text around the one match [m]. *)
Lemma scan_at (r : regex) (pre m post : string) (caps : list string) :
  (forall p1 p2, pre = p1 ++ p2 -> p2 <> EmptyString ->
                 exec r (p2 ++ m ++ post) = None) ->
  m <> EmptyString ->
  exec r (m ++ post) = Some (caps, post) ->
  scan r (pre ++ m ++ post) = (lits pre ++ Hit m caps :: scan r post)%list.
Proof.
  intros Hpre Hne E. unfold scan. induction pre as [|c pre IH].
  - destruct m as [|c m]; [now destruct Hne|].
    cbn [append lits List.app] in E |- *.
    rewrite (scanFrom_hit _ _ _ post caps (String.length m) E).
    + f_equal.
      * f_equal. change (String c (m ++ post)) with (String c m ++ post).
        apply consumed_app.
      * apply scanFrom_skip_all.
    + cbn [String.length]. rewrite length_append. lia.
  - cbn [append lits List.app].
    rewrite scanFrom_miss.
    + f_equal. apply IH. intros p1 p2 -> Hp2. now apply (Hpre (String c p1) p2).
    + now apply (Hpre EmptyString (String c pre)).
Qed.

Lemma substAll_lits (repl a : string) :
  forall seen ps s,
    substAll repl seen (lits a ++ ps) (a ++ s)
    = a ++ substAll repl (seen ++ a) ps s.
Proof.
  induction a as [|c a IH]; intros seen ps s.
  - cbn [lits List.app append]. now rewrite append_nil_r.
  - cbn [lits List.app append substAll drop]. rewrite IH.
    now rewrite append_assoc.
Qed.

Lemma substAll_lits_end (repl a seen : string) :
  substAll repl seen (lits a) a = a.
Proof.
  pose proof (substAll_lits repl a seen [] EmptyString) as H.
  rewrite List.app_nil_r, append_nil_r in H. rewrite H.
  cbn [substAll]. apply append_nil_r.
Qed.

(** A global replacement around the one match [m]. *)
Lemma replaceAll_at (r : regex) (repl pre m post : string) (caps : list string) :
  (forall p1 p2, pre = p1 ++ p2 -> p2 <> EmptyString ->
                 exec r (p2 ++ m ++ post) = None) ->
  (forall p1 p2, post = p1 ++ p2 -> exec r p2 = None) ->
  m <> EmptyString ->
  exec r (m ++ post) = Some (caps, post) ->
  replaceAll r repl (pre ++ m ++ post)
  = pre ++ getSubstitution m pre post repl ++ post.
Proof.
  intros Hpre Hpost Hne E. unfold replaceAll.
  rewrite (scan_at r pre m post caps Hpre Hne E).
  rewrite (scan_no_match r post Hpost).
  rewrite substAll_lits. cbn [substAll append].
  now rewrite drop_length_app, substAll_lits_end.
Qed.

Lemma replaceAll_none (r : regex) (repl s : string) :
  (forall p1 p2, s = p1 ++ p2 -> exec r p2 = None) ->
  replaceAll r repl s = s.
Proof.
  intro H. unfold replaceAll. rewrite (scan_no_match r s H).
  apply substAll_lits_end.
Qed.

Lemma placeholderRegex_absent (pre suf : string) :
  includes (pre ++ suf) "//" = false ->
  exec placeholderRegex suf = None.
Proof.
  intro H. unfold exec, placeholderRegex. cbn [seqs run]. rewrite run_lit.
  now rewrite (includes_startsWith _ _ (includes_suffix _ _ _ H)).
Qed.

Lemma placeholderRegex_marker (ws post : string) :
  isBlank ws = true ->
  exec placeholderRegex
       ("//" ++ ws ++ "__CONVERSION_CODE_PLACEHOLDER__" ++ post)
  = Some ([], post).
Proof.
  intro Hws. unfold exec, placeholderRegex. cbn [seqs].
  change (run (Seq (lit "//") ?r) ("//" ++ ?x) ?caps ?k) with (run r x caps k).
  change (run (Seq (Star true whiteSpace) ?r) ?s ?caps ?k)
    with (starLoop (run whiteSpace) true
            (fun s' caps' => run r s' caps' k) (String.length s) s caps).
  apply starLoop_whiteSpace; [reflexivity | reflexivity | exact Hws | apply le_n].
Qed.

Lemma placeholderRegex_before (p1 p2 rest : string) :
  includes (p1 ++ p2) "//" = false ->
  endsWith (p1 ++ p2) "/" = false ->
  p2 <> EmptyString ->
  exec placeholderRegex (p2 ++ "//" ++ rest) = None.
Proof.
  intros Hi He Hne. unfold exec, placeholderRegex. cbn [seqs run].
  rewrite run_lit.
  destruct p2 as [|x [|y p2]]; [now destruct Hne| |].
  - rewrite endsWith_last in He. cbn [append startsWith].
    rewrite (Ascii.eqb_sym "/" x), He. reflexivity.
  - pose proof (includes_startsWith _ _ (includes_suffix _ _ _ Hi)) as Hs.
    cbn [append startsWith] in Hs |- *. now rewrite Hs.
Qed.

(** The text handed to the transpiler: the placeholder goes, and the
    conversion code comes after the script. *)
Lemma conversionSource_marker (timePointsJson : string -> string) (env : Env)
      (a ws b : string) :
  includes a "//" = false ->
  endsWith a "/" = false ->
  isBlank ws = true ->
  includes b "//" = false ->
  conversionSource timePointsJson
    (a ++ ("//" ++ ws ++ "__CONVERSION_CODE_PLACEHOLDER__") ++ b) env
  = trim (a ++ b) ++ LF ++ LF ++ generateConversionCode timePointsJson env.
Proof.
  intros Ha He Hws Hb. unfold conversionSource. cbv zeta.
  rewrite (replaceAll_at placeholderRegex EmptyString a _ b []).
  - reflexivity.
  - intros p1 p2 -> Hp2. rewrite !append_assoc.
    now apply (placeholderRegex_before p1).
  - intros p1 p2 ->. now apply (placeholderRegex_absent p1).
  - discriminate.
  - rewrite !append_assoc. now apply placeholderRegex_marker.
Qed.

Lemma conversionSource_plain (timePointsJson : string -> string) (env : Env)
      (js : string) :
  includes js "//" = false ->
  conversionSource timePointsJson js env
  = trim js ++ LF ++ LF ++ generateConversionCode timePointsJson env.
Proof.
  intro H. unfold conversionSource. cbv zeta.
  rewrite replaceAll_none; [reflexivity|].
  intros p1 p2 ->. now apply (placeholderRegex_absent p1).
Qed.

End ScriptFacts.


(** ** Questions and answers *)

Module FaqFacts.
Import JsString.
Import Regex.
Import Generators.
Import Notions.
Import FaqNotions.
Import StringFacts.
Import RegexFacts.
Import MatchFacts.
Import PictureFacts.
Import TagFacts.
Import LiteralFacts.
Import OccurrenceFacts.
Import ScriptFacts.

#[local] Arguments lowerChar : simpl never.

(** A closing text in lower case that starts with [<] and holds no other
    [<] is not met inside a body that does not hold it, letter case
    apart. *)
Lemma closer_not_inside {R : Type} (ct body b1 b2 rest : string) (r : regex)
      (caps : list string) (k : string -> list string -> option R) :
  toLowerCase (String "<" ct) = String "<" ct ->
  allChars (isNot "<") ct = true ->
  includes (toLowerCase body) (String "<" ct) = false ->
  body = b1 ++ b2 -> b2 <> EmptyString ->
  run (Seq (litI (String "<" ct)) r) (b2 ++ String "<" ct ++ rest) caps k = None.
Proof.
  intros Hl Hfresh Hbody -> Hne. cbn [run]. rewrite run_litI.
  rewrite !toLowerCase_app, Hl.
  rewrite toLowerCase_app in Hbody.
  change (String "<" ct ++ toLowerCase rest)
    with (String "<" (ct ++ toLowerCase rest)).
  rewrite startsWith_fresh_app; [reflexivity | exact Hfresh | |].
  - destruct b2; [now destruct Hne | discriminate].
  - apply includes_startsWith. exact (includes_suffix _ _ _ Hbody).
Qed.

(** A lazy [[\s\S]*?] in a group, up to the first closing text. *)
Lemma run_lazy_group {R : Type} (ct body rest : string) (r : regex)
      (caps : list string) (k : string -> list string -> option R) (x : R) :
  toLowerCase (String "<" ct) = String "<" ct ->
  allChars (isNot "<") ct = true ->
  includes (toLowerCase body) (String "<" ct) = false ->
  run r rest (caps ++ [body])%list k = Some x ->
  run (Seq (Grp (Star false anyChar)) (Seq (litI (String "<" ct)) r))
      (body ++ String "<" ct ++ rest) caps k = Some x.
Proof.
  intros Hl Hfresh Hbody Hk.
  change (run (Seq (Grp (Star false anyChar)) ?r0) ?s caps k)
    with (starLoop (run anyChar) false
            (fun s' caps' => run r0 s' (caps' ++ [consumed s s'])%list k)
            (String.length s) s caps).
  apply starLoop_lazy_found; [| apply le_n |].
  - rewrite consumed_app.
    rewrite (run_litI_app (String "<" ct) (String "<" ct)) by reflexivity.
    exact Hk.
  - intros b1 b2 E Hne. now apply (closer_not_inside ct body b1 b2).
Qed.

(** The same without a group. *)
Lemma run_lazy_plain {R : Type} (ct body rest : string) (r : regex)
      (caps : list string) (k : string -> list string -> option R) (x : R) :
  toLowerCase (String "<" ct) = String "<" ct ->
  allChars (isNot "<") ct = true ->
  includes (toLowerCase body) (String "<" ct) = false ->
  run r rest caps k = Some x ->
  run (Seq (Star false anyChar) (Seq (litI (String "<" ct)) r))
      (body ++ String "<" ct ++ rest) caps k = Some x.
Proof.
  intros Hl Hfresh Hbody Hk.
  change (run (Seq (Star false anyChar) ?r0) ?s caps k)
    with (starLoop (run anyChar) false
            (fun s' caps' => run r0 s' caps' k)
            (String.length s) s caps).
  apply starLoop_lazy_found; [| apply le_n |].
  - rewrite (run_litI_app (String "<" ct) (String "<" ct)) by reflexivity.
    exact Hk.
  - intros b1 b2 E Hne. now apply (closer_not_inside ct body b1 b2).
Qed.

(** The attributes of a tag, up to its [>]. *)
Lemma run_attrs {R : Type} (attrs rest : string) (r : regex)
      (caps : list string) (k : string -> list string -> option R) (x : R) :
  allChars (isNot ">") attrs = true ->
  run r rest caps k = Some x ->
  run (Seq (Star true (notChr ">")) (Seq (chr ">") r))
      (attrs ++ String ">" rest) caps k = Some x.
Proof.
  intros Ha Hk.
  change (run (Seq (Star true (notChr ">")) ?r0) ?s caps k)
    with (starLoop (run (Cls (isNot ">"))) true
            (fun s' caps' => run r0 s' caps' k) (String.length s) s caps).
  apply starLoop_greedy_stop; [exact Hk | | apply le_n | exact Ha].
  intros pre rest' E Hne Hpre. exfalso.
  exact (no_run_from (isNot ">") ">" _ pre rest' eq_refl E Hne Hpre).
Qed.

Lemma faqElement_app (sattrs question mid pattrs answer post : string) :
  faqElement sattrs question mid pattrs answer ++ post
  = "<summary" ++ sattrs ++ String ">" (question ++ String "<" "/summary>" ++
      (mid ++ String "<" "p" ++
         (pattrs ++ String ">" (answer ++ String "<" "/p>" ++ post)))).
Proof.
  unfold faqElement.
  change (String ">" ?x) with (">" ++ x).
  change (String "<" "/summary>") with "</summary>".
  change (String "<" "p") with "<p".
  change (String "<" "/p>") with "</p>".
  now rewrite !append_assoc.
Qed.

Lemma faqRegex_element (sattrs question mid pattrs answer post : string) :
  allChars (isNot ">") sattrs = true ->
  allChars (isNot ">") pattrs = true ->
  includes (toLowerCase question) "</summary>" = false ->
  includes (toLowerCase mid) "<p" = false ->
  includes (toLowerCase answer) "</p>" = false ->
  exec faqRegex (faqElement sattrs question mid pattrs answer ++ post)
  = Some ([question; answer], post).
Proof.
  intros Hsa Hpa Hq Hm Ha. rewrite faqElement_app.
  unfold exec, faqRegex. cbn [seqs].
  change (run (Seq (litI "<summary") ?r) ("<summary" ++ ?x) ?caps ?k)
    with (run r x caps k).
  apply run_attrs; [exact Hsa|].
  apply (run_lazy_group "/summary>"); [reflexivity | reflexivity | exact Hq |].
  apply (run_lazy_plain "p"); [reflexivity | reflexivity | exact Hm |].
  apply run_attrs; [exact Hpa|].
  apply (run_lazy_group "/p>"); [reflexivity | reflexivity | exact Ha |].
  reflexivity.
Qed.

Lemma faqRegex_before (p1 p2 rest : string) :
  includes (toLowerCase (p1 ++ p2)) "<summary" = false ->
  p2 <> EmptyString ->
  exec faqRegex (p2 ++ "<summary" ++ rest) = None.
Proof.
  intros Hpre Hne. unfold exec, faqRegex. cbn [seqs run].
  rewrite run_litI. rewrite !toLowerCase_app.
  rewrite toLowerCase_app in Hpre.
  change (toLowerCase "<summary" ++ toLowerCase rest)
    with (String "<" ("summary" ++ toLowerCase rest)).
  change (toLowerCase "<summary") with (String "<" "summary").
  rewrite startsWith_fresh_app; [reflexivity | reflexivity | |].
  - destruct p2; [now destruct Hne | discriminate].
  - apply includes_startsWith. exact (includes_suffix _ _ _ Hpre).
Qed.

Lemma faqItems_lits (s : string) : List.flat_map faqItem (lits s) = [].
Proof. induction s as [|c s IH]; [reflexivity | exact IH]. Qed.

(** The pieces of a document with one question. *)
Lemma scan_faq (pre sattrs question mid pattrs answer post : string) :
  includes (toLowerCase pre) "<summary" = false ->
  includes (toLowerCase post) "<summary" = false ->
  allChars (isNot ">") sattrs = true ->
  allChars (isNot ">") pattrs = true ->
  includes (toLowerCase question) "</summary>" = false ->
  includes (toLowerCase mid) "<p" = false ->
  includes (toLowerCase answer) "</p>" = false ->
  scan faqRegex (pre ++ faqElement sattrs question mid pattrs answer ++ post)
  = (lits pre
       ++ Hit (faqElement sattrs question mid pattrs answer) [question; answer]
       :: lits post)%list.
Proof.
  intros Hpre Hpost Hsa Hpa Hq Hm Ha.
  rewrite (scan_at faqRegex pre _ post [question; answer]).
  - f_equal. f_equal. apply scan_no_match. intros p1 p2 ->.
    unfold faqRegex. cbn [seqs].
    now apply (exec_litI_absent "<summary" _ p1 p2).
  - intros p1 p2 -> Hp2. unfold faqElement. rewrite !append_assoc.
    now apply (faqRegex_before p1).
  - unfold faqElement. cbn [append]. discriminate.
  - now apply faqRegex_element.
Qed.

End FaqFacts.


(** ** SP files and the paths that name them *)

Module RoundTripFacts.
Import JsString.
Import Regex.
Import Generators.
Import ImageRewriter.
Import SpImages.
Import Notions.
Import PathNotions.
Import TreeNotions.
Import StringFacts.
Import SplitFacts.
Import ExtensionFacts.
Import SpFacts.
Import SourceFacts.







End RoundTripFacts.


(** * Further properties of the generators and of the assembly *)

Section GeneratorProperties.
Import JsString.
Import Regex.
Import Generators.
Import EnvFile.
Import ImageRewriter.
Import Build.
Import Script.
Import Notions.
Import TextNotions.
Import GeneratorNotions.
Import FaqNotions.
Import StringFacts.
Import RegexFacts.
Import GeneratorFacts.
Import BuildFacts.
Import EscapeFacts.
Import MetaFacts.
Import SplitFacts.
Import EnvFacts.
Import AssemblyFacts.
Import FragmentFacts.
Import ScriptFacts.
Import FaqFacts.

(** [escapeHtml] works character by character: [&], [<], [>], the double
    quote and the single quote give way to their entities and every other
    character stays, so the result holds none of [<], [>] and the two
    quotes; it holds a [$] exactly when the input does. *)
Theorem escape_html_charwise (s : string) :
  escapeHtml s = escapeChars s
  /\ markupFree (escapeHtml s) = true
  /\ includes (escapeHtml s) "$" = includes s "$".
Proof.
  rewrite escapeHtml_chars. split; [reflexivity|]. split.
  - apply escapeChars_markupFree.
  - apply escapeChars_dollar.
Qed.

(** [escapeHtml] loses nothing: two texts with the same escaped form are
    the same text. *)
Theorem escape_html_injective (a b : string) :
  escapeHtml a = escapeHtml b -> a = b.
Proof. rewrite !escapeHtml_chars. apply escapeChars_injective. Qed.

Lemma escape_html_injective_witness :
  escapeHtml "Q&A <1>" = escapeHtml "Q&A <1>" /\ "Q&A <1>" = "Q&A <1>".
Proof.
  split; [reflexivity|].
  exact (escape_html_injective "Q&A <1>" "Q&A <1>" eq_refl).
Defined.

(** Whatever the configuration, the fragment of [generateMetaTags] is the
    comment line followed by between 3 and 15 [<meta>] elements, one per
    line (its empty branch is never taken).  The values that go through
    [escapeHtml] cannot close their attribute; [OG_IMAGE_WIDTH],
    [OG_IMAGE_HEIGHT], [OG_LOCALE] and [TWITTER_CARD] are written as
    they are, so the elements are well formed when these four hold no
    double quote. *)
Theorem meta_tags_well_formed (env : Env) :
  quoteFree (orDefault (env "OG_IMAGE_WIDTH") "1200") = true ->
  quoteFree (orDefault (env "OG_IMAGE_HEIGHT") "630") = true ->
  quoteFree (orDefault (env "OG_LOCALE") "ja_JP") = true ->
  quoteFree (orDefault (env "TWITTER_CARD") "summary_large_image") = true ->
  exists tags,
    generateMetaTags env = "<!-- OGP -->" ++ LF ++ join LF tags
    /\ Forall metaTag tags
    /\ 3 <= List.length tags <= 15.
Proof. apply generateMetaTags_lines. Qed.

Lemma meta_tags_well_formed_witness :
  exists tags,
    generateMetaTags dollarEnv = "<!-- OGP -->" ++ LF ++ join LF tags
    /\ Forall metaTag tags
    /\ 3 <= List.length tags <= 15.
Proof.
  exact (meta_tags_well_formed dollarEnv eq_refl eq_refl eq_refl eq_refl).
Defined.

(** The analytics fragment is empty exactly when none of the five
    identifiers [GA_MEASUREMENT_ID], [META_PIXEL_ID], [LINE_TAG_ID],
    [YAHOO_RETARGETING_ID] and [CLARITY_PROJECT_ID] has a value
    ([GA_ADS_ID] alone gives nothing). *)
Theorem analytics_silent_iff (env : Env) :
  generateAnalyticsTags env = EmptyString
  <-> truthy (env "GA_MEASUREMENT_ID") = false
      /\ truthy (env "META_PIXEL_ID") = false
      /\ truthy (env "LINE_TAG_ID") = false
      /\ truthy (env "YAHOO_RETARGETING_ID") = false
      /\ truthy (env "CLARITY_PROJECT_ID") = false.
Proof. apply analytics_silent. Qed.

(** The scripts of [STRUCTURED_DATA_TYPE] are made type by type: for a
    list [a,b] the fragment is the one of [a] and the one of [b], with
    one line break between them when both are not empty; the rest of the
    configuration and the document being the same. *)
Theorem structured_data_types_compose (env : Env) (html a b : string) :
  let one v := generateStructuredData (setKey env "STRUCTURED_DATA_TYPE" v) html in
  one (a ++ "," ++ b)
  = if nonEmpty (one a)
    then if nonEmpty (one b) then one a ++ LF ++ one b else one a
    else one b.
Proof. apply generateStructuredData_app. Qed.

(** The [faqpage] type on a document with one question: a [summary]
    element, then the first element whose name starts with [p].  The
    question and the answer are the trimmed texts of the two elements;
    when one of them is empty there is no data at all.  The texts are
    read up to the first [</summary>] and the first [</p>], letter case
    apart. *)
Theorem faq_single_question (env : Env)
        (pre sattrs question mid pattrs answer post : string) :
  includes (toLowerCase pre) "<summary" = false ->
  includes (toLowerCase post) "<summary" = false ->
  allChars (isNot ">") sattrs = true ->
  allChars (isNot ">") pattrs = true ->
  includes (toLowerCase question) "</summary>" = false ->
  includes (toLowerCase mid) "<p" = false ->
  includes (toLowerCase answer) "</p>" = false ->
  generateSingleStructuredData "FAQPage" env
    (pre ++ faqElement sattrs question mid pattrs answer ++ post)
  = if nonEmpty (trim question) && nonEmpty (trim answer)
    then Some (JObj [ schemaOrg; ("@type", JStr "FAQPage");
                      ("mainEntity",
                       JArr [faqQuestion (trim question) (trim answer)]) ])
    else None.
Proof.
  intros Hpre Hpost Hsa Hpa Hq Hm Ha.
  change (generateSingleStructuredData "FAQPage" env ?h)
    with (let faqItems := List.flat_map faqItem (scan faqRegex h) in
          if Nat.ltb 0 (List.length faqItems) then
            Some (JObj [ schemaOrg; ("@type", JStr "FAQPage");
                         ("mainEntity", JArr faqItems) ])
          else None).
  rewrite (scan_faq pre sattrs question mid pattrs answer post
             Hpre Hpost Hsa Hpa Hq Hm Ha).
  cbv zeta. rewrite List.flat_map_app, faqItems_lits.
  cbn [List.app List.flat_map]. rewrite faqItems_lits, List.app_nil_r.
  cbn [faqItem].
  now destruct (nonEmpty (trim question) && nonEmpty (trim answer)).
Qed.

Lemma faq_single_question_witness :
  generateSingleStructuredData "FAQPage" emptyEnv
    ("<body><details>"
       ++ faqElement " class='q'" (utf8 12288 ++ "When? " ++ utf8 160)
                     (LF ++ "  ") EmptyString
                     "In <b>March</b>." ++ "</details></body>")
  = Some (JObj [ schemaOrg; ("@type", JStr "FAQPage");
                 ("mainEntity",
                  JArr [faqQuestion "When?" "In <b>March</b>."]) ])
  /\ generateSingleStructuredData "FAQPage" emptyEnv
       ("<body><details>"
          ++ faqElement EmptyString (utf8 12288) EmptyString EmptyString
                        "In March." ++ "</details></body>")
     = None.
Proof.
  split.
  - exact (faq_single_question emptyEnv "<body><details>" " class='q'"
             (utf8 12288 ++ "When? " ++ utf8 160)
             (LF ++ "  ") EmptyString "In <b>March</b>." "</details></body>"
             eq_refl eq_refl eq_refl eq_refl eq_refl eq_refl eq_refl).
  - exact (faq_single_question emptyEnv "<body><details>" EmptyString
             (utf8 12288) EmptyString EmptyString "In March."
             "</details></body>"
             eq_refl eq_refl eq_refl eq_refl eq_refl eq_refl eq_refl).
Defined.

(** [loadEnv], one line: in a line [key=value] whose key part holds no
    [=] and is no comment, the key is the trimmed text in front of the
    first [=] and the value the trimmed text after it, with any further
    [=] kept; the other keys keep what they had. *)
Theorem env_assignment_line (env : Env) (k v : string) :
  allChars (isNot "=") k = true ->
  startsWith (trimStart k) "#" = false ->
  String.eqb (trim k) "__proto__" = false ->
  envLine env (k ++ "=" ++ v) (trim k) = Some (trim v)
  /\ (forall k', k' <> trim k -> envLine env (k ++ "=" ++ v) k' = env k').
Proof.
  intros Hk Hhash Hproto. rewrite (envLine_assignment env k v Hk Hhash).
  apply String.eqb_neq in Hproto. split.
  - now apply setKey_same.
  - intros k' Hk'. now apply setKey_other.
Qed.

Lemma env_assignment_line_witness :
  envLine emptyEnv
          ((utf8 65279 ++ "OG_URL" ++ utf8 12288) ++ "="
             ++ (utf8 12288 ++ "https://example.com/?a=b&c=d " ++ utf8 160))
          "OG_URL"
  = Some "https://example.com/?a=b&c=d".
Proof.
  exact (proj1 (env_assignment_line emptyEnv
                  (utf8 65279 ++ "OG_URL" ++ utf8 12288)
                  (utf8 12288 ++ "https://example.com/?a=b&c=d " ++ utf8 160)
                  eq_refl eq_refl eq_refl)).
Defined.

(** [loadEnv], line by line: the lines are read in order on the object
    the previous lines left, so the last assignment of a key wins; a line
    that is blank or starts with [#] once trimmed changes nothing; a file
    that cannot be read, or an empty one, gives the empty object. *)
Theorem env_file_line_by_line (content line : string) :
  allChars (isNot lfChar) line = true ->
  loadEnv (Some (content ++ LF ++ line))
  = envLine (loadEnv (Some content)) line
  /\ (nonEmpty (trim line) = false \/ startsWith (trim line) "#" = true ->
      loadEnv (Some (content ++ LF ++ line)) = loadEnv (Some content))
  /\ (forall k v,
         line = k ++ "=" ++ v ->
         allChars (isNot "=") k = true ->
         startsWith (trimStart k) "#" = false ->
         String.eqb (trim k) "__proto__" = false ->
         loadEnv (Some (content ++ LF ++ line)) (trim k) = Some (trim v))
  /\ loadEnv None = emptyEnv
  /\ loadEnv (Some EmptyString) = emptyEnv.
Proof.
  intro Hl. pose proof (loadEnv_app_line content line Hl) as E.
  split; [exact E|]. split; [|split; [|split; reflexivity]].
  - intro H. rewrite E. apply envLine_skipped.
    destruct H as [H | H]; [left | now right].
    now destruct (trim line).
  - intros k v -> Hk Hhash Hproto. rewrite E.
    rewrite (envLine_assignment _ k v Hk Hhash).
    apply setKey_same. now apply String.eqb_neq.
Qed.

Lemma env_file_line_by_line_witness :
  loadEnv (Some (("# site" ++ LF ++ "SITE_TITLE=Old" ++ LF ++ "OG_TYPE=article")
                   ++ LF ++ "SITE_TITLE = New=1"))
          "SITE_TITLE"
  = Some "New=1"
  /\ loadEnv (Some ("SITE_TITLE=Old" ++ LF ++ (utf8 12288 ++ utf8 160)))
     = loadEnv (Some "SITE_TITLE=Old").
Proof.
  split.
  - exact (proj1 (proj2 (proj2
             (env_file_line_by_line
                ("# site" ++ LF ++ "SITE_TITLE=Old" ++ LF ++ "OG_TYPE=article")
                "SITE_TITLE = New=1" eq_refl)))
             "SITE_TITLE " " New=1" eq_refl eq_refl eq_refl eq_refl).
  - exact (proj1 (proj2
             (env_file_line_by_line "SITE_TITLE=Old" (utf8 12288 ++ utf8 160)
                                    eq_refl))
             (or_introl eq_refl)).
Defined.

(** The title: with a [SITE_TITLE] that holds no [$], the first title
    element of the document (tags in any letter case, no [<] in its
    text) gives way to [<title>], the escaped value and [</title>]; a
    document without [<title>] is left as it is. *)
Theorem title_replaced (env : Env) (t pre opener old closer post : string) :
  env "SITE_TITLE" = Some t ->
  nonEmpty t = true ->
  includes t "$" = false ->
  includes (toLowerCase pre) "<title>" = false ->
  toLowerCase opener = "<title>" ->
  toLowerCase closer = "</title>" ->
  plainText old = true ->
  updateTitle env (pre ++ opener ++ old ++ closer ++ post)
  = pre ++ "<title>" ++ escapeHtml t ++ "</title>" ++ post
  /\ (forall html, includes (toLowerCase html) "<title>" = false ->
                   updateTitle env html = html).
Proof.
  intros Ht Hne Hd Hpre Ho Hc Hold. split.
  - apply updateTitle_element; try assumption. now destruct t.
  - intros html H. now apply updateTitle_absent.
Qed.

Lemma title_replaced_witness :
  updateTitle seminarEnv
    ("<html><head>" ++ "<TITLE>" ++ "LP" ++ "</Title>" ++ "</head></html>")
  = "<html><head><title>Tax seminar</title></head></html>".
Proof.
  exact (proj1 (title_replaced seminarEnv "Tax seminar" "<html><head>" "<TITLE>"
                  "LP" "</Title>" "</head></html>"
                  eq_refl eq_refl eq_refl eq_refl eq_refl eq_refl eq_refl)).
Defined.

(** A document without the exact text [</head>] takes no fragment at
    all, whatever the configuration: the four injections leave it as it
    is. *)
Theorem no_head_marker_no_injection (env : Env) (faviconTags html : string) :
  includes html "</head>" = false ->
  injectHeadTags env faviconTags html = html
  /\ injectFragments env faviconTags html = html.
Proof. apply injectFragments_absent. Qed.

Lemma no_head_marker_no_injection_witness :
  injectFragments seminarEnv (generateFavicons true "/lp")
                  "<HTML><HEAD><TITLE>LP</TITLE></HEAD><BODY></BODY></HTML>"
  = "<HTML><HEAD><TITLE>LP</TITLE></HEAD><BODY></BODY></HTML>".
Proof.
  exact (proj2 (no_head_marker_no_injection seminarEnv
                  (generateFavicons true "/lp")
                  "<HTML><HEAD><TITLE>LP</TITLE></HEAD><BODY></BODY></HTML>"
                  eq_refl)).
Defined.

(** The references to the style sheet and to the script: the first
    [href="style.css"] and the first [src="script.js"] are renamed to the
    minified files behind the base path (no [$] in it); a document that
    holds neither text is left as it is. *)
Theorem asset_links_renamed (basePath a b c : string) :
  let cssHref :=
    if nonEmpty basePath then basePath ++ "/style.min.css" else "style.min.css" in
  let jsHref :=
    if nonEmpty basePath then basePath ++ "/script.min.js" else "script.min.js" in
  includes basePath "$" = false ->
  includes a ("href=" ++ q "style.css") = false ->
  includes (a ++ "href=" ++ q cssHref ++ b) ("src=" ++ q "script.js") = false ->
  updateAssetLinks basePath
    (a ++ ("href=" ++ q "style.css") ++ b ++ ("src=" ++ q "script.js") ++ c)
  = a ++ "href=" ++ q cssHref ++ b ++ "src=" ++ q jsHref ++ c
  /\ (forall html,
         includes html ("href=" ++ q "style.css") = false ->
         includes html ("src=" ++ q "script.js") = false ->
         updateAssetLinks basePath html = html).
Proof.
  intros cssHref jsHref Hd Ha Hb. split.
  - now apply updateAssetLinks_both.
  - intros html H1 H2. now apply updateAssetLinks_absent.
Qed.

Lemma asset_links_renamed_witness :
  updateAssetLinks "/lp"
    ("<link rel='stylesheet' " ++ ("href=" ++ q "style.css") ++ "><script "
       ++ ("src=" ++ q "script.js") ++ "></script>")
  = "<link rel='stylesheet' href=" ++ q "/lp/style.min.css" ++ "><script src="
      ++ q "/lp/script.min.js" ++ "></script>".
Proof.
  exact (proj1 (asset_links_renamed "/lp" "<link rel='stylesheet' " "><script "
                  "></script>" eq_refl eq_refl eq_refl)).
Defined.

(** [optimizeJs], before the transpiler: the placeholder comment ([//],
    white space of any kind, the name) is removed where it stands and the
    conversion code is appended to the trimmed script, after two line
    breaks: it does not go where the placeholder was, and it is appended
    as well when there is no placeholder. *)
Theorem conversion_code_appended (timePointsJson : string -> string) (env : Env)
        (a ws b : string) :
  includes a "//" = false ->
  endsWith a "/" = false ->
  isBlank ws = true ->
  includes b "//" = false ->
  conversionSource timePointsJson
    (a ++ ("//" ++ ws ++ "__CONVERSION_CODE_PLACEHOLDER__") ++ b) env
  = trim (a ++ b) ++ LF ++ LF ++ generateConversionCode timePointsJson env
  /\ conversionSource timePointsJson (a ++ b) env
     = trim (a ++ b) ++ LF ++ LF ++ generateConversionCode timePointsJson env.
Proof.
  intros Ha He Hws Hb. split.
  - now apply conversionSource_marker.
  - apply conversionSource_plain.
    destruct a as [|a0 a'] eqn:Ea; [exact Hb|]. rewrite <- Ea in *.
    destruct b as [|b0 b'] eqn:Eb; [now rewrite append_nil_r|].
    destruct (Ascii.eqb b0 "/") eqn:E0.
    + apply Ascii.eqb_eq in E0. subst b0.
      destruct (SourceFacts.last_char a) as (p & x & Hp); [now rewrite Ea|].
      rewrite Hp in He |- *. rewrite SourceFacts.endsWith_last in He.
      rewrite append_assoc. cbn [append].
      apply (includes_app_fresh "/" x "/" p); [| |].
      * cbn [allChars]. unfold isNot. rewrite Ascii.eqb_sym, He. reflexivity.
      * rewrite Hp in Ha. exact (includes_app_l _ _ _ Ha).
      * rewrite includes_cons. cbn [startsWith].
        rewrite (Ascii.eqb_sym "/" x), He. exact Hb.
    + apply (includes_app_fresh "/" b0 "/" a b'); [| exact Ha | exact Hb].
      cbn [allChars]. unfold isNot. rewrite Ascii.eqb_sym, E0. reflexivity.
Qed.

Lemma conversion_code_appended_witness :
  conversionSource (fun s => s)
    ((utf8 65279 ++ "init();" ++ LF)
       ++ ("//" ++ (" " ++ utf8 160) ++ "__CONVERSION_CODE_PLACEHOLDER__")
       ++ (LF ++ "run();" ++ utf8 12288 ++ LF)) emptyEnv
  = "init();" ++ LF ++ LF ++ "run();" ++ LF ++ LF
      ++ generateConversionCode (fun s => s) emptyEnv.
Proof.
  exact (proj1 (conversion_code_appended (fun s => s) emptyEnv
                  (utf8 65279 ++ "init();" ++ LF) (" " ++ utf8 160)
                  (LF ++ "run();" ++ utf8 12288 ++ LF)
                  eq_refl eq_refl eq_refl eq_refl)).
Defined.

End GeneratorProperties.


(** * Further properties of the image pass *)

Section ImageProperties.
Import JsString.
Import Regex.
Import Generators.
Import ImageRewriter.
Import SpImages.
Import Notions.
Import PathNotions.
Import TreeNotions.
Import StringFacts.
Import RegexFacts.
Import ImageFacts.
Import ExtensionFacts.
Import SpFacts.
Import SourceFacts.
Import AssemblyFacts.
Import RoundTripFacts.

(** [findSpImages], one name: a file name has a PC name exactly when it
    ends with [-sp] and one of the extensions [.png], [.jpg], [.jpeg],
    letter case apart; the PC name is the file name without that [-sp],
    the extension kept as it is written. *)
Theorem sp_file_pc_name (name pc : string) :
  pcName name = Some pc
  <-> exists stem sp ext,
      name = stem ++ sp ++ ext /\ toLowerCase sp = "-sp"
      /\ isPictureExt (toLowerCase ext) = true /\ pc = stem ++ ext.
Proof. apply pcName_iff. Qed.

(** [findSpImages], the whole tree: the set holds exactly the paths, from
    the scanned directory, of the PC names of the regular files with an
    SP name, at any depth. *)
Theorem sp_images_of_tree (entries : list entry) (p : string) :
  In p (findSpImages entries)
  <-> exists ds name pc,
      fileAt entries ds name /\ pcName name = Some pc
      /\ p = join "/" (ds ++ [pc]).
Proof. apply findSpImages_files. Qed.

(** The picture block, name by name.  For a [src] made of a stem and an
    image extension (the stem not empty, not ending with a slash nor with
    an image extension), the [<source>] elements name the stem with
    [.avif] and [.webp], and for an image of the SP set the stem with
    [-sp] and [.avif], [.webp] and the extension in lower case. *)
Theorem picture_sources_by_name (dimensions : Dimensions) (prefix : string)
        (spImages : list string) (k : nat) (before stem ext after : string) :
  nonEmpty stem = true ->
  endsWith stem "/" = false ->
  endsWithPictureExt stem = false ->
  isPictureExt (toLowerCase ext) = true ->
  let src := stem ++ ext in
  let pc := withPrefix prefix src stem in
  let sp := withPrefix prefix src (stem ++ "-sp") in
  let img :=
    imgTag before (servedSrc prefix src)
           (newAfter dimensions k before src after) in
  rewriteImg dimensions prefix spImages k before src after
  = if List.existsb (String.eqb (stripSlash src)) spImages then
      pictureBlock
        [ "<source media=" ++ q "(max-width: 767px)" ++ " srcset="
            ++ q (sp ++ ".avif") ++ " type=" ++ q "image/avif" ++ ">";
          "<source media=" ++ q "(max-width: 767px)" ++ " srcset="
            ++ q (sp ++ ".webp") ++ " type=" ++ q "image/webp" ++ ">";
          "<source media=" ++ q "(max-width: 767px)" ++ " srcset="
            ++ q (sp ++ toLowerCase ext) ++ ">";
          "<source srcset=" ++ q (pc ++ ".avif") ++ " type=" ++ q "image/avif" ++ ">";
          "<source srcset=" ++ q (pc ++ ".webp") ++ " type=" ++ q "image/webp" ++ ">";
          img ]
    else
      pictureBlock
        [ "<source srcset=" ++ q (pc ++ ".avif") ++ " type=" ++ q "image/avif" ++ ">";
          "<source srcset=" ++ q (pc ++ ".webp") ++ " type=" ++ q "image/webp" ++ ">";
          img ].
Proof.
  intros Hne Hslash Hstem H. apply rewriteImg_picture; try assumption.
  now destruct stem.
Qed.

Lemma picture_sources_by_name_witness :
  rewriteImg [] "/lp" [] 1 " " "images/hero.v2.PNG" EmptyString
  = pictureBlock
      [ "<source srcset=" ++ q "/lp/images/hero.v2.avif" ++ " type="
          ++ q "image/avif" ++ ">";
        "<source srcset=" ++ q "/lp/images/hero.v2.webp" ++ " type="
          ++ q "image/webp" ++ ">";
        "<img src=" ++ q "/lp/images/hero.v2.PNG" ++ ">" ].
Proof.
  exact (picture_sources_by_name [] "/lp" [] 1 " " "images/hero.v2" ".PNG"
           EmptyString eq_refl eq_refl eq_refl eq_refl).
Defined.



(** A document that holds neither [<img] nor [<picture], letter case
    apart, comes back from [processImages] as it is, with no warning. *)
Theorem no_image_tags_untouched (html : string) (dimensions : Dimensions)
        (basePath : string) (spImages : list string) :
  includes (toLowerCase html) "<img" = false ->
  includes (toLowerCase html) "<picture" = false ->
  processImages html dimensions basePath spImages = (html, []).
Proof. apply processImages_no_tag. Qed.

Lemma no_image_tags_untouched_witness :
  processImages "<body><h1>Title</h1><p>Text <a href='x.png'>x</a></p></body>"
                [("x.png", mkDimension 1 1)] "/lp" ["x.png"]
  = ("<body><h1>Title</h1><p>Text <a href='x.png'>x</a></p></body>", []).
Proof.
  exact (no_image_tags_untouched
           "<body><h1>Title</h1><p>Text <a href='x.png'>x</a></p></body>"
           [("x.png", mkDimension 1 1)] "/lp" ["x.png"] eq_refl eq_refl).
Defined.

End ImageProperties.


(** ** Documents with several images *)

Module DocumentFacts.
Import JsString.
Import Regex.
Import Generators.
Import ImageRewriter.
Import Notions.
Import BuildNotions.
Import DocumentNotions.
Import StringFacts.
Import RegexFacts.
Import ImageFacts.
Import MatchFacts.
Import PictureFacts.
Import TagFacts.
Import LiteralFacts.
Import OccurrenceFacts.
Import SourceFacts.
Import ScriptFacts.

#[local] Arguments lowerChar : simpl never.
#[local] Arguments isQuote : simpl never.

(** No match starts in [pre]: the scan goes on after it. *)
Lemma scan_skip (r : regex) (pre rest : string) :
  (forall p1 p2, pre = p1 ++ p2 -> p2 <> EmptyString ->
                 exec r (p2 ++ rest) = None) ->
  scanFrom r 0 (pre ++ rest) = (lits pre ++ scanFrom r 0 rest)%list.
Proof.
  induction pre as [|c pre IH]; intro H; [reflexivity|].
  cbn [append lits List.app].
  rewrite scanFrom_miss by (now apply (H EmptyString (String c pre))).
  f_equal. apply IH. intros p1 p2 -> Hp2. now apply (H (String c p1) p2).
Qed.

Lemma tagFree_parts (s : string) :
  tagFree s = true ->
  includes (toLowerCase s) "<img" = false
  /\ includes (toLowerCase s) "<picture" = false.
Proof.
  unfold tagFree. intro H. apply andb_true_iff in H as [H1 H2].
  now apply negb_true_iff in H1, H2.
Qed.

(** In front of a tag, a text without image tags holds no match. *)
Lemma img_before (p1 p2 rest : string) :
  includes (toLowerCase (p1 ++ p2)) "<img" = false ->
  p2 <> EmptyString ->
  exec imgRegex (p2 ++ String "<" rest) = None.
Proof.
  intros Hpre Hne. unfold exec, imgRegex. cbn [seqs run].
  rewrite run_litI. rewrite !toLowerCase_app.
  rewrite toLowerCase_app in Hpre.
  change (toLowerCase (String "<" rest)) with (String "<" (toLowerCase rest)).
  change (toLowerCase "<img") with (String "<" "img").
  rewrite startsWith_fresh_app; [reflexivity | reflexivity | |].
  - destruct p2; [now destruct Hne | discriminate].
  - apply includes_startsWith. exact (includes_suffix _ _ _ Hpre).
Qed.

Lemma picture_before (p1 p2 rest : string) :
  includes (toLowerCase (p1 ++ p2)) "<picture" = false ->
  p2 <> EmptyString ->
  exec pictureRegex (p2 ++ String "<" rest) = None.
Proof.
  intros Hpre Hne. unfold exec, pictureRegex. cbn [seqs run].
  rewrite run_litI. rewrite !toLowerCase_app.
  rewrite toLowerCase_app in Hpre.
  change (toLowerCase (String "<" rest)) with (String "<" (toLowerCase rest)).
  change (toLowerCase "<picture") with (String "<" "picture").
  rewrite startsWith_fresh_app; [reflexivity | reflexivity | |].
  - destruct p2; [now destruct Hne | discriminate].
  - apply includes_startsWith. exact (includes_suffix _ _ _ Hpre).
Qed.

(** The facts that make a tag simple. *)
Lemma simpleTag_parts (t : ImgTag) :
  simpleTag t = true ->
  allChars (isNot "<") (tagBefore t) = true
  /\ allChars (isNot "<") (tagSrc t) = true
  /\ allChars (isNot "<") (tagAfter t) = true
  /\ isQuote (tagOpen t) = true /\ isQuote (tagClose t) = true
  /\ forall rest,
      exec imgRegex (tagText t ++ rest)
      = Some ([tagBefore t; tagSrc t; tagAfter t], rest).
Proof.
  unfold simpleTag, simpleImg, plainText. intro H.
  repeat (apply andb_true_iff in H; destruct H as [H ?]).
  match goal with
  | Hn : negb _ = true |- _ => apply negb_true_iff in Hn
  end.
  repeat split; try assumption.
  intro rest. unfold tagText. rewrite imgElement_app.
  apply imgRegex_tag; try assumption.
  destruct (tagSrc t); [discriminate | discriminate].
Qed.

Lemma tagText_head (t : ImgTag) :
  exists inner, tagText t = String "<" (String "i" inner).
Proof. unfold tagText, imgElement. cbn [append]. eauto. Qed.

Lemma tagText_plain (t : ImgTag) :
  simpleTag t = true ->
  exists inner,
    tagText t = String "<" inner /\ allChars (isNot "<") inner = true.
Proof.
  intro H. destruct (simpleTag_parts t H) as (Hb & Hs & Ha & Hq1 & Hq2 & _).
  unfold tagText, imgElement. cbn [append]. eexists. split; [reflexivity|].
  cbn [allChars]. rewrite allChars_app. cbn [append allChars].
  rewrite allChars_app. cbn [allChars]. rewrite allChars_app. cbn [allChars].
  rewrite Hb, Hs, Ha, (quote_not_lt _ Hq1), (quote_not_lt _ Hq2).
  reflexivity.
Qed.

Lemma document_head (items : list (string * ImgTag)) (tail : string) :
  items <> [] ->
  exists text t rest, document items tail = text ++ String "<" rest
                      /\ items = (text, t) :: List.tl items.
Proof.
  destruct items as [|[text t] items]; [now intros []|]. intros _.
  destruct (tagText_head t) as [inner E]. cbn [document]. rewrite E.
  cbn [append]. now exists text, t, (String "i" inner ++ document items tail).
Qed.

(** The picture pattern cuts nothing out of a document of simple tags. *)
Lemma scan_picture_document (items : list (string * ImgTag)) (tail : string) :
  Forall (fun it => tagFree (fst it) = true /\ simpleTag (snd it) = true) items ->
  tagFree tail = true ->
  scanFrom pictureRegex 0 (document items tail) = lits (document items tail).
Proof.
  intros Hitems Htail. induction Hitems as [|[text t] items [Ht Hs] _ IH].
  - cbn [document]. apply (scan_no_match pictureRegex tail).
    intros p1 p2 ->. unfold pictureRegex. cbn [seqs].
    apply (exec_litI_absent "<picture" _ p1 p2).
    exact (proj2 (tagFree_parts _ Htail)).
  - cbn [document fst snd] in *.
    destruct (tagText_plain t Hs) as (inner & E & Hin).
    destruct (tagText_head t) as [inner' E'].
    rewrite E. cbn [append].
    rewrite scan_skip.
    + rewrite lits_app. f_equal.
      rewrite scanFrom_miss.
      * cbn [lits]. f_equal.
        rewrite (scan_plain pictureRegex inner _ pictureRegex_startsAtLt Hin).
        now rewrite lits_app, IH.
      * rewrite E in E'. injection E' as ->. cbn [append].
        now apply pictureRegex_not_img.
    + intros p1 p2 -> Hp2. apply (picture_before p1); [|exact Hp2].
      exact (proj2 (tagFree_parts _ Ht)).
Qed.

(** The image pattern cuts out the tags, and nothing else. *)
Lemma scan_img_document (items : list (string * ImgTag)) (tail : string) :
  Forall (fun it => tagFree (fst it) = true /\ simpleTag (snd it) = true) items ->
  tagFree tail = true ->
  scanFrom imgRegex 0 (document items tail) = tagPieces items tail.
Proof.
  intros Hitems Htail. induction Hitems as [|[text t] items [Ht Hs] _ IH].
  - cbn [document tagPieces]. apply (scan_no_match imgRegex tail).
    intros p1 p2 ->. unfold imgRegex. cbn [seqs].
    apply (exec_litI_absent "<img" _ p1 p2).
    exact (proj1 (tagFree_parts _ Htail)).
  - cbn [document tagPieces fst snd] in *.
    destruct (simpleTag_parts t Hs) as (_ & _ & _ & _ & _ & Hexec).
    destruct (tagText_head t) as [inner E].
    rewrite scan_skip.
    + f_equal.
      pose proof (Hexec (document items tail)) as Hx.
      rewrite E in Hx |- *. cbn [append] in Hx |- *.
      rewrite (scanFrom_hit _ _ _ (document items tail) _
                 (String.length (String "i" inner)) Hx).
      * f_equal.
        -- f_equal.
           change (String "<" (String "i" (inner ++ document items tail)))
             with (String "<" (String "i" inner) ++ document items tail).
           apply consumed_app.
        -- change (String "i" (inner ++ document items tail))
             with (String "i" inner ++ document items tail).
           rewrite scanFrom_skip_all. exact IH.
      * cbn [String.length]. rewrite length_append. lia.
    + intros p1 p2 -> Hp2. rewrite E. cbn [append].
      apply (img_before p1); [|exact Hp2].
      exact (proj1 (tagFree_parts _ Ht)).
Qed.

(** The callback numbers the tags from [S n]. *)
Lemma render_tagPieces (dimensions : Dimensions) (prefix : string)
      (spImages : list string) (items : list (string * ImgTag)) (tail : string) :
  forall n,
    render (imgCallback dimensions prefix spImages) n (tagPieces items tail)
    = (n + List.length items,
       rewritten dimensions prefix spImages (S n) items tail).
Proof.
  induction items as [|[text t] items IH]; intro n.
  - cbn [tagPieces rewritten List.length]. rewrite render_lits.
    now rewrite Nat.add_0_r.
  - cbn [tagPieces rewritten List.length]. rewrite render_lits_app.
    cbn [render imgCallback]. rewrite IH. cbn [fst snd].
    f_equal. lia.
Qed.

(** [processImages] on a document of simple tags. *)
Lemma processImages_document (items : list (string * ImgTag)) (tail : string)
      (dimensions : Dimensions) (basePath : string) (spImages : list string) :
  Forall (fun it => tagFree (fst it) = true /\ simpleTag (snd it) = true) items ->
  tagFree tail = true ->
  processImages (document items tail) dimensions basePath spImages
  = (rewritten dimensions (normalizePrefix basePath) spImages 1 items tail, []).
Proof.
  intros Hitems Htail. unfold processImages, protectPictures, replaceAllWith, scan.
  rewrite (scan_picture_document items tail Hitems Htail), render_lits.
  rewrite (scan_img_document items tail Hitems Htail), render_tagPieces.
  reflexivity.
Qed.

End DocumentFacts.


(** ** The image of the Meta Pixel snippet *)

Module PixelFacts.
Import JsString.
Import Regex.
Import Generators.
Import EnvFile.
Import NodePath.
Import ImageRewriter.
Import Build.
Import Notions.
Import PathNotions.
Import BuildNotions.
Import DocumentNotions.
Import StringFacts.
Import RegexFacts.
Import ImageFacts.
Import MatchFacts.
Import PictureFacts.
Import TagFacts.
Import BuildFacts.
Import LiteralFacts.
Import OccurrenceFacts.
Import ExtnameFacts.
Import SourceFacts.
Import RoundTripFacts.
Import DocumentFacts.

#[local] Arguments lowerChar : simpl never.
#[local] Arguments isQuote : simpl never.

(** *** Occurrences across a boundary *)

Lemma noStraddleR_at (b pat : string) (j : nat) :
  noStraddleR b pat = true -> 0 < j < String.length pat ->
  startsWith b (drop j pat) = false.
Proof.
  unfold noStraddleR. intros H Hj. rewrite List.forallb_forall in H.
  apply negb_true_iff. apply H. apply List.in_seq. lia.
Qed.

Lemma noStraddleL_at (a pat : string) (j : nat) :
  noStraddleL a pat = true -> 0 < j < String.length pat ->
  endsWith a (take j pat) = false.
Proof.
  unfold noStraddleL. intros H Hj. rewrite List.forallb_forall in H.
  apply negb_true_iff. apply H. apply List.in_seq. lia.
Qed.

Lemma straddle_lengths (pat y v : string) :
  pat = y ++ v -> y <> EmptyString -> v <> EmptyString ->
  0 < String.length y < String.length pat
  /\ drop (String.length y) pat = v /\ take (String.length y) pat = y.
Proof.
  intros -> Hy Hv. rewrite length_append, drop_length_app, take_length_app.
  destruct y; [now destruct Hy|]. destruct v; [now destruct Hv|].
  cbn [String.length]. repeat split; lia.
Qed.

Lemma includes_app_right (a b pat : string) :
  noStraddleR b pat = true ->
  includes a pat = false -> includes b pat = false ->
  includes (a ++ b) pat = false.
Proof.
  intros Hn Ha Hb. induction a as [|x a IH]; [exact Hb|].
  rewrite includes_cons in Ha. apply orb_false_iff in Ha as [Ha1 Ha2].
  change (String x a ++ b) with (String x (a ++ b)).
  rewrite includes_cons. apply orb_false_iff. split; [|now apply IH].
  destruct (startsWith (String x (a ++ b)) pat) eqn:E; [|reflexivity].
  exfalso.
  change (String x (a ++ b)) with (String x a ++ b) in E.
  destruct (startsWith_straddle pat (String x a) b E Ha1) as (v & Hv & Hz & Heq).
  destruct (straddle_lengths pat (String x a) v Heq ltac:(discriminate) Hv)
    as (Hj & Hd & _).
  pose proof (noStraddleR_at b pat _ Hn Hj) as Hs.
  rewrite Hd in Hs. congruence.
Qed.

Lemma includes_app_left_gen (b pat : string) :
  includes b pat = false ->
  forall s a0,
    noStraddleL (a0 ++ s) pat = true ->
    includes s pat = false ->
    includes (s ++ b) pat = false.
Proof.
  intros Hb s. induction s as [|x s IH]; intros a0 Hn Hs; [exact Hb|].
  rewrite includes_cons in Hs. apply orb_false_iff in Hs as [Hs1 Hs2].
  change (String x s ++ b) with (String x (s ++ b)).
  rewrite includes_cons. apply orb_false_iff. split.
  - destruct (startsWith (String x (s ++ b)) pat) eqn:E; [|reflexivity].
    exfalso.
    change (String x (s ++ b)) with (String x s ++ b) in E.
    destruct (startsWith_straddle pat (String x s) b E Hs1) as (v & Hv & Hz & Heq).
    destruct (straddle_lengths pat (String x s) v Heq ltac:(discriminate) Hv)
      as (Hj & _ & Ht).
    pose proof (noStraddleL_at (a0 ++ String x s) pat _ Hn Hj) as He.
    rewrite Ht, endsWith_app in He. discriminate He.
  - apply (IH (a0 ++ String x EmptyString)); [|exact Hs2].
    now rewrite append_assoc.
Qed.

Lemma includes_app_left (a b pat : string) :
  noStraddleL a pat = true ->
  includes a pat = false -> includes b pat = false ->
  includes (a ++ b) pat = false.
Proof.
  intros Hn Ha Hb. now apply (includes_app_left_gen b pat Hb a EmptyString).
Qed.

Lemma includes_absent_char (c0 : ascii) (pt s : string) :
  allChars (isNot c0) s = true -> includes s (String c0 pt) = false.
Proof.
  induction s as [|x s IH]; [reflexivity|]. cbn [allChars]. intro H.
  apply andb_true_iff in H as [Hx H]. rewrite includes_cons, (IH H).
  unfold isNot in Hx. apply negb_true_iff in Hx.
  cbn [startsWith]. now rewrite (Ascii.eqb_sym c0 x), Hx.
Qed.

(** A text without [<] between two texts: the occurrences of a pattern
    that starts with [<] are those of the two texts. *)
Lemma includes_around (x id y pt : string) :
  allChars (isNot "<") id = true ->
  noStraddleL x (String "<" pt) = true ->
  includes x (String "<" pt) = false ->
  includes y (String "<" pt) = false ->
  includes (x ++ id ++ y) (String "<" pt) = false.
Proof.
  intros Hid Hn Hx Hy. apply includes_app_left; [exact Hn | exact Hx|].
  induction id as [|c id IH]; [exact Hy|].
  cbn [allChars] in Hid. apply andb_true_iff in Hid as [Hc Hid].
  change (String c id ++ y) with (String c (id ++ y)).
  rewrite includes_cons, (IH Hid).
  unfold isNot in Hc. apply negb_true_iff in Hc.
  cbn [startsWith]. now rewrite (Ascii.eqb_sym "<" c), Hc.
Qed.

(** *** Identifiers *)

Lemma isIdChar_facts (c : ascii) :
  isIdChar c = true ->
  isNot "<" c = true /\ isNot ">" c = true /\ isNot "$" c = true
  /\ negb (isQuote c) = true /\ isNameChar c = true
  /\ isNot "<" (lowerChar c) = true.
Proof.
  destruct c as [b0 b1 b2 b3 b4 b5 b6 b7].
  destruct b0, b1, b2, b3, b4, b5, b6, b7; vm_compute; intro H;
    try discriminate H; repeat split.
Qed.

Lemma allChars_impl (p p' : ascii -> bool) (s : string) :
  (forall c, p c = true -> p' c = true) ->
  allChars p s = true -> allChars p' s = true.
Proof.
  intro Himp. induction s as [|c s IH]; [trivial|]. cbn [allChars]. intro H.
  apply andb_true_iff in H as [Hc H]. now rewrite (Himp c Hc), (IH H).
Qed.

Lemma allChars_lower (p : ascii -> bool) (s : string) :
  allChars (fun c => p (lowerChar c)) s = allChars p (toLowerCase s).
Proof. induction s as [|c s IH]; [reflexivity|]. cbn. now rewrite IH. Qed.

Lemma id_facts (id : string) :
  allChars isIdChar id = true ->
  allChars (isNot "<") id = true /\ allChars (isNot ">") id = true
  /\ allChars (isNot "$") id = true
  /\ allChars (fun c => negb (isQuote c)) id = true
  /\ allChars isNameChar id = true
  /\ allChars (isNot "<") (toLowerCase id) = true.
Proof.
  intro H. repeat split;
    try (rewrite <- allChars_lower);
    (eapply allChars_impl; [|exact H]); intros c Hc;
    destruct (isIdChar_facts c Hc) as (H1 & H2 & H3 & H4 & H5 & H6);
    assumption.
Qed.

(** *** The snippet *)

Lemma imgTag_element (before src after : string) :
  imgTag before src after = imgElement before dqChar src dqChar after.
Proof.
  unfold imgTag, imgElement, q, DQ.
  change (String (ascii_of_nat 34) EmptyString ++ src
            ++ String (ascii_of_nat 34) EmptyString)
    with (String dqChar (src ++ String dqChar EmptyString)).
  change (String dqChar (src ++ String dqChar (after ++ ">")))
    with (String dqChar (src ++ String dqChar EmptyString ++ after ++ ">")).
  change (String dqChar (src ++ String dqChar EmptyString) ++ after ++ ">")
    with (String dqChar ((src ++ String dqChar EmptyString) ++ after ++ ">")).
  now rewrite !append_assoc.
Qed.

Lemma metaPixelTag_parts (id : string) :
  metaPixelTag id
  = pixelHead id ++ tagText (pixelTag id) ++ "</noscript>".
Proof.
  unfold tagText, pixelTag. cbn [tagBefore tagOpen tagSrc tagClose tagAfter].
  rewrite <- imgTag_element.
  unfold metaPixelTag, pixelHead, pixelHeadA, pixelHeadB, lines, join, imgTag.
  cbn [String.concat]. unfold LF.
  rewrite !append_assoc. reflexivity.
Qed.

(** The path of a file without extension. *)
Lemma extname_no_dot (p name : string) :
  nonEmpty name = true ->
  allChars isNameChar name = true ->
  extname (p ++ String "/" name) = EmptyString.
Proof.
  intros Hne Hn. unfold extname.
  set (a := p ++ String "/" EmptyString).
  assert (Ea : p ++ String "/" name = a ++ name).
  { subst a. now rewrite append_assoc. }
  assert (La : String.length a = S (String.length p)).
  { subst a. rewrite length_append. cbn [String.length]. lia. }
  assert (Le : exists m, String.length name = S m).
  { destruct name as [|n0 n']; [discriminate | now exists (String.length n')]. }
  destruct Le as [m Le].
  assert (E : exists sp,
             extnameLoop (String.length (a ++ name)) (a ++ name)
                         (mkExtState None 0 None true 0)
             = mkExtState None sp (Some (String.length (a ++ name))) false 0).
  { set (L := String.length (a ++ name)).
    assert (HL : L = S (String.length a + m)).
    { subst L. rewrite length_append, Le. lia. }
    rewrite HL.
    destruct (get_allChars _ name Hn m ltac:(lia)) as (c & Hget & Hc).
    rewrite (extnameLoop_step _ (a ++ name) _ c) by (now rewrite get_app_r).
    unfold isNameChar in Hc. apply andb_true_iff in Hc as [H1 H2].
    apply negb_true_iff in H1, H2.
    unfold extnameStep. rewrite H1, H2.
    cbn [endIdx isNone startDot startPart preDotState negb].
    rewrite (extnameLoop_name a name 0 _ 0 Hn) by lia.
    rewrite La.
    assert (G : String.get (String.length p) (a ++ name) = Some "/"%char).
    { rewrite <- Ea.
      replace (String.length p) with (String.length p + 0) at 1 by lia.
      now rewrite get_app_r. }
    rewrite (extnameLoop_step _ (a ++ name) _ _ G).
    unfold extnameStep. change (Ascii.eqb "/" "/") with true.
    cbn [matchedSlash negb startDot endIdx preDotState].
    eexists. f_equal. f_equal. lia. }
  destruct E as [sp E]. rewrite Ea, E. reflexivity.
Qed.

(** [src=] and a quote need a quote in fifth place. *)
Lemma exec_quotedSrc_none (x rest : string) :
  5 <= String.length x ->
  allChars (fun c => negb (isQuote c)) x = true ->
  exec quotedSrc (x ++ rest) = None.
Proof.
  intros L H.
  destruct x as [|c1 [|c2 [|c3 [|c4 [|c5 x]]]]]; cbn [String.length] in L;
    try lia.
  cbn [allChars] in H.
  repeat (apply andb_true_iff in H; destruct H as [? H]).
  match goal with
  | Hq : negb (isQuote c5) = true |- _ => apply negb_true_iff in Hq
  end.
  unfold exec, quotedSrc, quote. cbn [append seqs litI chrI run].
  repeat match goal with
         | |- context [if Ascii.eqb ?a ?b then _ else _] =>
             destruct (Ascii.eqb a b)
         end; try reflexivity;
    match goal with
    | Hq : isQuote c5 = false |- _ => now rewrite Hq
    end.
Qed.

Lemma test_quotedSrc_tail (y w : string) :
  allChars (fun c => negb (isQuote c)) y = true ->
  (exists w4 w', w = w4 ++ w' /\ String.length w4 = 4
                 /\ allChars (fun c => negb (isQuote c)) w4 = true) ->
  test quotedSrc w = false ->
  test quotedSrc (y ++ w) = false.
Proof.
  intros Hy (w4 & w' & -> & L4 & H4) Hw.
  induction y as [|c y IH]; [exact Hw|].
  cbn [allChars] in Hy. apply andb_true_iff in Hy as [Hc Hy].
  cbn [append test].
  replace (String c (y ++ w4 ++ w')) with ((String c y ++ w4) ++ w')
    by (cbn [append]; now rewrite append_assoc).
  rewrite exec_quotedSrc_none.
  - now apply IH.
  - rewrite length_append. cbn [String.length]. lia.
  - rewrite allChars_app. cbn [allChars]. now rewrite Hc, Hy, H4.
Qed.

(** The tag of the snippet is a simple tag. *)
Lemma pixelTag_simple (id : string) :
  allChars isIdChar id = true -> simpleTag (pixelTag id) = true.
Proof.
  intro Hid.
  destruct (id_facts id Hid) as (Hlt & Hgt & _ & Hq & _ & _).
  unfold simpleTag, simpleImg, pixelTag, plainText.
  cbn [tagBefore tagOpen tagSrc tagClose tagAfter].
  rewrite !allChars_app, Hlt, Hgt, Hq.
  assert (Ht : test quotedSrc
                 (("https://www.facebook.com/tr?id=" ++ id
                     ++ "&ev=PageView&noscript=1") ++ String dqChar "/") = false).
  { replace (("https://www.facebook.com/tr?id=" ++ id
                ++ "&ev=PageView&noscript=1") ++ String dqChar "/")
      with (("https://www.facebook.com/tr?id=" ++ id ++ "&ev=PageView&noscri")
              ++ ("pt=1" ++ String dqChar "/"))
      by (now rewrite !append_assoc).
    apply test_quotedSrc_tail.
    - now rewrite !allChars_app, Hq.
    - exists "pt=1", (String dqChar "/"). now repeat split.
    - reflexivity. }
  rewrite Ht. reflexivity.
Qed.

(** The callback writes the tag of the snippet as it was. *)
Lemma rewriteImg_pixel (dimensions : Dimensions) (prefix : string)
      (spImages : list string) (id : string) :
  allChars isIdChar id = true ->
  rewriteImg dimensions prefix spImages 1
             (tagBefore (pixelTag id)) (tagSrc (pixelTag id))
             (tagAfter (pixelTag id))
  = tagText (pixelTag id).
Proof.
  intro Hid.
  destruct (id_facts id Hid) as (_ & _ & _ & _ & Hn & _).
  rewrite rewriteImg_shape. unfold wrapImg, tagText.
  cbn [pixelTag tagBefore tagOpen tagSrc tagClose tagAfter].
  assert (Ext : extname ("https://www.facebook.com/tr?id=" ++ id
                           ++ "&ev=PageView&noscript=1") = EmptyString).
  { change ("https://www.facebook.com/tr?id=" ++ id ++ "&ev=PageView&noscript=1")
      with ("https://www.facebook.com"
              ++ String "/" ("tr?id=" ++ id ++ "&ev=PageView&noscript=1")).
    apply extname_no_dot; [reflexivity|].
    now rewrite !allChars_app, Hn. }
  rewrite Ext. cbn [toLowerCase isPictureExt List.existsb String.eqb orb].
  rewrite imgTag_element. reflexivity.
Qed.

(** *** The configuration that sets the identifier only *)

Lemma analytics_pixel (id : string) :
  nonEmpty id = true ->
  generateAnalyticsTags (setKey emptyEnv "META_PIXEL_ID" id) = metaPixelTag id.
Proof. destruct id; [discriminate | reflexivity]. Qed.

Lemma metaTags_pixel (id : string) :
  generateMetaTags (setKey emptyEnv "META_PIXEL_ID" id) = defaultOgp.
Proof. reflexivity. Qed.

Lemma structuredData_pixel (id html : string) :
  generateStructuredData (setKey emptyEnv "META_PIXEL_ID" id) html = EmptyString.
Proof. reflexivity. Qed.

(** The two places of the identifier in the snippet. *)
Lemma metaPixelTag_ids (id : string) :
  metaPixelTag id
  = pixelHeadA ++ id
      ++ (pixelHeadB ++ "<img" ++ tagBefore (pixelTag EmptyString) ++ "src=" ++ DQ
            ++ "https://www.facebook.com/tr?id=")
      ++ id ++ ("&ev=PageView&noscript=1" ++ DQ ++ "/></noscript>").
Proof.
  rewrite metaPixelTag_parts. unfold pixelHead, tagText.
  rewrite <- imgTag_element. unfold imgTag, q.
  cbn [pixelTag tagBefore tagOpen tagSrc tagClose tagAfter].
  rewrite !append_assoc. reflexivity.
Qed.

Lemma pixel_fragment_closed (id pre : string) :
  allChars isIdChar id = true ->
  includes pre "</head>" = false ->
  includes (pre ++ defaultOgp ++ LF ++ metaPixelTag id ++ LF) "</head>" = false.
Proof.
  intros Hid Hpre.
  destruct (id_facts id Hid) as (Hlt & _).
  rewrite metaPixelTag_ids.
  apply includes_app_right; [reflexivity | exact Hpre |].
  replace (defaultOgp ++ LF ++ (pixelHeadA ++ id
             ++ (pixelHeadB ++ "<img" ++ tagBefore (pixelTag EmptyString) ++ "src="
                   ++ DQ ++ "https://www.facebook.com/tr?id=")
             ++ id ++ "&ev=PageView&noscript=1" ++ DQ ++ "/></noscript>") ++ LF)
    with ((defaultOgp ++ LF ++ pixelHeadA) ++ id
            ++ ((pixelHeadB ++ "<img" ++ tagBefore (pixelTag EmptyString) ++ "src="
                   ++ DQ ++ "https://www.facebook.com/tr?id=")
                  ++ id ++ ("&ev=PageView&noscript=1" ++ DQ ++ "/></noscript>" ++ LF)))
    by (now rewrite !append_assoc).
  apply includes_around; [exact Hlt | reflexivity | reflexivity |].
  apply includes_around; [exact Hlt | reflexivity | reflexivity | reflexivity].
Qed.

Lemma pixel_fragment_dollar (id : string) :
  allChars isIdChar id = true ->
  includes (defaultOgp ++ metaPixelTag id ++ EmptyString ++ EmptyString) "$"
  = false.
Proof.
  intro Hid. destruct (id_facts id Hid) as (_ & _ & Hd & _).
  pose proof (includes_absent_char "$" EmptyString id Hd) as Hi.
  rewrite metaPixelTag_ids, !includes_char_app, Hi. reflexivity.
Qed.

(** The document after the injections. *)
Lemma injectFragments_pixel (id pre post : string) :
  nonEmpty id = true ->
  allChars isIdChar id = true ->
  includes pre "</head>" = false ->
  injectFragments (setKey emptyEnv "META_PIXEL_ID" id) EmptyString
                  (pre ++ "</head>" ++ post)
  = pre ++ defaultOgp ++ LF ++ metaPixelTag id ++ LF ++ "</head>" ++ post.
Proof.
  intros Hne Hid Hpre.
  pose proof (injection_layout (setKey emptyEnv "META_PIXEL_ID" id) EmptyString
                pre post) as HL.
  cbv zeta in HL. cbn [nonEmpty] in HL.
  rewrite metaTags_pixel, (analytics_pixel id Hne) in HL.
  rewrite structuredData_pixel in HL. cbn [nonEmpty] in HL.
  destruct HL as [_ HL].
  - rewrite !append_nil_r. now apply pixel_fragment_closed.
  - now apply pixel_fragment_dollar.
  - rewrite HL. reflexivity.
Qed.

Lemma injectFragments_default (pre post : string) :
  includes pre "</head>" = false ->
  injectFragments emptyEnv EmptyString (pre ++ "</head>" ++ post)
  = pre ++ defaultOgp ++ LF ++ LF ++ "</head>" ++ post.
Proof.
  intro Hpre.
  assert (Hx : includes (pre ++ defaultOgp ++ LF ++ EmptyString ++ LF
                             ++ EmptyString ++ EmptyString) "</head>" = false).
  { apply includes_app_right; [reflexivity | exact Hpre | reflexivity]. }
  exact (proj2 (injection_layout emptyEnv EmptyString pre post Hx eq_refl)).
Qed.

(** *** The texts around the tags *)

Lemma tagFree_app_right (a b : string) :
  noStraddleR (toLowerCase b) "<img" = true ->
  noStraddleR (toLowerCase b) "<picture" = true ->
  tagFree a = true -> tagFree b = true -> tagFree (a ++ b) = true.
Proof.
  intros N1 N2 Ha Hb.
  destruct (tagFree_parts a Ha) as [A1 A2].
  destruct (tagFree_parts b Hb) as [B1 B2].
  unfold tagFree. rewrite toLowerCase_app.
  now rewrite (includes_app_right _ _ _ N1 A1 B1),
              (includes_app_right _ _ _ N2 A2 B2).
Qed.

Lemma tagFree_app_left (a b : string) :
  noStraddleL (toLowerCase a) "<img" = true ->
  noStraddleL (toLowerCase a) "<picture" = true ->
  tagFree a = true -> tagFree b = true -> tagFree (a ++ b) = true.
Proof.
  intros N1 N2 Ha Hb.
  destruct (tagFree_parts a Ha) as [A1 A2].
  destruct (tagFree_parts b Hb) as [B1 B2].
  unfold tagFree. rewrite toLowerCase_app.
  now rewrite (includes_app_left _ _ _ N1 A1 B1),
              (includes_app_left _ _ _ N2 A2 B2).
Qed.

Lemma tagFree_pixelHead (id : string) :
  allChars isIdChar id = true ->
  tagFree (defaultOgp ++ LF ++ pixelHead id) = true.
Proof.
  intro Hid. destruct (id_facts id Hid) as (_ & _ & _ & _ & _ & Hl).
  unfold pixelHead.
  replace (defaultOgp ++ LF ++ pixelHeadA ++ id ++ pixelHeadB)
    with ((defaultOgp ++ LF ++ pixelHeadA) ++ id ++ pixelHeadB)
    by (now rewrite !append_assoc).
  unfold tagFree. rewrite !toLowerCase_app.
  rewrite (includes_around _ _ _ "img" Hl) by reflexivity.
  now rewrite (includes_around _ _ _ "picture" Hl) by reflexivity.
Qed.

End PixelFacts.


(** * Documents with several images *)

Section DocumentProperties.
Import JsString.
Import Regex.
Import Generators.
Import EnvFile.
Import ImageRewriter.
Import Build.
Import Notions.
Import DocumentNotions.
Import StringFacts.
Import DocumentFacts.
Import PixelFacts.

(** A document made of texts without [<img] and [<picture], each
    followed by a simple [<img>] tag, and of a last such text: every tag
    gives way to what the callback writes for its rank, counted from 1 in
    document order, and the texts stay as they are. *)
Theorem simple_images_rewritten_by_rank (items : list (string * ImgTag))
        (tail : string) (dimensions : Dimensions) (basePath : string)
        (spImages : list string) :
  Forall (fun it => tagFree (fst it) = true /\ simpleTag (snd it) = true) items ->
  tagFree tail = true ->
  processImages (document items tail) dimensions basePath spImages
  = (rewritten dimensions (normalizePrefix basePath) spImages 1 items tail, []).
Proof. apply processImages_document. Qed.

Lemma simple_images_rewritten_by_rank_witness :
  processImages
    (document [ ("<h1>Shop</h1>", mkImgTag " " dqChar "a.gif" dqChar " alt='A'");
                ("<p>and</p>", mkImgTag " " "'" "b.gif" "'" EmptyString) ]
              "<footer></footer>")
    [("src/b.gif", mkDimension 32 16)] EmptyString []
  = ("<h1>Shop</h1><img src=" ++ q "a.gif" ++ " alt='A'><p>and</p><img src="
       ++ q "b.gif" ++ " width=" ++ q "32" ++ " height=" ++ q "16" ++ " loading="
       ++ q "lazy" ++ "><footer></footer>", []).
Proof.
  apply (simple_images_rewritten_by_rank
           [ ("<h1>Shop</h1>", mkImgTag " " dqChar "a.gif" dqChar " alt='A'");
             ("<p>and</p>", mkImgTag " " "'" "b.gif" "'" EmptyString) ]
           "<footer></footer>" [("src/b.gif", mkDimension 32 16)] EmptyString []).
  - repeat constructor.
  - reflexivity.
Defined.

(** The image of the Meta Pixel snippet is the first image of the page.
    With [META_PIXEL_ID] set (and nothing else), the analytics fragment
    that [build] puts in the head holds an [<img>] in its [<noscript>];
    the image pass, which runs after the injections, gives it rank 1 and
    writes it back as it was, so the first image of the body gets rank 2:
    it is written as any later image, with [loading="lazy"] unless it
    has a [loading] attribute.  Without the identifier the same image has
    rank 1. *)
Theorem tracking_pixel_takes_first_rank (id pre mid post : string) (t : ImgTag)
        (dimensions : Dimensions) (basePath : string) (spImages : list string) :
  nonEmpty id = true ->
  allChars isIdChar id = true ->
  includes pre "</head>" = false ->
  tagFree pre = true ->
  tagFree mid = true ->
  tagFree post = true ->
  simpleTag t = true ->
  let page := pre ++ "</head>" ++ mid ++ tagText t ++ post in
  let image k :=
    rewriteImg dimensions (normalizePrefix basePath) spImages k
               (tagBefore t) (tagSrc t) (tagAfter t) in
  processImages
    (injectFragments (setKey emptyEnv "META_PIXEL_ID" id) EmptyString page)
    dimensions basePath spImages
  = (pre ++ defaultOgp ++ LF ++ metaPixelTag id ++ LF ++ "</head>" ++ mid
         ++ image 2 ++ post, [])
  /\ processImages (injectFragments emptyEnv EmptyString page)
                   dimensions basePath spImages
     = (pre ++ defaultOgp ++ LF ++ LF ++ "</head>" ++ mid ++ image 1 ++ post, []).
Proof.
  intros Hne Hid Hhead Hpre Hmid Hpost Ht page image. split.
  - subst page. rewrite (injectFragments_pixel id pre _ Hne Hid Hhead).
    replace (pre ++ defaultOgp ++ LF ++ metaPixelTag id ++ LF ++ "</head>" ++ mid
                 ++ tagText t ++ post)
      with (document
              [ (pre ++ defaultOgp ++ LF ++ pixelHead id, pixelTag id);
                ("</noscript>" ++ LF ++ "</head>" ++ mid, t) ] post).
    + rewrite processImages_document.
      * cbn [rewritten tagBefore tagSrc tagAfter].
        rewrite (rewriteImg_pixel _ _ _ id Hid), metaPixelTag_parts.
        subst image. cbv beta. f_equal. now rewrite !append_assoc.
      * constructor; [|constructor; [|constructor]]; cbn [fst snd].
        -- split; [|now apply pixelTag_simple].
           apply tagFree_app_right; try reflexivity; [exact Hpre|].
           now apply tagFree_pixelHead.
        -- split; [|exact Ht].
           replace ("</noscript>" ++ LF ++ "</head>" ++ mid)
             with (("</noscript>" ++ LF ++ "</head>") ++ mid)
             by (now rewrite !append_assoc).
           now apply tagFree_app_left.
      * exact Hpost.
    + cbn [document]. rewrite metaPixelTag_parts. now rewrite !append_assoc.
  - subst page. rewrite (injectFragments_default pre _ Hhead).
    replace (pre ++ defaultOgp ++ LF ++ LF ++ "</head>" ++ mid ++ tagText t ++ post)
      with (document [ (pre ++ (defaultOgp ++ LF ++ LF ++ "</head>") ++ mid, t) ]
                     post)
      by (cbn [document]; now rewrite !append_assoc).
    rewrite processImages_document.
    + cbn [rewritten]. subst image. cbv beta. f_equal. now rewrite !append_assoc.
    + constructor; [|constructor]. cbn [fst snd]. split; [|exact Ht].
      apply tagFree_app_right; try reflexivity; [exact Hpre|].
      now apply tagFree_app_left.
    + exact Hpost.
Qed.

Lemma tracking_pixel_takes_first_rank_witness :
  processImages
    (injectFragments (setKey emptyEnv "META_PIXEL_ID" "1234567890") EmptyString
       ("<html><head><title>LP</title>" ++ "</head>" ++ "<body><h1>LP</h1>"
          ++ tagText (mkImgTag " " dqChar "hero.gif" dqChar " alt='Hero'")
          ++ "</body></html>"))
    [] EmptyString []
  = ("<html><head><title>LP</title>" ++ defaultOgp ++ LF
       ++ metaPixelTag "1234567890" ++ LF ++ "</head>" ++ "<body><h1>LP</h1>"
       ++ ("<img src=" ++ q "hero.gif" ++ " alt='Hero' loading=" ++ q "lazy" ++ ">")
       ++ "</body></html>", []).
Proof.
  exact (proj1 (tracking_pixel_takes_first_rank "1234567890"
                  "<html><head><title>LP</title>" "<body><h1>LP</h1>"
                  "</body></html>"
                  (mkImgTag " " dqChar "hero.gif" dqChar " alt='Hero'")
                  [] EmptyString []
                  eq_refl eq_refl eq_refl eq_refl eq_refl eq_refl eq_refl)).
Defined.

End DocumentProperties.


(** * Missing values *)

Section LookupProperties.
Import JsString.
Import Regex.
Import Generators.
Import ImageRewriter.
Import Notions.
Import StringFacts.

(** The size attributes come from the first entry of the table, in the
    order of its keys, whose key is not empty and ends with the path of
    the image (its leading slash apart): only the attributes the tag
    lacks are added; a table without such an entry adds nothing. *)
Theorem size_attributes_by_suffix (earlier later : Dimensions) (key : string)
        (d : Dimension) (src before after : string) :
  (forall kv, In kv earlier -> endsWith (fst kv) (stripSlash src) = false) ->
  endsWith key (stripSlash src) = true ->
  nonEmpty key = true ->
  sizeAttrs (earlier ++ (key, d) :: later)%list src before after
  = (if hasAttr "width=" (before ++ after) then EmptyString
     else " width=" ++ q (showN (width d)))
    ++ (if hasAttr "height=" (before ++ after) then EmptyString
        else " height=" ++ q (showN (height d)))
  /\ sizeAttrs earlier src before after = EmptyString.
Proof.
  intros Hearlier Hkey Hne.
  assert (Hnone : List.find (fun kv => endsWith (fst kv) (stripSlash src)) earlier
                  = None).
  { induction earlier as [|kv earlier IH]; [reflexivity|].
    cbn [List.find]. rewrite (Hearlier kv) by (now left).
    apply IH. intros kv' Hin. apply Hearlier. now right. }
  assert (Hfind : List.find (fun kv => endsWith (fst kv) (stripSlash src))
                            (earlier ++ (key, d) :: later) = Some (key, d)).
  { clear Hnone. induction earlier as [|kv earlier IH].
    - cbn [List.app List.find fst]. now rewrite Hkey.
    - cbn [List.app List.find]. rewrite (Hearlier kv) by (now left).
      apply IH. intros kv' Hin. apply Hearlier. now right. }
  unfold sizeAttrs. rewrite Hfind, Hnone, Hne. split.
  - destruct (hasAttr "width=" (before ++ after));
      destruct (hasAttr "height=" (before ++ after)); reflexivity.
  - now destruct (negb (hasAttr "width=" (before ++ after))
                  || negb (hasAttr "height=" (before ++ after))).
Qed.

Lemma size_attributes_by_suffix_witness :
  sizeAttrs ([("src/images/logo.gif", mkDimension 10 10)]
               ++ ("src/images/extra.gif", mkDimension 300 200)
               :: [("src/images/a.gif", mkDimension 64 48)])%list
            "/a.gif" " height='1' " EmptyString
  = " width=" ++ q "300".
Proof.
  refine (proj1 (size_attributes_by_suffix
                   [("src/images/logo.gif", mkDimension 10 10)]
                   [("src/images/a.gif", mkDimension 64 48)]
                   "src/images/extra.gif" (mkDimension 300 200)
                   "/a.gif" " height='1' " EmptyString _ eq_refl eq_refl)).
  intros kv [<- | []]. reflexivity.
Defined.

End LookupProperties.


(** ** Pages of image tags *)

Module PageFacts.
Import JsString.
Import Regex.
Import Generators.
Import ImageRewriter.
Import Notions.
Import BuildNotions.
Import DocumentNotions.
Import PageNotions.
Import StringFacts.
Import RegexFacts.
Import ImageFacts.
Import MatchFacts.
Import PictureFacts.
Import TagFacts.
Import LiteralFacts.
Import OccurrenceFacts.
Import ScriptFacts.
Import DocumentFacts.
Import PixelFacts.

#[local] Arguments lowerChar : simpl never.
#[local] Arguments isQuote : simpl never.

Lemma bareTag_parts (opener attrs : string) :
  bareTag opener attrs = true ->
  toLowerCase opener = "<img"
  /\ allChars (isNot "<") attrs = true
  /\ allChars (isNot ">") attrs = true
  /\ test quotedSrc attrs = false.
Proof.
  unfold bareTag, plainText. intro H.
  repeat (apply andb_true_iff in H; destruct H as [H ?]).
  apply String.eqb_eq in H.
  match goal with
  | Hn : negb _ = true |- _ => apply negb_true_iff in Hn
  end.
  repeat split; assumption.
Qed.

(** A tag starts with [<i], in some letter case, and holds no other
    [<]. *)
Lemma element_plain (e : element) :
  wellFormed e = true ->
  exists c2 inner,
    elementText e = String "<" (String c2 inner)
    /\ lowerChar c2 = "i"%char
    /\ allChars (isNot "<") (String c2 inner) = true.
Proof.
  destruct e as [t | opener attrs]; cbn [wellFormed elementText]; intro H.
  - destruct (tagText_plain t H) as (inner & E & Hin).
    destruct (tagText_head t) as [inner' E'].
    rewrite E in E'. injection E' as ->.
    exists "i"%char, inner'. repeat split; assumption.
  - destruct (bareTag_parts opener attrs H) as (Ho & Hlt & _ & _).
    destruct (opener_chars opener Ho) as (c2 & c3 & c4 & -> & H2 & H3 & H4).
    exists c2, (String c3 (String c4 (attrs ++ ">"))).
    split; [reflexivity|]. split; [exact H2|].
    cbn [allChars].
    rewrite (not_lt_of_lower c2 _ H2 eq_refl),
            (not_lt_of_lower c3 _ H3 eq_refl),
            (not_lt_of_lower c4 _ H4 eq_refl).
    rewrite allChars_app, Hlt. reflexivity.
Qed.

(** The picture pattern cuts nothing out of a page. *)
Lemma scan_picture_page (items : list (string * element)) (tail : string) :
  Forall (fun it => tagFree (fst it) = true /\ wellFormed (snd it) = true) items ->
  tagFree tail = true ->
  scanFrom pictureRegex 0 (page items tail) = lits (page items tail).
Proof.
  intros Hitems Htail. induction Hitems as [|[text e] items [Ht He] _ IH].
  - cbn [page]. apply (scan_no_match pictureRegex tail).
    intros p1 p2 ->. unfold pictureRegex. cbn [seqs].
    apply (exec_litI_absent "<picture" _ p1 p2).
    exact (proj2 (tagFree_parts _ Htail)).
  - cbn [page fst snd] in *.
    destruct (element_plain e He) as (c2 & inner & E & H2 & Hin).
    rewrite E. cbn [append].
    rewrite scan_skip.
    + rewrite lits_app. f_equal.
      rewrite scanFrom_miss by (now apply pictureRegex_not_img).
      cbn [lits]. f_equal.
      change (String c2 (inner ++ page items tail))
        with (String c2 inner ++ page items tail).
      rewrite (scan_plain pictureRegex _ _ pictureRegex_startsAtLt Hin).
      now rewrite lits_app, IH.
    + intros p1 p2 -> Hp2. apply (picture_before p1); [|exact Hp2].
      exact (proj2 (tagFree_parts _ Ht)).
Qed.

(** The image pattern cuts out the quoted tags, and nothing else. *)
Lemma scan_img_page (items : list (string * element)) (tail : string) :
  Forall (fun it => tagFree (fst it) = true /\ wellFormed (snd it) = true) items ->
  tagFree tail = true ->
  scanFrom imgRegex 0 (page items tail) = pagePieces items tail.
Proof.
  intros Hitems Htail. induction Hitems as [|[text e] items [Ht He] _ IH].
  - cbn [page pagePieces]. apply (scan_no_match imgRegex tail).
    intros p1 p2 ->. unfold imgRegex. cbn [seqs].
    apply (exec_litI_absent "<img" _ p1 p2).
    exact (proj1 (tagFree_parts _ Htail)).
  - cbn [page fst snd] in *.
    destruct (element_plain e He) as (c2 & inner & E & H2 & Hin).
    rewrite scan_skip.
    2:{ intros p1 p2 -> Hp2. rewrite E. cbn [append].
        apply (img_before p1); [|exact Hp2].
        exact (proj1 (tagFree_parts _ Ht)). }
    destruct e as [t | opener attrs]; cbn [pagePieces wellFormed elementText] in *.
    + f_equal.
      destruct (simpleTag_parts t He) as (_ & _ & _ & _ & _ & Hexec).
      pose proof (Hexec (page items tail)) as Hx.
      rewrite E in Hx |- *. cbn [append] in Hx |- *.
      rewrite (scanFrom_hit _ _ _ (page items tail) _
                 (String.length (String c2 inner)) Hx).
      * f_equal.
        -- f_equal.
           change (String "<" (String c2 (inner ++ page items tail)))
             with (String "<" (String c2 inner) ++ page items tail).
           apply consumed_app.
        -- change (String c2 (inner ++ page items tail))
             with (String c2 inner ++ page items tail).
           rewrite scanFrom_skip_all. exact IH.
      * cbn [String.length]. rewrite length_append. lia.
    + f_equal.
      destruct (bareTag_parts opener attrs He) as (Ho & _ & Hgt & Hq).
      pose proof (imgRegex_unquoted opener attrs (page items tail) Ho Hgt Hq)
        as Hx.
      replace (opener ++ attrs ++ String ">" (page items tail))
        with ((opener ++ attrs ++ ">") ++ page items tail) in Hx
        by (now rewrite !append_assoc).
      rewrite E in Hx |- *. cbn [append] in Hx |- *.
      rewrite (scanFrom_miss _ _ _ Hx). cbn [lits List.app]. f_equal.
      change (String c2 (inner ++ page items tail))
        with (String c2 inner ++ page items tail).
      rewrite (scan_plain imgRegex _ _ imgRegex_startsAtLt Hin).
      now rewrite IH.
Qed.

(** The callback numbers the quoted tags from [S n]. *)
Lemma render_pagePieces (dimensions : Dimensions) (prefix : string)
      (spImages : list string) (items : list (string * element)) (tail : string) :
  forall n,
    snd (render (imgCallback dimensions prefix spImages) n (pagePieces items tail))
    = processed (fun k t => rewriteImg dimensions prefix spImages k
                              (tagBefore t) (tagSrc t) (tagAfter t))
                (S n) items tail.
Proof.
  induction items as [|[text e] items IH]; intro n.
  - cbn [pagePieces processed]. now rewrite render_lits.
  - destruct e as [t | opener attrs]; cbn [pagePieces processed].
    + rewrite render_lits_app. cbn [render imgCallback snd].
      specialize (IH (S n)).
      destruct (render (imgCallback dimensions prefix spImages) (S n)
                       (pagePieces items tail)) as [st out].
      cbn [snd] in IH |- *. now rewrite IH.
    + rewrite render_lits_app. cbn [snd]. rewrite render_lits_app. cbn [snd].
      rewrite IH. now rewrite !append_assoc.
Qed.

Lemma page_leadIn (x : string) (items : list (string * element)) (tail : string) :
  page (fst (leadIn x items tail)) (snd (leadIn x items tail))
  = x ++ page items tail.
Proof.
  destruct items as [|[text e] items]; cbn [leadIn fst snd page]; [reflexivity|].
  now rewrite append_assoc.
Qed.

Lemma processed_leadIn (shown : nat -> ImgTag -> string) (k : nat) (x : string)
      (items : list (string * element)) (tail : string) :
  processed shown k (fst (leadIn x items tail)) (snd (leadIn x items tail))
  = x ++ processed shown k items tail.
Proof.
  destruct items as [|[text [t | opener attrs]] items];
    cbn [leadIn fst snd processed]; [reflexivity| |];
    now rewrite append_assoc.
Qed.

Lemma leadIn_ok (x : string) (items : list (string * element)) (tail : string) :
  (forall text, tagFree text = true -> tagFree (x ++ text) = true) ->
  Forall (fun it => tagFree (fst it) = true /\ wellFormed (snd it) = true) items ->
  tagFree tail = true ->
  Forall (fun it => tagFree (fst it) = true /\ wellFormed (snd it) = true)
         (fst (leadIn x items tail))
  /\ tagFree (snd (leadIn x items tail)) = true.
Proof.
  intros Hx Hitems Htail.
  destruct Hitems as [|[text e] items [Ht He] Hitems]; cbn [leadIn fst snd].
  - split; [constructor | now apply Hx].
  - split; [|exact Htail]. constructor; [|exact Hitems].
    cbn [fst snd]. split; [now apply Hx | exact He].
Qed.

(** The [<img>] pass on a page. *)
Lemma images_page (dimensions : Dimensions) (prefix : string)
      (spImages : list string) (items : list (string * element)) (tail : string) :
  Forall (fun it => tagFree (fst it) = true /\ wellFormed (snd it) = true) items ->
  tagFree tail = true ->
  snd (replaceAllWith (imgCallback dimensions prefix spImages) 0 imgRegex
                      (page items tail))
  = processed (fun k t => rewriteImg dimensions prefix spImages k
                            (tagBefore t) (tagSrc t) (tagAfter t))
              1 items tail.
Proof.
  intros Hitems Htail. unfold replaceAllWith, scan.
  rewrite (scan_img_page items tail Hitems Htail). apply render_pagePieces.
Qed.

(** The text of the first placeholder between two texts without image
    tags. *)
Lemma tagFree_lead (pre text : string) :
  tagFree pre = true -> tagFree text = true ->
  tagFree ((pre ++ "__PICTURE_PLACEHOLDER_0__") ++ text) = true.
Proof.
  intros Hpre Ht. rewrite append_assoc.
  apply tagFree_app_right; [reflexivity | reflexivity | exact Hpre|].
  apply tagFree_app_left; [reflexivity | reflexivity | reflexivity | exact Ht].
Qed.

(** The first occurrence of a text that starts with a text which cannot
    overlap itself. *)
Lemma splitFirst_extended (p0 ext pre post : string) :
  unbordered p0 = true ->
  includes pre p0 = false ->
  splitFirst (p0 ++ ext) (pre ++ (p0 ++ ext) ++ post) = Some (pre, post).
Proof.
  intros Hu Hpre. induction pre as [|y x IH].
  - destruct p0 as [|c p0]; [discriminate Hpre|].
    cbn [append splitFirst].
    change (String c ((p0 ++ ext) ++ post)) with (String c (p0 ++ ext) ++ post).
    now rewrite startsWith_self_app, drop_length_app.
  - pose proof (splitFirst_unbordered p0 (String y x) (ext ++ post) Hu Hpre) as E.
    rewrite includes_cons in Hpre. apply orb_false_iff in Hpre as [_ Hx].
    change (String y x ++ (p0 ++ ext) ++ post)
      with (String y (x ++ (p0 ++ ext) ++ post)).
    change (String y x ++ p0 ++ ext ++ post)
      with (String y (x ++ p0 ++ ext ++ post)) in E.
    cbn [splitFirst] in E |- *.
    destruct (startsWith (String y (x ++ (p0 ++ ext) ++ post)) (p0 ++ ext)) eqn:S.
    + exfalso. apply startsWith_prefix in S.
      rewrite append_assoc in S. rewrite S in E. discriminate E.
    + rewrite (IH Hx). now destruct (p0 ++ ext).
Qed.

(** The picture pattern at a block in front of a text. *)
Lemma scan_picture_front (pre body rest : string) :
  tagFree pre = true ->
  includes body "</" = false ->
  scan pictureRegex (pre ++ ("<picture" ++ body ++ "</picture>") ++ rest)
  = (lits pre ++ Hit ("<picture" ++ body ++ "</picture>") []
       :: scan pictureRegex rest)%list.
Proof.
  intros Hpre Hb. apply scan_at.
  - intros p1 p2 -> Hp2. cbn [append].
    apply (picture_before p1); [|exact Hp2].
    exact (proj2 (tagFree_parts _ Hpre)).
  - discriminate.
  - rewrite !append_assoc. now apply pictureRegex_block.
Qed.

(** [processImages] on a page, with or without a picture block in front
    of it. *)
Lemma processImages_page (f : string) (items : list (string * element))
      (tail : string) (dimensions : Dimensions) (basePath : string)
      (spImages : list string) :
  front f ->
  Forall (fun it => tagFree (fst it) = true /\ wellFormed (snd it) = true) items ->
  tagFree tail = true ->
  processImages (f ++ page items tail) dimensions basePath spImages
  = (f ++ processed (fun k t => rewriteImg dimensions (normalizePrefix basePath)
                                  spImages k (tagBefore t) (tagSrc t) (tagAfter t))
                    1 items tail, []).
Proof.
  intros Hf Hitems Htail. destruct Hf as [|pre body Hpre Hfresh Hb Hd].
  - cbn [append]. unfold processImages, protectPictures, replaceAllWith at 1.
    unfold scan at 1.
    rewrite (scan_picture_page items tail Hitems Htail), render_lits.
    pose proof (images_page dimensions (normalizePrefix basePath) spImages
                  items tail Hitems Htail) as E.
    destruct (replaceAllWith _ 0 imgRegex (page items tail)) as [st out].
    cbn [snd] in E. cbn [restorePictures]. now rewrite E.
  - rewrite append_assoc.
    unfold processImages, protectPictures, replaceAllWith at 1.
    rewrite (scan_picture_front pre body _ Hpre Hb).
    unfold scan. rewrite (scan_picture_page items tail Hitems Htail).
    rewrite render_lits_app. cbn [render protectPicture].
    rewrite render_lits. cbn [fst snd List.app List.length Nat.sub].
    change (placeholder 0) with "__PICTURE_PLACEHOLDER_0__".
    set (x := pre ++ "__PICTURE_PLACEHOLDER_0__").
    replace (pre ++ "__PICTURE_PLACEHOLDER_0__" ++ page items tail)
      with (x ++ page items tail) by (subst x; now rewrite append_assoc).
    rewrite <- (page_leadIn x items tail).
    destruct (leadIn_ok x items tail
                (fun text Ht => tagFree_lead pre text Hpre Ht) Hitems Htail)
      as [Hitems' Htail'].
    pose proof (images_page dimensions (normalizePrefix basePath) spImages
                  _ _ Hitems' Htail') as E.
    destruct (replaceAllWith _ 0 imgRegex _) as [st out].
    cbn [snd] in E. rewrite E, processed_leadIn. subst x.
    cbn [restorePictures].
    change (placeholder 0) with ("__PICTURE_PLACEHOLDER_0" ++ "__").
    unfold JsString.replace.
    rewrite (append_assoc pre).
    match goal with
    | |- context [pre ++ "__PICTURE_PLACEHOLDER_0__" ++ ?z] =>
        change (pre ++ "__PICTURE_PLACEHOLDER_0__" ++ z)
          with (pre ++ ("__PICTURE_PLACEHOLDER_0" ++ "__") ++ z)
    end.
    rewrite (splitFirst_extended "__PICTURE_PLACEHOLDER_0" "__" pre _ eq_refl Hfresh).
    rewrite getSubstitution_plain.
    + now rewrite !append_assoc.
    + change ("<picture" ++ body ++ "</picture>")
        with ("<picture" ++ (body ++ "</picture>")).
      rewrite !includes_char_app, Hd. reflexivity.
Qed.





(** A page of bare tags stays as it is. *)
Lemma processed_bare (shown : nat -> ImgTag -> string)
      (items : list (string * element)) (tail : string) :
  List.forallb (fun it => isBare (snd it)) items = true ->
  forall k, processed shown k items tail = page items tail.
Proof.
  induction items as [|[text e] items IH]; intros H k; [reflexivity|].
  cbn [List.forallb snd] in H. apply andb_true_iff in H as [He H].
  destruct e as [t | opener attrs]; [discriminate|].
  cbn [processed page elementText]. rewrite (IH H). now rewrite !append_assoc.
Qed.


End PageFacts.


(** * The claims on the image tags of a page *)

Section PageClaims.
Import JsString.
Import Regex.
Import Generators.
Import ImageRewriter.
Import Notions.
Import DocumentNotions.
Import PageNotions.
Import StringFacts.
Import PrefixFacts.
Import PageFacts.












(** C10, as the script has it.  On a page of well-formed tags, a bare tag
    (no [src=] directly followed by a quote in its attribute text) stays
    as it is and is not counted: the quoted tags around it get what the
    callback writes for their rank among the quoted tags.  A page whose
    tags are all bare comes back as it was. *)
Theorem unquoted_src_untouched (f : string) (items : list (string * element))
        (tail : string) (dimensions : Dimensions) (basePath : string)
        (spImages : list string) :
  front f ->
  Forall (fun it => tagFree (fst it) = true /\ wellFormed (snd it) = true) items ->
  tagFree tail = true ->
  processImages (f ++ page items tail) dimensions basePath spImages
  = (f ++ processed
            (fun k t => rewriteImg dimensions (normalizePrefix basePath) spImages
                                   k (tagBefore t) (tagSrc t) (tagAfter t))
            1 items tail, [])
  /\ (List.forallb (fun it => isBare (snd it)) items = true ->
      processImages (f ++ page items tail) dimensions basePath spImages
      = (f ++ page items tail, [])).
Proof.
  intros Hf Hitems Htail.
  pose proof (processImages_page f items tail dimensions basePath spImages
                Hf Hitems Htail) as E.
  split; [exact E|]. intro Hb. rewrite E. now rewrite (processed_bare _ _ _ Hb).
Qed.

Lemma unquoted_src_witness :
  processImages
    (("<main>" ++ "<picture" ++ ("><img src=" ++ q "logo.png" ++ ">")
        ++ "</picture>")
       ++ page
            [ ("<p>", Bare "<IMG" (" src=images/hero.png alt=" ++ q "Hero"));
              ("</p><p>", Bare "<img" " class='x' SRC=images/b.jpg") ]
            "</p></main>")
    [("images/hero.png", mkDimension 640 480)] "/lp" ["images/hero.png"]
  = ("<main><picture><img src=" ++ q "logo.png"
       ++ "></picture><p><IMG src=images/hero.png alt=" ++ q "Hero"
       ++ "></p><p><img class='x' SRC=images/b.jpg></p></main>", []).
Proof.
  apply (proj2 (unquoted_src_untouched
                  ("<main>" ++ "<picture" ++ ("><img src=" ++ q "logo.png" ++ ">")
                     ++ "</picture>")
                  [ ("<p>", Bare "<IMG" (" src=images/hero.png alt=" ++ q "Hero"));
                    ("</p><p>", Bare "<img" " class='x' SRC=images/b.jpg") ]
                  "</p></main>"
                  [("images/hero.png", mkDimension 640 480)] "/lp"
                  ["images/hero.png"]
                  (PictureFirst "<main>" ("><img src=" ++ q "logo.png" ++ ">")
                                eq_refl eq_refl eq_refl eq_refl)
                  ltac:(repeat constructor) eq_refl)).
  reflexivity.
Defined.

(** C10 fails on the script for a tag whose [src] is not quoted and that
    has an attribute such as [data-src] with a quoted value: the pass
    takes that value for the path and puts the prefix in front of it. *)
Lemma unquoted_src_with_quoted_data_src :
  processImages ("<img src=hero.png data-src=" ++ q "x.gif" ++ ">")
                [] "/lp" []
  = ("<img src=hero.png data-src=" ++ q "/lp/x.gif" ++ ">", [])
  /\ fst (processImages ("<img src=hero.png data-src=" ++ q "x.gif" ++ ">")
                        [] "/lp" [])
     <> "<img src=hero.png data-src=" ++ q "x.gif" ++ ">".
Proof. split; [vm_compute; reflexivity | vm_compute; discriminate]. Qed.

End PageClaims.
